(** * hydrodatasource: the streamflow cleaner and the backtrack pipeline

    A shallow embedding of [hydrodatasource/cleaner/streamflow_cleaner.py]
    (classes [StreamflowCleaner] and [StreamflowBacktrack]) and of the base
    class in [cleaner.py].

    Modelling conventions.
    - A float64 is an exact rational or one of the three special values
      +inf, -inf, NaN ([Float.fval]); rounding and the sign of zero are left
      out, everything else (division by zero, NaN propagation, comparisons
      with NaN) follows IEEE 754 as NumPy applies it.
    - A pandas Series is an association list of (label, value) pairs, in row
      order; a NumPy array is a plain list of values.  Python values that are
      one or the other are the tagged union [data].
    - A timestamp is a number of seconds ([Z]); rows are taken with a parsed
      timestamp.
    - Python exceptions are the [Raise] results of the [result] monad.
    - The SciPy routines ([curve_fit], [butter], [filtfilt], [fft], [ifft],
      [cwt]) and [np.sqrt] are the members of the class [SciPy]. *)

From Stdlib Require Import ZArith QArith Qcanon List Lia Lqa String Bool Ascii.
Import ListNotations.
Close Scope Q_scope.
Close Scope Qc_scope.

Set Implicit Arguments.

(** ** Exceptions *)

Inductive pyerr :=
| AttributeError | IndexError | KeyError | TypeError | ValueError
| ZeroDivisionError | RuntimeError.

Inductive result (A : Type) :=
| Ok (a : A)
| Raise (e : pyerr).
Arguments Ok {A} a.
Arguments Raise {A} e.

Definition bind {A B} (m : result A) (k : A -> result B) : result B :=
  match m with
  | Ok a => k a
  | Raise e => Raise e
  end.

Notation "x <- m ;; k" := (bind m (fun x => k))
  (at level 61, m at next level, right associativity).

(** ** Floating-point values *)

Module Float.

Local Open Scope Qc_scope.

Inductive fval :=
| Fin (q : Qc)
| PInf
| NInf
| NaN.

Definition qz (z : Z) : Qc := Q2Qc (inject_Z z).
Definition fz (z : Z) : fval := Fin (qz z).

Definition qeqb (a b : Qc) : bool :=
  match a ?= b with Eq => true | _ => false end.
Definition qltb (a b : Qc) : bool :=
  match a ?= b with Lt => true | _ => false end.

(** The infinity (or NaN) with the sign given by a comparison with zero. *)
Definition inf_of (c : comparison) : fval :=
  match c with Gt => PInf | Lt => NInf | Eq => NaN end.

Definition fopp (a : fval) : fval :=
  match a with
  | Fin x => Fin (- x)
  | PInf => NInf
  | NInf => PInf
  | NaN => NaN
  end.

Definition fadd (a b : fval) : fval :=
  match a, b with
  | NaN, _ | _, NaN => NaN
  | Fin x, Fin y => Fin (x + y)
  | PInf, NInf | NInf, PInf => NaN
  | PInf, _ | _, PInf => PInf
  | NInf, _ | _, NInf => NInf
  end.

Definition fsub (a b : fval) : fval := fadd a (fopp b).

Definition fmul (a b : fval) : fval :=
  match a, b with
  | NaN, _ | _, NaN => NaN
  | Fin x, Fin y => Fin (x * y)
  | Fin x, PInf | PInf, Fin x => inf_of (x ?= 0)
  | Fin x, NInf | NInf, Fin x => inf_of (0 ?= x)
  | PInf, PInf | NInf, NInf => PInf
  | PInf, NInf | NInf, PInf => NInf
  end.

(** NumPy's true division: a zero divisor gives an infinity or NaN (and a
    RuntimeWarning), never an exception. *)
Definition fdiv (a b : fval) : fval :=
  match a, b with
  | NaN, _ | _, NaN => NaN
  | Fin x, Fin y => if qeqb y 0 then inf_of (x ?= 0) else Fin (x / y)
  | Fin _, PInf | Fin _, NInf => Fin 0
  | PInf, Fin y => if qltb y 0 then NInf else PInf
  | NInf, Fin y => if qltb y 0 then PInf else NInf
  | PInf, PInf | PInf, NInf | NInf, PInf | NInf, NInf => NaN
  end.

Definition fabs (a : fval) : fval :=
  match a with
  | Fin x => if qltb x 0 then Fin (- x) else Fin x
  | PInf | NInf => PInf
  | NaN => NaN
  end.

(** [a < b]; false as soon as one side is NaN. *)
Definition fltb (a b : fval) : bool :=
  match a, b with
  | NaN, _ | _, NaN => false
  | Fin x, Fin y => qltb x y
  | NInf, NInf => false
  | NInf, _ => true
  | _, NInf => false
  | PInf, _ => false
  | Fin _, PInf => true
  end.

Definition feqb (a b : fval) : bool :=
  match a, b with
  | Fin x, Fin y => qeqb x y
  | PInf, PInf | NInf, NInf => true
  | _, _ => false
  end.

Definition fleb (a b : fval) : bool := fltb a b || feqb a b.
Definition fgeb (a b : fval) : bool := fleb b a.
Definition fgtb (a b : fval) : bool := fltb b a.

Definition isnan (a : fval) : bool :=
  match a with NaN => true | _ => false end.
Definition isinf (a : fval) : bool :=
  match a with PInf | NInf => true | _ => false end.
Definition isfinite (a : fval) : bool :=
  match a with Fin _ => true | _ => false end.

(** Structural equality test, NaN equal to NaN: used to compare computed
    series with expected ones. *)
Definition same (a b : fval) : bool :=
  match a, b with
  | NaN, NaN => true
  | _, _ => feqb a b
  end.

Fixpoint same_list (xs ys : list fval) : bool :=
  match xs, ys with
  | [], [] => true
  | x :: xs', y :: ys' => same x y && same_list xs' ys'
  | _, _ => false
  end.

End Float.
Export Float.

(** ** Series, arrays and their sums *)

Inductive label :=
| Row (i : nat)
| Time (t : Z).

Definition label_eqb (a b : label) : bool :=
  match a, b with
  | Row i, Row j => Nat.eqb i j
  | Time s, Time t => Z.eqb s t
  | _, _ => false
  end.

Definition Series := list (label * fval).

Inductive data :=
| DSeries (s : Series)
| DArray (a : list fval).

Definition index (s : Series) : list label := map fst s.
Definition values (s : Series) : list fval := map snd s.

Definition dvalues (d : data) : list fval :=
  match d with
  | DSeries s => values s
  | DArray a => a
  end.

(** [pd.RangeIndex(n)], the index [read_csv] gives a frame. *)
Definition RangeIndex (n : nat) : list label := map Row (seq 0 n).

(** The values of [d] replaced, its kind and index kept: the result of an
    element-wise operation on [d]. *)
Definition with_values (d : data) (vs : list fval) : data :=
  match d with
  | DSeries s => DSeries (combine (index s) vs)
  | DArray _ => DArray vs
  end.

Definition dmap (f : fval -> fval) (d : data) : data :=
  match d with
  | DSeries s => DSeries (map (fun p => (fst p, f (snd p))) s)
  | DArray a => DArray (map f a)
  end.

Definition fsum (xs : list fval) : fval := fold_right fadd (fz 0) xs.

Definition dropna (xs : list fval) : list fval :=
  filter (fun v => negb (isnan v)) xs.

(** [np.sum(x)]: on a Series NumPy defers to [Series.sum], which skips NaN;
    on an array NaN propagates. *)
Definition np_sum (d : data) : fval :=
  match d with
  | DSeries s => fsum (dropna (values s))
  | DArray a => fsum a
  end.

(** [x.mean()] on a Series or a window of one: NaN skipped, NaN when nothing
    is left. *)
Definition mean (xs : list fval) : fval :=
  match dropna xs with
  | [] => NaN
  | ys => fdiv (fsum ys) (fz (Z.of_nat (List.length ys)))
  end.

(** [x[x < 0] = 0] *)
Definition clamp (xs : list fval) : list fval :=
  map (fun v => if fltb v (fz 0) then fz 0 else v) xs.

(** [xs[start:stop]] for non-negative bounds. *)
Definition slice (start stop : nat) (xs : list fval) : list fval :=
  firstn (stop - start) (skipn start xs).

(** ** StreamflowCleaner *)

Record StreamflowCleaner := {
  window_size : nat;
  stride : nat;
  cutoff_frequency : fval;
  time_step : fval;
  iterations : nat;
  sampling_rate : fval;
  order : nat;
  cwt_row : nat
}.

(** [data_balanced]: the two prints left out. *)
Definition data_balanced (origin_data transform_data : data) : data :=
  let streamflow_data_before := np_sum origin_data in
  let streamflow_data_after := np_sum transform_data in
  let scaling_factor := fdiv streamflow_data_before streamflow_data_after in
  dmap (fun v => fmul v scaling_factor) transform_data.

(** *** pandas helpers used by the methods *)

(** Rolling replaces infinities by NaN before it aggregates. *)
Definition prep_values (xs : list fval) : list fval :=
  map (fun v => if isinf v then NaN else v) xs.

(** One value of [x.rolling(window, min_periods, center).mean()]: the window
    of row [i] ends [offset] rows after it, is clipped to the series, and
    gives a mean once it holds [min_periods] observations. *)
Definition rolling_at (window min_periods offset : nat) (xs : list fval)
    (i : nat) : fval :=
  let stop := Nat.min (i + 1 + offset) (List.length xs) in
  let start := Nat.min (i + 1 + offset - window) (List.length xs) in
  let obs := dropna (slice start stop xs) in
  let nobs := List.length obs in
  if (min_periods <=? nobs) && (0 <? nobs)
  then fdiv (fsum obs) (fz (Z.of_nat nobs))
  else NaN.

Definition rolling_mean (window min_periods : nat) (center : bool)
    (xs : list fval) : list fval :=
  let offset := if center then (window - 1) / 2 else 0 in
  let ys := prep_values xs in
  map (rolling_at window min_periods offset ys) (seq 0 (List.length xs)).

(** [x.bfill()]: a NaN takes the next value that is not NaN. *)
Fixpoint bfill (xs : list fval) : list fval :=
  match xs with
  | [] => []
  | x :: rest =>
      let rest' := bfill rest in
      (if isnan x then hd x rest' else x) :: rest'
  end.

(** [x.ffill()]: a NaN takes the last value before it that is not NaN. *)
Fixpoint ffill_from (prev : fval) (xs : list fval) : list fval :=
  match xs with
  | [] => []
  | x :: rest =>
      let x' := if isnan x then prev else x in
      x' :: ffill_from x' rest
  end.

Definition ffill (xs : list fval) : list fval := ffill_from NaN xs.

(** [x.fillna(other)] with [other] on the same index. *)
Fixpoint fillna (xs other : list fval) : list fval :=
  match xs, other with
  | x :: xs', o :: other' => (if isnan x then o else x) :: fillna xs' other'
  | _, _ => xs
  end.

(** [x.fillna(c)] with a scalar. *)
Definition fillna_scalar (c : fval) (xs : list fval) : list fval :=
  map (fun v => if isnan v then c else v) xs.

(** Values of a linear ramp strictly between [a] and [b], [gap] of them:
    what [np.interp] gives at the [gap] equally spaced missing rows. *)
Definition ramp (a b : fval) (gap : nat) : list fval :=
  let slope := fdiv (fsub b a) (fz (Z.of_nat (gap + 1))) in
  map (fun j => fadd (fmul slope (fz (Z.of_nat j))) a) (seq 1 gap).

(** [x.interpolate()] (linear, forward): NaN runs between two observations
    are ramped, a trailing run repeats the last observation, a leading run
    stays NaN.  [prev] is the last observation seen and [gap] the number of
    NaN met since. *)
Fixpoint interpolate_from (prev : option fval) (gap : nat) (xs : list fval)
    : list fval :=
  match xs with
  | [] =>
      match prev with
      | Some a => repeat a gap
      | None => repeat NaN gap
      end
  | x :: rest =>
      if isnan x then interpolate_from prev (S gap) rest
      else
        match prev with
        | Some a => ramp a x gap
        | None => repeat NaN gap
        end ++ x :: interpolate_from (Some x) 0 rest
  end.

Definition interpolate (xs : list fval) : list fval :=
  interpolate_from None 0 xs.

(** The rows of [s] labelled [l]. *)
Definition loc (l : label) (s : Series) : list fval :=
  values (filter (fun p => label_eqb (fst p) l) s).

(** [s[l]] read as a scalar: the label must be there, and once. *)
Definition getitem (s : Series) (l : label) : result fval :=
  match loc l s with
  | [] => Raise KeyError
  | [v] => Ok v
  | _ => Raise ValueError
  end.

(** [target[col] = source]: a Series is aligned on the target's index
    (labels the source lacks give NaN), an array must have its length. *)
Definition align (target : list label) (source : data) : result (list fval) :=
  match source with
  | DSeries s => Ok (map (fun l => hd NaN (loc l s)) target)
  | DArray a =>
      if Nat.eqb (List.length a) (List.length target) then Ok a
      else Raise ValueError
  end.

(** [s.index = idx] *)
Definition set_index (idx : list label) (s : Series) : result Series :=
  if Nat.eqb (List.length idx) (List.length s) then Ok (combine idx (values s))
  else Raise ValueError.

(** *** moving_average *)

(** The smoothed series before balancing: centred rolling mean, NaN at the
    two ends filled backwards then forwards, negatives set to 0. *)
Definition moving_average_smoothed (self : StreamflowCleaner)
    (xs : list fval) : list fval :=
  let smoothed := rolling_mean (window_size self) (window_size self) true xs in
  let smoothed := bfill smoothed in
  let smoothed := ffill smoothed in
  clamp smoothed.

Definition moving_average (self : StreamflowCleaner) (streamflow_data : data)
    : result data :=
  match streamflow_data with
  | DArray _ => Raise AttributeError
  | DSeries s =>
      let smoothed_data :=
        with_values streamflow_data (moving_average_smoothed self (values s)) in
      Ok (data_balanced streamflow_data smoothed_data)
  end.

(** *** kalman_filter *)

(** One predict/update round on the 1x1 system [A = H = 1],
    [Q = R = 0.01]; the state is the pair of the estimate and its variance. *)
Definition kalman_step (st : fval * fval) (measurement : fval)
    : fval * fval :=
  let A := fz 1 in
  let H := fz 1 in
  let Q := Fin (Q2Qc (1 # 100)) in
  let R := Fin (Q2Qc (1 # 100)) in
  let '(X_estimated, P_estimated) := st in
  let X_predicted := fmul A X_estimated in
  let P_predicted := fadd (fmul (fmul A P_estimated) A) Q in
  let measurement_residual := fsub measurement (fmul H X_predicted) in
  let S := fadd (fmul (fmul H P_predicted) H) R in
  let K := fmul (fmul P_predicted H) (fdiv (fz 1) S) in
  (fadd X_predicted (fmul K measurement_residual),
   fsub P_predicted (fmul (fmul K H) P_predicted)).

Fixpoint kalman_loop (st : fval * fval) (measurements : list fval)
    : list fval :=
  match measurements with
  | [] => []
  | m :: rest =>
      let st' := kalman_step st m in
      fst st' :: kalman_loop st' rest
  end.

(** [streamflow_data[0]]: label 0 of a Series, first cell of an array. *)
Definition first_item (d : data) : result fval :=
  match d with
  | DSeries s => getitem s (Row 0)
  | DArray [] => Raise IndexError
  | DArray (v :: _) => Ok v
  end.

Definition kalman_estimated (x0 : fval) (xs : list fval) : list fval :=
  clamp (kalman_loop (x0, Fin (Q2Qc (1 # 100))) xs).

Definition kalman_filter (streamflow_data : data) : result data :=
  x0 <- first_item streamflow_data ;;
  let estimated_states := kalman_estimated x0 (dvalues streamflow_data) in
  Ok (data_balanced streamflow_data (DArray estimated_states)).

(** *** rolling_with_stride and adjust_window *)

Definition adjust_window (window : list fval) : fval :=
  if Nat.eqb (List.length (dropna window)) 0 then NaN
  else mean window.

(** [range(0, stop, step)] for a positive step. *)
Definition range0 (stop step : nat) : list nat :=
  map (fun k => k * step) (seq 0 ((stop + step - 1) / step)).

(** [results.iloc[i] = v] *)
Definition iloc_set (xs : list fval) (i : nat) (v : fval)
    : result (list fval) :=
  if i <? List.length xs then Ok (firstn i xs ++ v :: skipn (S i) xs)
  else Raise IndexError.

Fixpoint stride_loop (self : StreamflowCleaner) (func : list fval -> fval)
    (df results : list fval) (starts : list nat) : result (list fval) :=
  match starts with
  | [] => Ok results
  | i :: rest =>
      let window := slice i (i + window_size self) df in
      let result := func window in
      let center_index := i + window_size self / 2 in
      results' <- iloc_set results center_index result ;;
      stride_loop self func df results' rest
  end.

Definition rolling_with_stride (self : StreamflowCleaner) (df : data)
    (func : list fval -> fval) : result Series :=
  match df with
  | DArray _ => Raise AttributeError
  | DSeries s =>
      let results := repeat NaN (List.length s) in
      if Nat.eqb (stride self) 0 then Raise ValueError
      else
        results <- stride_loop self func (values s) results
                     (range0 (List.length s + 1 - window_size self)
                             (stride self)) ;;
        Ok (combine (index s) results)
  end.

(** *** moving_average_difference *)

Definition moving_average_diff_signal (self : StreamflowCleaner)
    (xs : list fval) : list fval :=
  let forward_ma := rolling_mean (window_size self) 1 false xs in
  let backward_ma := rev (rolling_mean (window_size self) 1 false (rev xs)) in
  let ma_difference :=
    map (fun p => fabs (fsub (fst p) (snd p))) (combine forward_ma backward_ma) in
  clamp ma_difference.

Definition moving_average_difference (self : StreamflowCleaner)
    (streamflow_data : data) : result data :=
  if window_size self <? 1 then Raise ValueError
  else
    Ok (data_balanced streamflow_data
          (DArray (moving_average_diff_signal self (dvalues streamflow_data)))).

(** *** adaptive_moving_average *)

(** [date + pd.DateOffset(hours=h)] *)
Definition add_hours (date : label) (h : Z) : result label :=
  match date with
  | Time t => Ok (Time (t + 3600 * h))
  | Row _ => Raise TypeError
  end.

(** The timestamps of a [DatetimeIndex]; [None] when a label is not a
    timestamp. *)
Fixpoint timestamps (idx : list label) : option (list Z) :=
  match idx with
  | [] => Some []
  | Time t :: rest => option_map (cons t) (timestamps rest)
  | Row _ :: _ => None
  end.

(** [index.is_monotonic_increasing] and [index.is_monotonic_decreasing]:
    equal neighbours allowed. *)
Fixpoint is_monotonic_increasing (ts : list Z) : bool :=
  match ts with
  | a :: rest =>
      match rest with
      | b :: _ => (a <=? b)%Z && is_monotonic_increasing rest
      | [] => true
      end
  | [] => true
  end.

Fixpoint is_monotonic_decreasing (ts : list Z) : bool :=
  match ts with
  | a :: rest =>
      match rest with
      | b :: _ => (b <=? a)%Z && is_monotonic_decreasing rest
      | [] => true
      end
  | [] => true
  end.

(** The positions at which the index holds the label [t], counted from
    [i]: what [index.get_loc(t)] finds. *)
Fixpoint locations (t : Z) (ts : list Z) (i : nat) : list nat :=
  match ts with
  | [] => []
  | x :: rest =>
      if (x =? t)%Z then i :: locations t rest (S i)
      else locations t rest (S i)
  end.

Inductive side := side_left | side_right.

Definition count (p : Z -> bool) (ts : list Z) : nat :=
  List.length (filter p ts).

(** [np.searchsorted(ts, t, side)] on timestamps in increasing order. *)
Definition searchsorted (ts : list Z) (t : Z) (sd : side) : nat :=
  match sd with
  | side_left => count (fun x => (x <? t)%Z) ts
  | side_right => count (fun x => (x <=? t)%Z) ts
  end.

(** [Index._searchsorted_monotonic]: a decreasing index is searched
    reversed; on an index in no order the [ValueError] makes
    [get_slice_bound] raise the [KeyError] of the failed lookup. *)
Definition searchsorted_monotonic (ts : list Z) (t : Z) (sd : side)
    : result nat :=
  if is_monotonic_increasing ts then Ok (searchsorted ts t sd)
  else if is_monotonic_decreasing ts then
    let pos := searchsorted (rev ts) t
                 match sd with
                 | side_left => side_right
                 | side_right => side_left
                 end in
    Ok (List.length ts - pos)
  else Raise KeyError.

(** [Index.get_slice_bound(t, side)]: the label is looked up first; found at
    one position or at a run of positions it gives the start of the run
    (left) or the position after its end (right), found at positions that
    are not a run it raises [KeyError]; a label that is not in the index is
    searched by order. *)
Definition get_slice_bound (ts : list Z) (t : Z) (sd : side) : result nat :=
  match locations t ts 0 with
  | [] => searchsorted_monotonic ts t sd
  | first :: rest =>
      let final := last rest first in
      if S (final - first) =? List.length (first :: rest) then
        Ok match sd with
           | side_left => first
           | side_right => S final
           end
      else Raise KeyError
  end.

(** [s[start:stop]].  Between two timestamps pandas turns each bound into a
    position with [get_slice_bound] and takes the rows between the two
    positions: on an index in increasing order these are the rows whose
    time lies in the closed interval, on an index in no order they are the
    rows between the places of the two labels, and a bound that is not a
    label raises [KeyError].  Between two integers the positions from
    [start] up to [stop], [stop] left out. *)
Definition slice_labels (s : Series) (start stop : label)
    : result (list fval) :=
  match start, stop with
  | Time a, Time b =>
      match timestamps (index s) with
      | None => Raise TypeError
      | Some ts =>
          start_slice <- get_slice_bound ts a side_left ;;
          end_slice <- get_slice_bound ts b side_right ;;
          Ok (slice start_slice end_slice (values s))
      end
  | Row a, Row b => Ok (slice a b (values s))
  | _, _ => Raise TypeError
  end.

(** The window width after the row of value [current_value]. *)
Definition next_window (threshold : fval) (min_window max_window
    decay_factor : Z) (current_window : Z) (current_value : fval)
    : result Z :=
  if fgeb current_value threshold then
    if (decay_factor =? 0)%Z then Raise ZeroDivisionError
    else Ok (Z.max min_window (current_window / decay_factor))
  else Ok (Z.min max_window (current_window * decay_factor)).

(** The loop body over the remaining dates [todo], [i] being the position
    of the first of them and [current_window] the width left by the rows
    before. *)
Fixpoint adaptive_loop (s : Series) (threshold : fval)
    (min_window max_window decay_factor : Z)
    (todo : list label) (i : nat) (current_window : Z)
    : result (list fval) :=
  match todo with
  | [] => Ok []
  | date :: rest =>
      current_value <- getitem s date ;;
      current_window <- next_window threshold min_window max_window
                          decay_factor current_window current_value ;;
      let half_window := (current_window / 2)%Z in
      start_date <-
        (if (Z.of_nat i <? half_window)%Z then Ok (hd date (index s))
         else add_hours date (- half_window)) ;;
      end_date <-
        (if (Z.of_nat i + half_window >=? Z.of_nat (List.length s))%Z
         then Ok (last (index s) date)
         else add_hours date half_window) ;;
      window_data <- slice_labels s start_date end_date ;;
      let smoothed_value := mean window_data in
      out <- adaptive_loop s threshold min_window max_window decay_factor
               rest (S i) current_window ;;
      Ok (smoothed_value :: out)
  end.

Definition adaptive_moving_average (streamflow_data : data)
    (threshold : fval) (initial_window min_window max_window
    decay_factor : Z) : result Series :=
  match streamflow_data with
  | DArray _ => Raise ValueError
  | DSeries s =>
      out <- adaptive_loop s threshold min_window max_window decay_factor
               (index s) 0 initial_window ;;
      Ok (combine (index s) out)
  end.

(** *** EMA *)

(** The frame read from the CSV file, reduced to the two columns the
    cleaner uses: [TM] (after [pd.to_datetime]) and [INQ] (after
    [pd.to_numeric]), one pair per row. *)
Definition origin_df := list (Z * fval).

Definition TM (origin : origin_df) : list Z := map fst origin.
Definition INQ (origin : origin_df) : list fval := map snd origin.

(** [df[~df.index.duplicated(keep="last")]] *)
Fixpoint drop_duplicated (s : Series) : Series :=
  match s with
  | [] => []
  | p :: rest =>
      if existsb (fun q => label_eqb (fst q) (fst p)) rest
      then drop_duplicated rest
      else p :: drop_duplicated rest
  end.

(** Calendar month (1 to 12) of a timestamp in seconds since 1970-01-01,
    proleptic Gregorian calendar: [DatetimeIndex.month]. *)
Definition month (t : Z) : Z :=
  let z := (t / 86400 + 719468)%Z in
  let era := (z / 146097)%Z in
  let doe := (z - era * 146097)%Z in
  let yoe := ((doe - doe / 1460 + doe / 36524 - doe / 146096) / 365)%Z in
  let doy := (doe - (365 * yoe + yoe / 4 - yoe / 100))%Z in
  let mp := ((5 * doy + 2) / 153)%Z in
  if (mp <? 10)%Z then (mp + 3)%Z else (mp - 9)%Z.

Definition label_month (l : label) : Z :=
  match l with
  | Time t => month t
  | Row _ => 0%Z
  end.

Definition flood_season (l : label) : bool :=
  existsb (Z.eqb (label_month l)) [5; 6; 7; 8; 9; 10]%Z.

Fixpoint np_where (cond : list bool) (xs ys : list fval) : list fval :=
  match cond, xs, ys with
  | c :: cond', x :: xs', y :: ys' =>
      (if c then x else y) :: np_where cond' xs' ys'
  | _, _, _ => []
  end.

Definition EMA (origin : origin_df) (streamflow_data : data) : result data :=
  INQQ <- align (RangeIndex (List.length origin)) streamflow_data ;;
  let df := combine (map Time (TM origin)) INQQ in
  let df := drop_duplicated df in
  INQA <- adaptive_moving_average (DSeries df) (fz 40) 168 24 168 2 ;;
  INQB <- adaptive_moving_average (DSeries df) (fz 40) 168 168 720 2 ;;
  let INQC :=
    np_where (map flood_season (index df)) (values INQA) (values INQB) in
  Ok (data_balanced streamflow_data (DSeries (combine (index df) INQC))).

(** *** The methods that run SciPy *)

Definition complex : Type := fval * fval.

Class SciPy := {
  (** [np.sqrt] *)
  np_sqrt : fval -> fval;
  (** [curve_fit(quadratic_function, xdata, ydata)]: the fitted [a, b, c] *)
  curve_fit : list fval -> list fval -> result (fval * fval * fval);
  (** [butter(order, Wn, btype="low", analog=False)]: [(b, a)] *)
  butter : nat -> fval -> result (list fval * list fval);
  (** [filtfilt(b, a, signal)] *)
  filtfilt : list fval -> list fval -> list fval -> result (list fval);
  fft : list fval -> result (list complex);
  ifft : list complex -> result (list complex);
  (** [cwt(data, morlet, widths)]: one row per width *)
  cwt : list fval -> list Z -> result (list (list complex))
}.

Section SciPyMethods.

Context {scipy : SciPy}.

Definition quadratic_function (x a b c : fval) : fval :=
  fadd (fadd (fmul a (fmul x x)) (fmul b x)) c.

Definition map2 (f : fval -> fval -> fval) (xs ys : list fval) : list fval :=
  map (fun p => f (fst p) (snd p)) (combine xs ys).

(** One pass of the reweighting loop of [robust_fitting]: the weights for
    the current [sigma] and the [sigma] they give. *)
Definition reweight (k : fval) (residuals : data) (m : nat) (sigma : fval)
    : list fval * fval :=
  let weights :=
    map (fun r =>
           if fleb (fabs r) (fmul k sigma) then fz 1
           else fdiv (fmul k sigma) (fabs r)) (dvalues residuals) in
  let weighted :=
    with_values residuals
      (map2 fmul weights (map (fun r => fmul r r) (dvalues residuals))) in
  (weights, np_sqrt (fdiv (np_sum weighted) (fz (Z.of_nat m - 1)))).

Definition robust_fitting (streamflow_data : data) (k : fval)
    : result data :=
  let ys := dvalues streamflow_data in
  let time_steps := map (fun i => fz (Z.of_nat i)) (seq 0 (List.length ys)) in
  params <- curve_fit time_steps ys ;;
  let '(a, b, c) := params in
  let smoothed_streamflow :=
    map (fun x => quadratic_function x a b c) time_steps in
  let residuals :=
    with_values streamflow_data (map2 fsub ys smoothed_streamflow) in
  let m := List.length ys in
  let sigma :=
    np_sqrt (fdiv (np_sum (dmap (fun r => fmul r r) residuals))
                  (fz (Z.of_nat m - 1))) in
  let '(weights, _) :=
    Nat.iter 10 (fun st => reweight k residuals m (snd st)) ([], sigma) in
  let corrected_streamflow :=
    map2 fadd (map2 fmul weights ys)
              (map2 fmul (map (fun w => fsub (fz 1) w) weights)
                         smoothed_streamflow) in
  Ok (data_balanced streamflow_data
        (with_values streamflow_data (clamp corrected_streamflow))).

Definition lowpass_filter (self : StreamflowCleaner) (streamflow_data : data)
    : result data :=
  let nyquist_frequency := fmul (Fin (Q2Qc (1 # 2))) (sampling_rate self) in
  if feqb nyquist_frequency (fz 0) then Raise ZeroDivisionError
  else
    let normalized_cutoff := fdiv (cutoff_frequency self) nyquist_frequency in
    ba <- butter (order self) normalized_cutoff ;;
    low_pass_filtered_signal <-
      filtfilt (fst ba) (snd ba) (dvalues streamflow_data) ;;
    Ok (data_balanced streamflow_data
          (DArray (clamp low_pass_filtered_signal))).

(** [fftfreq(n, d)] *)
Definition fftfreq (n : nat) (d : fval) : result (list fval) :=
  let nd := fmul (fz (Z.of_nat n)) d in
  if feqb nd (fz 0) then Raise ZeroDivisionError
  else
    let val := fdiv (fz 1) nd in
    Ok (map (fun k =>
               let j := if k <=? (n - 1) / 2 then Z.of_nat k
                        else (Z.of_nat k - Z.of_nat n)%Z in
               fmul (fz j) val) (seq 0 n)).

(** One pass of the loop of [FFT]. *)
Definition FFT_pass (self : StreamflowCleaner) (streamflow_data : data)
    (current_signal : list fval) : result (list fval) :=
  let n := List.length current_signal in
  yf <- fft current_signal ;;
  xf <- fftfreq n (time_step self) ;;
  let yf :=
    map (fun p : fval * complex =>
           if fgtb (fabs (fst p)) (cutoff_frequency self)
           then (fz 0, fz 0) else snd p) (combine xf yf) in
  back <- ifft yf ;;
  let filtered_signal := clamp (map fst back) in
  Ok (dvalues (data_balanced streamflow_data (DArray filtered_signal))).

Fixpoint FFT_loop (self : StreamflowCleaner) (streamflow_data : data)
    (passes : nat) (current_signal : list fval) : result (list fval) :=
  match passes with
  | O => Ok current_signal
  | S passes' =>
      next <- FFT_pass self streamflow_data current_signal ;;
      FFT_loop self streamflow_data passes' next
  end.

Definition FFT (self : StreamflowCleaner) (streamflow_data : data)
    : result data :=
  match streamflow_data with
  | DArray _ => Raise AttributeError
  | DSeries s =>
      out <- FFT_loop self streamflow_data (iterations self) (values s) ;;
      Ok (DArray out)
  end.

Definition np_abs (z : complex) : fval :=
  np_sqrt (fadd (fmul (fst z) (fst z)) (fmul (snd z) (snd z))).

Definition wavelet (self : StreamflowCleaner) (streamflow_data : data)
    : result data :=
  match streamflow_data with
  | DArray _ => Raise AttributeError
  | DSeries s =>
      let streamflow_data_array := values s in
      first <- match streamflow_data_array with
               | [] => Raise IndexError
               | v :: _ => Ok v
               end ;;
      let extended_data :=
        repeat first 24 ++ streamflow_data_array
          ++ repeat (last streamflow_data_array first) 24 in
      let widths := map Z.of_nat (seq 1 30) in
      extended_cwt <- cwt extended_data widths ;;
      let scaled_cwtmatr := map (map np_abs) extended_cwt in
      cwt_row_extended <-
        match nth_error scaled_cwtmatr (cwt_row self) with
        | Some row => Ok row
        | None => Raise IndexError
        end ;;
      let adjusted_cwt_row :=
        slice 24 (List.length cwt_row_extended - 24) cwt_row_extended in
      Ok (data_balanced streamflow_data (DArray (clamp adjusted_cwt_row)))
  end.

(** *** anomaly_process *)

(** The branch of the loop of [anomaly_process] for the name ["rolling_mean"]. *)
Definition rolling_mean_branch (self : StreamflowCleaner)
    (origin : origin_df) (streamflow_data : data) : result data :=
  r <- rolling_with_stride self streamflow_data adjust_window ;;
  r <- set_index (RangeIndex (List.length origin)) r ;;
  Ok (DSeries (combine (index r) (fillna (values r) (INQ origin)))).

(** The branch for the name ["EMA"]. *)
Definition EMA_branch (origin : origin_df) (streamflow_data : data)
    : result data :=
  r <- EMA origin streamflow_data ;;
  match r with
  | DSeries s =>
      s' <- set_index (RangeIndex (List.length origin)) s ;;
      Ok (DSeries s')
  | DArray _ => Raise AttributeError
  end.

Definition apply_method (self : StreamflowCleaner) (origin : origin_df)
    (method : string) (streamflow_data : data) : result data :=
  if String.eqb method "moving_average" then
    moving_average self streamflow_data
  else if String.eqb method "kalman" then
    kalman_filter streamflow_data
  else if String.eqb method "moving_average_diff" then
    moving_average_difference self streamflow_data
  else if String.eqb method "robfit" then
    robust_fitting streamflow_data (Fin (Q2Qc (3 # 2)))
  else if String.eqb method "lowpass" then
    lowpass_filter self streamflow_data
  else if String.eqb method "FFT" then
    FFT self streamflow_data
  else if String.eqb method "wavelet" then
    wavelet self streamflow_data
  else if String.eqb method "rolling_mean" then
    rolling_mean_branch self origin streamflow_data
  else if String.eqb method "EMA" then
    EMA_branch origin streamflow_data
  else Ok streamflow_data.

Fixpoint run_methods (self : StreamflowCleaner) (origin : origin_df)
    (methods : list string) (streamflow_data : data) : result data :=
  match methods with
  | [] => Ok streamflow_data
  | method :: rest =>
      next <- apply_method self origin method streamflow_data ;;
      run_methods self origin rest next
  end.

(** [x[mask] = np.nan] *)
Definition set_nan_where (mask : list bool) (xs : list fval) : list fval :=
  map (fun p : bool * fval => if fst p then NaN else snd p) (combine mask xs).

(** [anomaly_process]: the result is the column added to [processed_df],
    with its name.  The last statement, [processed_df[name][mask] = nan],
    is taken to write through to the frame, as it does in pandas without
    copy-on-write. *)
Definition anomaly_process (self : StreamflowCleaner) (origin : origin_df)
    (methods : list string) : result (string * list fval) :=
  let n := List.length origin in
  let streamflow_data :=
    DSeries (combine (RangeIndex n)
               (fillna_scalar (fz 0) (interpolate (INQ origin)))) in
  streamflow_data <- run_methods self origin methods streamflow_data ;;
  name <- match methods with
          | [] => Raise IndexError
          | first :: _ => Ok first
          end ;;
  column <- align (RangeIndex n) streamflow_data ;;
  Ok (name, set_nan_where (map isnan (INQ origin)) column).

End SciPyMethods.

(** ** StreamflowBacktrack *)

Record StreamflowBacktrack := {
  data_folder : string;
  output_folder : string;
  file_name : option string
}.

(** [StreamflowBacktrack.__init__(data_folder, output_folder, file_name)] *)
Definition StreamflowBacktrack_init (data_folder output_folder : string)
    (file_name : option string) : StreamflowBacktrack :=
  {| data_folder := data_folder;
     output_folder := data_folder;
     file_name := file_name |}.

Definition slash : ascii := "/"%char.

Definition startswith_slash (s : string) : bool :=
  match s with
  | String c _ => Ascii.eqb c slash
  | EmptyString => false
  end.

Fixpoint endswith_slash (s : string) : bool :=
  match s with
  | EmptyString => false
  | String c EmptyString => Ascii.eqb c slash
  | String _ rest => endswith_slash rest
  end.

(** [os.path.join(a, b)] on POSIX *)
Definition path_join (a b : string) : string :=
  if startswith_slash b then b
  else if (String.length a =? 0) || endswith_slash a then (a ++ b)%string
  else (a ++ "/" ++ b)%string.

(** [file[:-4]] *)
Definition stem (file : string) : string :=
  substring 0 (String.length file - 4) file.

(** [file.endswith(".csv")] *)
Definition endswith_csv (file : string) : bool :=
  String.eqb (substring (String.length file - 4) 4 file) ".csv".

(** The path each stage writes its result to and returns. *)
Definition clean_W_path (output_folder : string) : string :=
  path_join output_folder "去除库容异常的数据.csv".

Definition clean_W_audit_path (output_folder : string) : string :=
  path_join output_folder "库容异常的数据行.csv".

Definition back_calculation_path (file output_folder : string) : string :=
  path_join output_folder (stem file ++ "_径流直接反推数据.csv")%string.

Definition delete_nan_inq_path (file output_folder : string) : string :=
  path_join output_folder (stem file ++ "_水量平衡后的日尺度反推数据.csv")%string.

Definition insert_inq_path (file output_folder : string) : string :=
  path_join output_folder file.

(** The second copy [insert_inq] writes, in a fixed folder. *)
Definition insert_inq_copy_path (file : string) : string :=
  path_join "/home/liutianxv1/水库流量数据小时插值并保持水量平衡版本" file.

(** What [process_backtrack] does for one entry of the data folder: the
    paths returned by the four stages, in order, and every file written. *)
Record stage_files := {
  cleaned_data : string;
  back_data : string;
  nonan_data : string;
  insert_data : string;
  written : list string
}.

Definition process_file (self : StreamflowBacktrack) (file : string)
    : option stage_files :=
  if endswith_csv file then
    let out := path_join (output_folder self) (stem file) in
    Some {| cleaned_data := clean_W_path out;
            back_data := back_calculation_path file out;
            nonan_data := delete_nan_inq_path file out;
            insert_data := insert_inq_path file out;
            written := [clean_W_audit_path out; clean_W_path out;
                        back_calculation_path file out;
                        delete_nan_inq_path file out;
                        insert_inq_path file out;
                        insert_inq_copy_path file] |}
  else None.

(** [process_backtrack], [listdir] being the entries of the data folder. *)
Definition process_backtrack (self : StreamflowBacktrack)
    (listdir : list string) : list stage_files :=
  flat_map (fun file => match process_file self file with
                        | Some fs => [fs]
                        | None => []
                        end) listdir.

(** *** back_calculation *)

(** A row of the reservoir file, reduced to the columns the stage computes
    with; the others are copied. *)
Record BasinRecord := {
  rTM : Z;
  rINQ : fval;
  rW : fval;
  rOTQ : fval
}.

(** [x.diff()] *)
Definition diff (xs : list fval) : list fval :=
  match xs with
  | [] => []
  | _ :: rest => NaN :: map (fun p => fsub (fst p) (snd p)) (combine rest xs)
  end.

(** [TM.diff().dt.total_seconds().fillna(0)] *)
Definition Time_Diff (tm : list Z) : list fval :=
  match tm with
  | [] => []
  | _ :: rest =>
      fz 0 :: map (fun p => fz (fst p - snd p)) (combine rest tm)
  end.

Definition INQ_ACC (rows : list BasinRecord) : list fval :=
  let dW := diff (map rW rows) in
  let dt := Time_Diff (map rTM rows) in
  map (fun p : fval * (fval * fval) =>
         fadd (fst p) (fmul (fz (10 ^ 6))
                         (fdiv (fst (snd p)) (snd (snd p)))))
      (combine (map rOTQ rows) (combine dW dt)).

(** The rows [back_calculation] writes: [INQ] replaced by [INQ_CB]. *)
Definition back_calculation (rows : list BasinRecord) : list BasinRecord :=
  let INQ_CB := fillna (map rINQ rows) (INQ_ACC rows) in
  map (fun p : BasinRecord * fval =>
         {| rTM := rTM (fst p); rINQ := snd p;
            rW := rW (fst p); rOTQ := rOTQ (fst p) |})
      (combine rows INQ_CB).

(** *** insert_inq: linear_interpolate *)

(** [data.iloc[start:stop] = new] *)
Definition set_slice (start stop : nat) (new data : list fval) : list fval :=
  firstn start data ++ new ++ skipn stop data.

(** The body of the loop, on the pair of [data] and [start_index]. *)
Definition linear_interpolate_step (threshold : Z)
    (st : list fval * option nat) (i : nat) : list fval * option nat :=
  let '(data, start_index) := st in
  if negb (isnan (nth i data NaN)) then
    match start_index with
    | None => (data, Some i)
    | Some s =>
        let data :=
          if (Z.of_nat i - Z.of_nat s - 1 <? threshold)%Z
          then set_slice s (i + 1) (interpolate (slice s (i + 1) data)) data
          else data in
        (data, Some i)
    end
  else st.

Definition linear_interpolate (column : list fval) (threshold : Z)
    : list fval :=
  fst (fold_left (linear_interpolate_step threshold)
         (seq 0 (List.length column)) (column, None)).

(** [x.clip(lower=0)] *)
Definition clip_lower0 (xs : list fval) : list fval :=
  map (fun v => if fltb v (fz 0) then fz 0 else v) xs.

(** The [INQ] column [insert_inq] writes, from the column on the hourly
    grid. *)
Definition insert_inq (column : list fval) : list fval :=
  clip_lower0 (linear_interpolate column 168).

(** ** A back end without SciPy

    Square roots truncated to nine decimals, and SciPy routines that all
    raise: enough to run the chains made of the pandas and NumPy methods
    ([moving_average], [kalman], [moving_average_diff], [rolling_mean],
    [EMA]). *)

Definition sqrt_trunc (v : fval) : fval :=
  match v with
  | Fin q =>
      let num := Qnum (this q) in
      let den := Z.pos (Qden (this q)) in
      if (num <? 0)%Z then NaN
      else Fin (Q2Qc (Qmake (Z.sqrt (num * den * 10 ^ 18))
                            (Z.to_pos (den * 10 ^ 9))))
  | PInf => PInf
  | NInf | NaN => NaN
  end.

#[export] Instance offline : SciPy := {
  np_sqrt := sqrt_trunc;
  curve_fit := fun _ _ => Raise RuntimeError;
  butter := fun _ _ => Raise RuntimeError;
  filtfilt := fun _ _ _ => Raise RuntimeError;
  fft := fun _ => Raise RuntimeError;
  ifft := fun _ => Raise RuntimeError;
  cwt := fun _ _ => Raise RuntimeError
}.

(** The constructor defaults of [StreamflowCleaner], with the window and
    the stride given. *)
Definition cleaner (window stride : nat) : StreamflowCleaner :=
  {| window_size := window;
     stride := stride;
     cutoff_frequency := Fin (Q2Qc (35 # 1000));
     time_step := fz 1;
     iterations := 3;
     sampling_rate := fz 1;
     order := 5;
     cwt_row := 8 |}.

Definition default_cleaner : StreamflowCleaner := cleaner 24 1.

(** A frame with one row per hour from time 0 and the given [INQ]. *)
Definition hourly (inq : list fval) : origin_df :=
  combine (map (fun i => (3600 * Z.of_nat i)%Z) (seq 0 (List.length inq))) inq.

(** ** Predicates of the statements *)

Definition finite (xs : list fval) : Prop :=
  Forall (fun v => isfinite v = true) xs.

(** What SciPy documents about the shape of its results. *)
Record SciPyShape (scipy : SciPy) : Prop := {
  filtfilt_length : forall b a signal out,
    filtfilt b a signal = Ok out -> List.length out = List.length signal;
  fft_length : forall x y, fft x = Ok y -> List.length y = List.length x;
  ifft_length : forall x y, ifft x = Ok y -> List.length y = List.length x;
  cwt_length : forall x widths rows,
    cwt x widths = Ok rows ->
    Forall (fun row : list complex => List.length row = List.length x) rows
}.

(** [d] lies on the rows of the frame: a Series on the frame's index, or an
    array with one cell per row. *)
Definition on_frame (origin : origin_df) (d : data) : Prop :=
  match d with
  | DSeries s => index s = RangeIndex (List.length origin)
  | DArray a => List.length a = List.length origin
  end.

(** The methods that finish with [data_balanced]. *)
Definition balanced_methods : list string :=
  ["moving_average"; "kalman"; "moving_average_diff"; "robfit"; "lowpass";
   "FFT"; "wavelet"; "EMA"]%string.

(** The sum of a list of rationals. *)
Fixpoint qsum (qs : list Qc) : Qc :=
  match qs with
  | [] => Q2Qc 0
  | q :: rest => (q + qsum rest)%Qc
  end.

(** Equality tests on series and results, NaN equal to NaN. *)
Fixpoint same_series (s1 s2 : Series) : bool :=
  match s1, s2 with
  | [], [] => true
  | (l1, v1) :: r1, (l2, v2) :: r2 =>
      label_eqb l1 l2 && same v1 v2 && same_series r1 r2
  | _, _ => false
  end.

Definition same_data (d1 d2 : data) : bool :=
  match d1, d2 with
  | DSeries s1, DSeries s2 => same_series s1 s2
  | DArray a1, DArray a2 => same_list a1 a2
  | _, _ => false
  end.

Definition same_result (r1 r2 : result data) : bool :=
  match r1, r2 with
  | Ok d1, Ok d2 => same_data d1 d2
  | _, _ => false
  end.

Definition same_column (r1 r2 : result (string * list fval)) : bool :=
  match r1, r2 with
  | Ok (n1, c1), Ok (n2, c2) => String.eqb n1 n2 && same_list c1 c2
  | _, _ => false
  end.

(** The outcome the specification asks of VolumeBalancer, in its words:
    the transformed series scaled by sum(original) / sum(transformed), and
    a DegenerateSeriesError when sum(transformed) is zero. *)
Inductive balancer_outcome :=
| Balanced (d : data)
| DegenerateSeriesError.

Definition VolumeBalancer_spec (original transformed : data)
    : balancer_outcome :=
  if feqb (np_sum transformed) (fz 0) then DegenerateSeriesError
  else Balanced (dmap (fun v =>
                   fmul v (fdiv (np_sum original) (np_sum transformed)))
                 transformed).

(** [d] is a Series on the frame's index, or an array. *)
Definition indexed (origin : origin_df) (d : data) : Prop :=
  match d with
  | DSeries s => index s = RangeIndex (List.length origin)
  | DArray _ => True
  end.

(** [y] has the kind and the index of [x], and as many values. *)
Definition reshaped (x y : data) : Prop :=
  exists vs,
    y = with_values x vs /\ List.length vs = List.length (dvalues x).

(** A Series indexed by timestamps, from its (time, value) rows: what [EMA]
    hands to [adaptive_moving_average]. *)
Definition time_series (rows : list (Z * fval)) : Series :=
  map (fun p => (Time (fst p), snd p)) rows.

(** The values of the rows whose time lies between [lo] and [hi]. *)
Definition time_window (rows : list (Z * fval)) (lo hi : Z) : list fval :=
  map snd (filter (fun p => (lo <=? fst p)%Z && (fst p <=? hi)%Z) rows).

(** Timestamps in increasing order with none repeated: each is below all
    that come after it. *)
Fixpoint ascending (ts : list Z) : Prop :=
  match ts with
  | [] => True
  | a :: rest => Forall (fun x => (a < x)%Z) rest /\ ascending rest
  end.

(** The width [next_window] returns when the decay factor is not zero. *)
Definition window_update (threshold : fval) (min_window max_window
    decay_factor : Z) (current_window : Z) (current_value : fval) : Z :=
  if fgeb current_value threshold
  then Z.max min_window (current_window / decay_factor)
  else Z.min max_window (current_window * decay_factor).

(** The width in force at row [i]: the initial width updated by the values
    of the rows 0 to [i], in order. *)
Definition window_at (threshold : fval) (min_window max_window
    decay_factor initial_window : Z) (vals : list fval) (i : nat) : Z :=
  fold_left (window_update threshold min_window max_window decay_factor)
    (firstn (S i) vals) initial_window.

(** The rule of the specification for AdaptiveWindowAggregator, in its
    words: halved (not below the floor) when the value exceeds the
    threshold, doubled (not above the ceiling) otherwise. *)
Definition window_rule_spec (threshold : fval) (min_window max_window : Z)
    (current_window : Z) (current_value : fval) : Z :=
  if fgtb current_value threshold
  then Z.max min_window (current_window / 2)
  else Z.min max_window (current_window * 2).

(** ** The other stages of StreamflowBacktrack *)

(** *** clean_W *)

(** [x.shift(1)] *)
Definition shift_down (xs : list fval) : list fval :=
  match xs with
  | [] => []
  | _ :: _ => NaN :: removelast xs
  end.

(** [x.shift(-1)] *)
Definition shift_up (xs : list fval) : list fval :=
  match xs with
  | [] => []
  | _ :: rest => rest ++ [NaN]
  end.

(** The column [set_nan] of [clean_W]: the rows whose [W] differs by more
    than 200 from the row before or the row after. *)
Definition set_nan (W : list fval) : list bool :=
  let diff_prev := map2 (fun w p => fabs (fsub w p)) W (shift_down W) in
  let diff_next := map2 (fun w n => fabs (fsub w n)) W (shift_up W) in
  map (fun p : fval * fval =>
         fgtb (fst p) (fz 200) || fgtb (snd p) (fz 200))
      (combine diff_prev diff_next).

(** The column [W] that [clean_W] writes. *)
Definition clean_W (W : list fval) : list fval :=
  set_nan_where (set_nan W) W.

(** The test [clean_W] applies to a value and a neighbour:
    [abs(w - neighbour) > 200]. *)
Definition far (w neighbour : fval) : bool :=
  fgtb (fabs (fsub w neighbour)) (fz 200).

(** *** delete_nan_inq

    The frame is taken with distinct timestamps, so that the label access
    [df.loc[df.index[window_indices], column]] reads and writes the rows at
    the positions [window_indices]. *)

Module DeleteNanInq.

(** [window[mask] = new]: the rows selected by the mask take the values of
    [new], in order. *)
Fixpoint assign_where (mask : fval -> bool) (window new : list fval)
    : list fval :=
  match window with
  | [] => []
  | v :: rest =>
      if mask v then
        match new with
        | a :: new' => a :: assign_where mask rest new'
        | [] => v :: assign_where mask rest []
        end
      else v :: assign_where mask rest new
  end.

Definition adjust_window (window : list fval) : list fval :=
  if Nat.eqb (List.length (dropna window)) 0 then window
  else
    let positive_values := filter (fun v => fgtb v (fz 0)) window in
    let negative_values := filter (fun v => fltb v (fz 0)) window in
    let pos_sum := fsum (dropna positive_values) in
    let neg_sum := fabs (fsum (dropna negative_values)) in
    let adjusted_values :=
      if fgtb pos_sum (fz 0) then
        let adjust_factor := fdiv neg_sum pos_sum in
        map (fun p => fsub p (fmul p adjust_factor)) positive_values
      else positive_values in
    let window :=
      assign_where (fun v => fgtb v (fz 0)) window adjusted_values in
    map (fun v => if fleb v (fz 0) then fz 0 else v) window.

Definition rolling_with_stride (column : list fval)
    (window_size stride : nat) (func : list fval -> list fval)
    : result (list fval) :=
  if Nat.eqb stride 0 then Raise ValueError
  else
    Ok (fold_left
          (fun df i =>
             set_slice i (i + window_size)
               (func (slice i (i + window_size) df)) df)
          (range0 (List.length column + 1 - window_size) stride)
          column).

End DeleteNanInq.

(** The [INQ] column [delete_nan_inq] writes. *)
Definition delete_nan_inq (column : list fval) : result (list fval) :=
  DeleteNanInq.rolling_with_stride column 7 4 DeleteNanInq.adjust_window.

(** The value [adjust_window] gives a finite value [q] of a window whose
    values are all finite, [c] being the adjustment factor (0 when the
    window has no positive value). *)
Definition adjusted (c q : Qc) : Qc :=
  let q' := if qltb (Q2Qc 0) q then (q + - (q * c))%Qc else q in
  if qltb q' (Q2Qc 0) || qeqb q' (Q2Qc 0) then Q2Qc 0 else q'.

Definition positives (qs : list Qc) : list Qc :=
  filter (fun q => qltb (Q2Qc 0) q) qs.

Definition negatives (qs : list Qc) : list Qc :=
  filter (fun q => qltb q (Q2Qc 0)) qs.

(** The columns reached from [column] when the rows below [bound] have
    been through a window: same length, no negative value below [bound],
    the rows from [bound] on as in [column]. *)
Definition passed (column : list fval) (bound : nat) (df : list fval)
    : Prop :=
  List.length df = List.length column /\
  (forall j, j < bound -> fltb (nth j df NaN) (fz 0) = false) /\
  (forall j, bound <= j -> nth j df NaN = nth j column NaN).

(** What the loop of [linear_interpolate] keeps true of its state before
    the row [i], [column] being the column it started from: the length; the
    observed values; the rows before the first observation and after the
    last one met; an earlier observation as start index; and everything
    when the threshold is not positive. *)
Definition interpolating (column : list fval) (threshold : Z) (i : nat)
    (st : list fval * option nat) : Prop :=
  let '(data, start_index) := st in
  List.length data = List.length column /\
  (forall j, isnan (nth j column NaN) = false ->
     nth j data NaN = nth j column NaN) /\
  (forall s, start_index = Some s ->
     s < i /\ isnan (nth s column NaN) = false) /\
  (forall j, (forall k, k <= j -> isnan (nth k column NaN) = true) ->
     nth j data NaN = nth j column NaN) /\
  (forall j, (forall k, j <= k -> k < i -> isnan (nth k column NaN) = true) ->
     nth j data NaN = nth j column NaN) /\
  ((threshold <= 0)%Z -> data = column).

(** ** Predicates on the method loop *)

(** A value that is not below zero (NaN counts, as every comparison with
    NaN is false). *)
Definition nonneg (v : fval) : Prop := fltb v (fz 0) = false.

(** The methods that set the negative values of their smoothed series to 0
    before they balance it. *)
Definition clamping_methods : list string :=
  ["moving_average"; "kalman"; "moving_average_diff"; "robfit"; "lowpass";
   "FFT"; "wavelet"]%string.

(** The names the loop of [anomaly_process] knows. *)
Definition known_methods : list string :=
  ["moving_average"; "kalman"; "moving_average_diff"; "robfit"; "lowpass";
   "FFT"; "wavelet"; "rolling_mean"; "EMA"]%string.

(** The methods that return a NumPy array whatever they are given. *)
Definition array_methods : list string :=
  ["kalman"; "moving_average_diff"; "lowpass"; "FFT"; "wavelet"]%string.

(** The branches that return a pandas Series whatever they complete on. *)
Definition series_valued_methods : list string :=
  ["moving_average"; "rolling_mean"; "EMA"]%string.

(** The branches that use their input as a pandas Series ([.rolling],
    [.to_numpy], [.index]). *)
Definition series_methods : list string :=
  ["moving_average"; "FFT"; "wavelet"; "rolling_mean"]%string.

(** * Properties *)

(** ** Arithmetic of the float model *)

Lemma qeqb_eq (a b : Qc) : qeqb a b = true <-> a = b.
Proof.
  unfold qeqb. rewrite Qceq_alt.
  destruct (a ?= b)%Qc; split; congruence.
Qed.

Lemma qeqb_refl (a : Qc) : qeqb a a = true.
Proof. now apply qeqb_eq. Qed.

Lemma qeqb_neq (a b : Qc) : qeqb a b = false <-> a <> b.
Proof.
  rewrite <- qeqb_eq. destruct (qeqb a b); split; congruence.
Qed.

Lemma same_eq (a b : fval) : same a b = true -> a = b.
Proof.
  destruct a, b; simpl; try discriminate; try reflexivity.
  intros H. apply qeqb_eq in H. now subst.
Qed.

Lemma same_list_eq (xs ys : list fval) : same_list xs ys = true -> xs = ys.
Proof.
  revert ys. induction xs as [|x xs IH]; intros [|y ys]; simpl;
    try discriminate; try reflexivity.
  intros H. apply andb_true_iff in H as [H1 H2].
  apply same_eq in H1. apply IH in H2. now subst.
Qed.

Lemma isfinite_Fin (v : fval) : isfinite v = true -> exists q, v = Fin q.
Proof. destruct v; try discriminate. intros _. now eexists. Qed.

Lemma inf_of_not_finite (c : comparison) : isfinite (inf_of c) = false.
Proof. now destruct c. Qed.

(** A finite product has two finite factors. *)
Lemma fmul_finite (a b : fval) :
  isfinite (fmul a b) = true -> isfinite a = true /\ isfinite b = true.
Proof.
  destruct a, b; simpl; try discriminate; try (split; reflexivity);
    now rewrite inf_of_not_finite.
Qed.

(** Dividing by zero never gives a finite value. *)
Lemma fdiv_by_zero (a : fval) : isfinite (fdiv a (fz 0)) = false.
Proof.
  assert (E : qeqb (qz 0) (Q2Qc 0) = true) by (apply qeqb_eq; reflexivity).
  destruct a; try reflexivity.
  unfold fdiv, fz. rewrite E. apply inf_of_not_finite.
Qed.

(** ** Sums of finite series *)

Lemma finite_map_Fin (xs : list fval) :
  finite xs -> exists qs, xs = map Fin qs.
Proof.
  induction 1 as [|v xs Hv _ [qs ->]].
  - now exists [].
  - apply isfinite_Fin in Hv as [q ->]. now exists (q :: qs).
Qed.

Lemma finite_of_map_Fin (qs : list Qc) : finite (map Fin qs).
Proof. induction qs; constructor; auto. Qed.

Lemma fsum_map_Fin (qs : list Qc) : fsum (map Fin qs) = Fin (qsum qs).
Proof.
  induction qs as [|q qs IH]; [reflexivity|].
  unfold fsum in *. simpl. now rewrite IH.
Qed.

Lemma dropna_finite (xs : list fval) : finite xs -> dropna xs = xs.
Proof.
  induction 1 as [|v xs Hv _ IH]; [reflexivity|].
  simpl. destruct v; try discriminate. simpl. now rewrite IH.
Qed.

Lemma qsum_scaled (c : Qc) (qs : list Qc) :
  qsum (map (fun q => (q * c)%Qc) qs) = (qsum qs * c)%Qc.
Proof.
  induction qs as [|q qs IH]; simpl; [ring | rewrite IH; ring].
Qed.

Lemma values_dmap (f : fval -> fval) (d : data) :
  dvalues (dmap f d) = map f (dvalues d).
Proof.
  destruct d as [s|a]; simpl; [|reflexivity].
  unfold values. rewrite !map_map. reflexivity.
Qed.

Lemma np_sum_finite (d : data) :
  finite (dvalues d) -> np_sum d = fsum (dvalues d).
Proof.
  destruct d as [s|a]; simpl; intros H; [|reflexivity].
  now rewrite dropna_finite.
Qed.

Lemma values_data_balanced (o t : data) :
  dvalues (data_balanced o t) =
  map (fun v => fmul v (fdiv (np_sum o) (np_sum t))) (dvalues t).
Proof. unfold data_balanced. apply values_dmap. Qed.

(** Balancing against a finite series of non-zero sum restores the sum. *)
Lemma balance_exact (o t : data) :
  finite (dvalues o) -> finite (dvalues t) -> np_sum t <> fz 0 ->
  finite (dvalues (data_balanced o t)) /\
  np_sum (data_balanced o t) = np_sum o.
Proof.
  intros Ho Ht Hnz.
  assert (Hv := values_data_balanced o t).
  rewrite (np_sum_finite o Ho), (np_sum_finite t Ht) in Hv.
  rewrite (np_sum_finite t Ht) in Hnz.
  destruct (finite_map_Fin Ho) as [qo Eo].
  destruct (finite_map_Fin Ht) as [qt Et].
  rewrite Eo, Et, !fsum_map_Fin in Hv.
  rewrite Et, fsum_map_Fin in Hnz.
  assert (Hq : qsum qt <> Q2Qc 0).
  { intros E. apply Hnz. unfold fz, qz. now rewrite E. }
  simpl in Hv. apply qeqb_neq in Hq as Hb. rewrite Hb in Hv.
  rewrite map_map in Hv. simpl in Hv.
  assert (Hfin : dvalues (data_balanced o t) =
                 map Fin (map (fun q => (q * (qsum qo / qsum qt))%Qc) qt)).
  { rewrite Hv, map_map. reflexivity. }
  assert (F : finite (dvalues (data_balanced o t))).
  { rewrite Hfin. apply finite_of_map_Fin. }
  split; [exact F|].
  rewrite (np_sum_finite _ F), Hfin, fsum_map_Fin, qsum_scaled.
  rewrite (np_sum_finite o Ho), Eo, fsum_map_Fin.
  f_equal. field. exact Hq.
Qed.

(** A balanced series that is finite and not empty has the sum of the
    original: the scale factor was finite, so the divisor was not zero. *)
Lemma balance_finite_output (o t : data) :
  finite (dvalues o) ->
  finite (dvalues (data_balanced o t)) ->
  dvalues t <> [] ->
  np_sum (data_balanced o t) = np_sum o.
Proof.
  intros Ho Hout Hne.
  rewrite values_data_balanced in Hout.
  set (sc := fdiv (np_sum o) (np_sum t)) in *.
  assert (Ht : finite (dvalues t)).
  { unfold finite in *. rewrite Forall_map in Hout.
    eapply Forall_impl; [|exact Hout].
    intros v Hv. now apply fmul_finite in Hv. }
  assert (Hsc : isfinite sc = true).
  { destruct (dvalues t) as [|v vs]; [congruence|].
    inversion Hout as [|? ? Hv _]; subst.
    now apply fmul_finite in Hv. }
  apply balance_exact; try assumption.
  intros Hz. unfold sc in Hsc. rewrite Hz, fdiv_by_zero in Hsc.
  discriminate.
Qed.

(** ** Comparing computed series *)

Lemma label_eqb_eq (a b : label) : label_eqb a b = true <-> a = b.
Proof.
  destruct a, b; simpl; try (split; discriminate).
  - rewrite Nat.eqb_eq. split; congruence.
  - rewrite Z.eqb_eq. split; congruence.
Qed.

Lemma same_series_eq (s1 s2 : Series) : same_series s1 s2 = true -> s1 = s2.
Proof.
  revert s2. induction s1 as [|[l1 v1] r1 IH]; intros [|[l2 v2] r2]; simpl;
    try discriminate; try reflexivity.
  intros H. apply andb_true_iff in H as [H H3].
  apply andb_true_iff in H as [H1 H2].
  apply label_eqb_eq in H1. apply same_eq in H2. apply IH in H3.
  now subst.
Qed.

Lemma same_data_eq (d1 d2 : data) : same_data d1 d2 = true -> d1 = d2.
Proof.
  destruct d1, d2; simpl; try discriminate; intros H.
  - f_equal. now apply same_series_eq.
  - f_equal. now apply same_list_eq.
Qed.

Lemma same_result_eq (r1 r2 : result data) :
  same_result r1 r2 = true -> r1 = r2.
Proof.
  destruct r1, r2; simpl; try discriminate.
  intros H. f_equal. now apply same_data_eq.
Qed.

Lemma same_column_eq (r1 r2 : result (string * list fval)) :
  same_column r1 r2 = true -> r1 = r2.
Proof.
  destruct r1 as [[n1 c1]|], r2 as [[n2 c2]|]; simpl; try discriminate.
  intros H. apply andb_true_iff in H as [H1 H2].
  apply String.eqb_eq in H1. apply same_list_eq in H2. now subst.
Qed.

(** Decide an equation between computed series by evaluation. *)
Ltac by_evaluation :=
  first [ apply same_result_eq | apply same_column_eq | apply same_data_eq
        | apply same_series_eq | apply same_list_eq | apply same_eq ];
  vm_compute; reflexivity.

Lemma same_refl (a : fval) : same a a = true.
Proof. destruct a; simpl; try reflexivity. apply qeqb_refl. Qed.

Lemma same_neq (a b : fval) : same a b = false -> a <> b.
Proof. intros H E. subst. rewrite same_refl in H. discriminate. Qed.

(** Refute an equation between two computed values by evaluation. *)
Ltac by_inequality := apply same_neq; vm_compute; reflexivity.

Lemma same_list_refl (xs : list fval) : same_list xs xs = true.
Proof.
  induction xs as [|x xs IH]; simpl; [reflexivity|].
  now rewrite same_refl, IH.
Qed.

Lemma same_list_neq (xs ys : list fval) : same_list xs ys = false -> xs <> ys.
Proof. intros H E. subst. rewrite same_list_refl in H. discriminate. Qed.

(** ** Results *)

Lemma Ok_inj {A} (a b : A) : Ok a = Ok b -> a = b.
Proof. congruence. Qed.

Lemma bind_Ok {A B} (m : result A) (k : A -> result B) (b : B) :
  bind m k = Ok b -> exists a, m = Ok a /\ k a = Ok b.
Proof. destruct m; simpl; [eauto | discriminate]. Qed.

(** ** VolumeBalancer on a zero sum *)

Lemma fmul_not_finite_r (a b : fval) :
  isfinite b = false -> isfinite (fmul a b) = false.
Proof.
  intros Hb. destruct (isfinite (fmul a b)) eqn:E; [|reflexivity].
  apply fmul_finite in E as [_ E]. congruence.
Qed.

(** C3 (as the code has it): when the transformed series sums to zero,
    [data_balanced] raises nothing; it returns the transformed series
    multiplied by an infinite or NaN factor, so every value of the result is
    infinite or NaN. *)
Theorem data_balanced_zero_sum (origin_data transform_data : data) :
  np_sum transform_data = fz 0 ->
  dvalues (data_balanced origin_data transform_data) =
    map (fun v => fmul v (fdiv (np_sum origin_data) (fz 0)))
        (dvalues transform_data) /\
  isfinite (fdiv (np_sum origin_data) (fz 0)) = false /\
  Forall (fun v => isfinite v = false)
         (dvalues (data_balanced origin_data transform_data)).
Proof.
  intros Hz. rewrite values_data_balanced, Hz.
  split; [reflexivity|]. split; [apply fdiv_by_zero|].
  apply Forall_map, Forall_forall. intros v _.
  apply fmul_not_finite_r, fdiv_by_zero.
Qed.

Lemma data_balanced_zero_sum_witness :
  np_sum (DSeries [(Row 0, fz 0); (Row 1, fz 0)]) = fz 0 /\
  Forall (fun v => isfinite v = false)
    (dvalues (data_balanced (DSeries [(Row 0, fz 1); (Row 1, fz 2)])
                            (DSeries [(Row 0, fz 0); (Row 1, fz 0)]))).
Proof.
  assert (H : np_sum (DSeries [(Row 0, fz 0); (Row 1, fz 0)]) = fz 0)
    by by_evaluation.
  split; [exact H|].
  apply (data_balanced_zero_sum (DSeries [(Row 0, fz 1); (Row 1, fz 2)])
           (DSeries [(Row 0, fz 0); (Row 1, fz 0)]) H).
Defined.

(** C3, counterexample: on the original [3, 0] and the transformed [0, 0]
    the specification asks for a DegenerateSeriesError, and the code returns
    the series [NaN, NaN]. *)
Lemma data_balanced_no_error :
  np_sum (DArray [fz 0; fz 0]) = fz 0 /\
  VolumeBalancer_spec (DArray [fz 3; fz 0]) (DArray [fz 0; fz 0])
    = DegenerateSeriesError /\
  data_balanced (DArray [fz 3; fz 0]) (DArray [fz 0; fz 0])
    = DArray [NaN; NaN] /\
  Balanced (data_balanced (DArray [fz 3; fz 0]) (DArray [fz 0; fz 0]))
    <> VolumeBalancer_spec (DArray [fz 3; fz 0]) (DArray [fz 0; fz 0]).
Proof.
  assert (E : data_balanced (DArray [fz 3; fz 0]) (DArray [fz 0; fz 0])
              = DArray [NaN; NaN]) by by_evaluation.
  split; [by_evaluation|].
  split; [vm_compute; reflexivity|].
  split; [exact E|].
  rewrite E. vm_compute. discriminate.
Qed.

(** ** Volume conservation *)

Lemma values_combine (idx : list label) (vs : list fval) :
  List.length idx = List.length vs -> values (combine idx vs) = vs.
Proof.
  revert vs. induction idx as [|l idx IH]; intros [|v vs]; simpl;
    try discriminate; try reflexivity.
  intros H. injection H as H. unfold values in *. simpl. now rewrite IH.
Qed.

Lemma index_combine (idx : list label) (vs : list fval) :
  List.length idx = List.length vs -> index (combine idx vs) = idx.
Proof.
  revert vs. induction idx as [|l idx IH]; intros [|v vs]; simpl;
    try discriminate; try reflexivity.
  intros H. injection H as H. unfold index in *. simpl. now rewrite IH.
Qed.

Lemma set_index_Ok (idx : list label) (s s' : Series) :
  set_index idx s = Ok s' ->
  List.length idx = List.length s /\ s' = combine idx (values s).
Proof.
  unfold set_index. destruct (Nat.eqb_spec (List.length idx) (List.length s));
    [|discriminate].
  intros H. injection H as <-. now split.
Qed.

Lemma length_values (s : Series) : List.length (values s) = List.length s.
Proof. apply length_map. Qed.

Lemma length_index (s : Series) : List.length (index s) = List.length s.
Proof. apply length_map. Qed.

(** A finite, non-empty series that is some series balanced against [x]
    has the sum of [x]. *)
Lemma sum_preserved (x y t : data) :
  dvalues y = dvalues (data_balanced x t) ->
  finite (dvalues x) -> finite (dvalues y) -> dvalues y <> [] ->
  np_sum y = np_sum x.
Proof.
  intros E Hx Hy Hne.
  rewrite (np_sum_finite y Hy), E.
  rewrite E in Hy, Hne.
  rewrite <- (np_sum_finite _ Hy).
  apply balance_finite_output; try assumption.
  intros Ht. apply Hne. rewrite values_data_balanced, Ht. reflexivity.
Qed.

Section Conservation.

Context {scipy : SciPy}.
Variable self : StreamflowCleaner.
Variable origin : origin_df.

Lemma FFT_loop_balanced (x : data) (passes : nat) :
  forall current out,
    FFT_loop self x passes current = Ok out ->
    out = current \/ exists t, out = dvalues (data_balanced x t).
Proof.
  induction passes as [|n IH]; simpl; intros current out H.
  - left. congruence.
  - apply bind_Ok in H as (next & Hpass & Hloop).
    destruct (IH _ _ Hloop) as [->|Ht]; [|right; exact Ht].
    right. unfold FFT_pass in Hpass.
    apply bind_Ok in Hpass as (yf & _ & Hpass).
    apply bind_Ok in Hpass as (xf & _ & Hpass).
    apply bind_Ok in Hpass as (back & _ & Hpass).
    apply Ok_inj in Hpass as <-. eexists. reflexivity.
Qed.

(** Each method that finishes with [data_balanced] returns the values of a
    series balanced against its input ([FFT] run with no iteration returns
    its input). *)
Lemma balanced_method_shape (method : string) (x y : data) :
  In method balanced_methods ->
  apply_method self origin method x = Ok y ->
  dvalues y = dvalues x \/
  exists t, dvalues y = dvalues (data_balanced x t).
Proof.
  intros Hin H. unfold balanced_methods in Hin. simpl in Hin.
  destruct Hin as [<-|[<-|[<-|[<-|[<-|[<-|[<-|[<-|[]]]]]]]]];
    unfold apply_method in H; simpl in H.
  - (* moving_average *)
    unfold moving_average in H. destruct x as [s|a]; [|discriminate].
    apply Ok_inj in H as <-. right. eauto.
  - (* kalman *)
    unfold kalman_filter in H. apply bind_Ok in H as (x0 & _ & H).
    apply Ok_inj in H as <-. right. eauto.
  - (* moving_average_diff *)
    unfold moving_average_difference in H.
    destruct (window_size self <? 1); [discriminate|].
    apply Ok_inj in H as <-. right. eauto.
  - (* robfit *)
    unfold robust_fitting in H. apply bind_Ok in H as ([[a b] c] & _ & H).
    destruct (Nat.iter _ _ _) as [weights sg]. apply Ok_inj in H as <-.
    right. eauto.
  - (* lowpass *)
    unfold lowpass_filter in H. destruct (feqb _ _); [discriminate|].
    apply bind_Ok in H as (ba & _ & H).
    apply bind_Ok in H as (sig & _ & H).
    apply Ok_inj in H as <-. right. eauto.
  - (* FFT *)
    unfold FFT in H. destruct x as [s|a]; [|discriminate].
    apply bind_Ok in H as (out & Hloop & H). apply Ok_inj in H as <-.
    apply FFT_loop_balanced in Hloop as [->|Ht]; [left|right]; auto.
  - (* wavelet *)
    unfold wavelet in H. destruct x as [s|a]; [|discriminate].
    apply bind_Ok in H as (first & _ & H).
    apply bind_Ok in H as (ext & _ & H).
    apply bind_Ok in H as (row & _ & H).
    apply Ok_inj in H as <-. right. eauto.
  - (* EMA *)
    unfold EMA_branch in H. apply bind_Ok in H as (r & Hr & H).
    destruct r as [s|a]; [|discriminate].
    apply bind_Ok in H as (s' & Hs' & H). apply Ok_inj in H as <-.
    apply set_index_Ok in Hs' as [Hlen ->].
    right. unfold EMA in Hr.
    apply bind_Ok in Hr as (inqq & _ & Hr).
    apply bind_Ok in Hr as (inqa & _ & Hr).
    apply bind_Ok in Hr as (inqb & _ & Hr).
    apply Ok_inj in Hr. eexists. simpl.
    rewrite values_combine by (now rewrite length_values).
    change (values s) with (dvalues (DSeries s)). rewrite <- Hr.
    reflexivity.
Qed.

End Conservation.

(** C1 (as the code has it): on finite series, [data_balanced] returns the
    transformed series times sum(original) / sum(transformed), and when
    sum(transformed) is not zero the result has the sum of the original
    (in exact arithmetic); consequently each method that finishes with it
    (all of the library but rolling_mean) returns, for a finite input, a
    series with the sum of the input whenever that result is finite and not
    empty. *)
Theorem volume_conservation {scipy : SciPy} (self : StreamflowCleaner)
    (origin : origin_df) (x : data) :
  finite (dvalues x) ->
  (forall t, finite (dvalues t) -> np_sum t <> fz 0 ->
     data_balanced x t
       = dmap (fun v => fmul v (fdiv (np_sum x) (np_sum t))) t /\
     np_sum (data_balanced x t) = np_sum x) /\
  (forall method y,
     In method balanced_methods ->
     apply_method self origin method x = Ok y ->
     finite (dvalues y) -> dvalues y <> [] ->
     np_sum y = np_sum x).
Proof.
  intros Hx. split.
  - intros t Ht Hnz. split; [reflexivity|].
    now apply balance_exact.
  - intros method y Hin Happ Hy Hne.
    destruct (@balanced_method_shape scipy self origin method x y Hin Happ)
      as [E|[t E]].
    + rewrite (np_sum_finite y Hy), (np_sum_finite x Hx). now rewrite E.
    + now apply (sum_preserved x y t).
Qed.

Lemma volume_conservation_witness :
  np_sum (data_balanced
            (DSeries (combine (RangeIndex 3) [fz 10; fz 20; fz 30]))
            (DArray [fz 1; fz 2; fz 1]))
    = np_sum (DSeries (combine (RangeIndex 3) [fz 10; fz 20; fz 30])) /\
  np_sum (DSeries (combine (RangeIndex 3) [fz 20; fz 20; fz 20]))
    = np_sum (DSeries (combine (RangeIndex 3) [fz 10; fz 20; fz 30])).
Proof.
  destruct (volume_conservation (scipy := offline) (cleaner 3 1)
              (hourly [fz 10; fz 20; fz 30])
              (DSeries (combine (RangeIndex 3) [fz 10; fz 20; fz 30])))
    as [A B].
  { repeat constructor. }
  split.
  - apply (A (DArray [fz 1; fz 2; fz 1])).
    + repeat constructor.
    + by_inequality.
  - apply (B "moving_average"%string).
    + simpl. auto.
    + by_evaluation.
    + repeat constructor.
    + discriminate.
Defined.

(** C1, counterexamples.  With the default window of 24, moving_average on
    the two-row series [5, 7] (sum 12) smooths to all NaN, whose sum is 0,
    and returns [NaN, NaN]; rolling_mean with window 2 and stride 1 turns
    [1, 3] (sum 4) into [1, 2] (sum 3) and is not rebalanced. *)
Lemma volume_not_conserved :
  (np_sum (DSeries (combine (RangeIndex 2) [fz 5; fz 7])) = fz 12 /\
   apply_method (scipy := offline) default_cleaner (hourly [fz 5; fz 7])
     "moving_average" (DSeries (combine (RangeIndex 2) [fz 5; fz 7]))
     = Ok (DSeries (combine (RangeIndex 2) [NaN; NaN])) /\
   np_sum (DSeries (combine (RangeIndex 2) [NaN; NaN])) = fz 0 /\
   fz 0 <> fz 12) /\
  (np_sum (DSeries (combine (RangeIndex 2) [fz 1; fz 3])) = fz 4 /\
   apply_method (scipy := offline) (cleaner 2 1) (hourly [fz 1; fz 3])
     "rolling_mean" (DSeries (combine (RangeIndex 2) [fz 1; fz 3]))
     = Ok (DSeries (combine (RangeIndex 2) [fz 1; fz 2])) /\
   np_sum (DSeries (combine (RangeIndex 2) [fz 1; fz 2])) = fz 3 /\
   fz 3 <> fz 4).
Proof.
  split; (split; [by_evaluation|]); (split; [by_evaluation|]);
    (split; [by_evaluation | by_inequality]).
Qed.

(** ** The worked example of moving_average *)

(** C8 (as the code has it): on [10, 20, NaN, 40, 50] with window 3 the
    interpolated series is [10, 20, 30, 40, 50]; the centred rolling mean is
    [NaN, 20, 30, 40, NaN] and becomes [20, 20, 30, 40, 40] once the ends
    are filled; its sum is already 150, so balancing leaves it as it is; the
    column stored under the name moving_average is [20, 20, NaN, 40, 40]. *)
Theorem moving_average_example {scipy : SciPy} :
  fillna_scalar (fz 0) (interpolate [fz 10; fz 20; NaN; fz 40; fz 50])
    = [fz 10; fz 20; fz 30; fz 40; fz 50] /\
  rolling_mean 3 3 true [fz 10; fz 20; fz 30; fz 40; fz 50]
    = [NaN; fz 20; fz 30; fz 40; NaN] /\
  moving_average_smoothed (cleaner 3 1) [fz 10; fz 20; fz 30; fz 40; fz 50]
    = [fz 20; fz 20; fz 30; fz 40; fz 40] /\
  fsum [fz 20; fz 20; fz 30; fz 40; fz 40] = fz 150 /\
  moving_average (cleaner 3 1)
      (DSeries (combine (RangeIndex 5) [fz 10; fz 20; fz 30; fz 40; fz 50]))
    = Ok (DSeries (combine (RangeIndex 5)
                     [fz 20; fz 20; fz 30; fz 40; fz 40])) /\
  anomaly_process (cleaner 3 1)
      (hourly [fz 10; fz 20; NaN; fz 40; fz 50]) ["moving_average"%string]
    = Ok ("moving_average"%string, [fz 20; fz 20; NaN; fz 40; fz 40]).
Proof.
  repeat split; by_evaluation.
Qed.

(** C8, counterexample: the boundary-filled rolling mean of the example is
    not [15, 20, 30, 40, 45]. *)
Lemma moving_average_example_boundary :
  moving_average_smoothed (cleaner 3 1)
    (fillna_scalar (fz 0) (interpolate [fz 10; fz 20; NaN; fz 40; fz 50]))
  <> [fz 15; fz 20; fz 30; fz 40; fz 45].
Proof. apply same_list_neq. vm_compute. reflexivity. Qed.

(** ** back_calculation *)

Lemma nth_error_combine {A B} (xs : list A) (ys : list B) (i : nat) :
  nth_error (combine xs ys) i =
  match nth_error xs i, nth_error ys i with
  | Some x, Some y => Some (x, y)
  | _, _ => None
  end.
Proof.
  revert ys i. induction xs as [|x xs IH]; intros ys i.
  - destruct i; reflexivity.
  - destruct ys as [|y ys], i as [|i]; simpl; try reflexivity.
    + now destruct (nth_error xs i).
    + apply IH.
Qed.

Lemma nth_error_fillna (xs other : list fval) (i : nat) (x o : fval) :
  nth_error xs i = Some x -> nth_error other i = Some o ->
  nth_error (fillna xs other) i = Some (if isnan x then o else x).
Proof.
  revert other i. induction xs as [|x' xs IH]; intros [|o' other] [|i];
    simpl; intros H1 H2; try discriminate.
  - injection H1 as ->. injection H2 as ->. reflexivity.
  - now apply IH.
Qed.

Lemma length_fillna (xs other : list fval) :
  List.length (fillna xs other) = List.length xs.
Proof.
  revert other. induction xs as [|x xs IH]; intros [|o other]; simpl;
    try reflexivity.
  now rewrite IH.
Qed.

(** C9: for two consecutive rows [a], [b] (at positions [i], [i + 1]) the
    time difference of [b] is its time minus that of [a], in seconds, and
    the derived inflow of [b] is OTQ + 10^6 * (W(b) - W(a)) / time
    difference; the time difference of the first row is 0; and the INQ a
    row is written with is its own INQ when that is present, the derived
    inflow when it is NaN. *)
Theorem back_calculation_balance (rows : list BasinRecord) (i : nat)
    (a b : BasinRecord) :
  nth_error rows i = Some a ->
  nth_error rows (S i) = Some b ->
  nth_error (Time_Diff (map rTM rows)) 0 = Some (fz 0) /\
  nth_error (Time_Diff (map rTM rows)) (S i) = Some (fz (rTM b - rTM a)) /\
  nth_error (INQ_ACC rows) (S i) =
    Some (fadd (rOTQ b)
            (fmul (fz (10 ^ 6))
               (fdiv (fsub (rW b) (rW a)) (fz (rTM b - rTM a))))) /\
  (forall j r,
     nth_error rows j = Some r ->
     exists acc,
       nth_error (INQ_ACC rows) j = Some acc /\
       option_map rINQ (nth_error (back_calculation rows) j) =
         Some (if isnan (rINQ r) then acc else rINQ r)).
Proof.
  intros Ha Hb.
  assert (HdW : nth_error (diff (map rW rows)) (S i)
                = Some (fsub (rW b) (rW a))).
  { destruct rows as [|r0 rest]; [destruct i; discriminate|].
    simpl in Hb. simpl diff. simpl nth_error.
    rewrite nth_error_map, nth_error_combine, !nth_error_map.
    change (rW r0 :: map rW rest) with (map rW (r0 :: rest)).
    rewrite nth_error_map, Ha, Hb. reflexivity. }
  assert (Hdt : nth_error (Time_Diff (map rTM rows)) (S i)
                = Some (fz (rTM b - rTM a))).
  { destruct rows as [|r0 rest]; [destruct i; discriminate|].
    simpl in Hb. simpl Time_Diff. simpl nth_error.
    rewrite nth_error_map, nth_error_combine, !nth_error_map.
    change (rTM r0 :: map rTM rest) with (map rTM (r0 :: rest)).
    rewrite nth_error_map, Ha, Hb. reflexivity. }
  split; [|split; [exact Hdt|split]].
  - destruct rows as [|r0 rest]; [destruct i; discriminate|]. reflexivity.
  - unfold INQ_ACC.
    rewrite nth_error_map, !nth_error_combine, nth_error_map, Hb, HdW, Hdt.
    reflexivity.
  - intros j r Hj.
    assert (Hlen : forall xs : list BasinRecord,
               List.length (INQ_ACC xs) = List.length xs).
    { intros xs. unfold INQ_ACC.
      rewrite length_map, !length_combine, !length_map.
      destruct xs as [|x xs]; [reflexivity|]. simpl.
      rewrite !length_map, !length_combine, !length_map. simpl.
      rewrite !length_map. lia. }
    destruct (nth_error (INQ_ACC rows) j) as [acc|] eqn:Hacc.
    2:{ apply nth_error_None in Hacc. rewrite Hlen in Hacc.
        apply nth_error_None in Hacc. congruence. }
    exists acc. split; [reflexivity|].
    unfold back_calculation.
    rewrite nth_error_map, nth_error_combine, Hj.
    rewrite (nth_error_fillna (map rINQ rows) (INQ_ACC rows) j
               (x := rINQ r) (o := acc)); [reflexivity| |exact Hacc].
    now rewrite nth_error_map, Hj.
Qed.

Lemma back_calculation_balance_witness :
  nth_error
    (INQ_ACC [ {| rTM := 0; rINQ := NaN; rW := fz 100; rOTQ := fz 5 |};
               {| rTM := 3600; rINQ := NaN; rW := fz 136; rOTQ := fz 7 |} ]) 1
  = Some (fadd (fz 7)
            (fmul (fz (10 ^ 6))
               (fdiv (fsub (fz 136) (fz 100)) (fz (3600 - 0))))).
Proof.
  apply (back_calculation_balance
           [ {| rTM := 0; rINQ := NaN; rW := fz 100; rOTQ := fz 5 |};
             {| rTM := 3600; rINQ := NaN; rW := fz 136; rOTQ := fz 7 |} ]
           0 (a := {| rTM := 0; rINQ := NaN; rW := fz 100; rOTQ := fz 5 |})
           (b := {| rTM := 3600; rINQ := NaN; rW := fz 136; rOTQ := fz 7 |}));
    reflexivity.
Defined.

(** ** The folders of StreamflowBacktrack *)

Lemma prefix_append (a b : string) : String.prefix a (a ++ b) = true.
Proof.
  induction a as [|c a IH]; simpl.
  - now destruct b.
  - destruct (ascii_dec c c); [exact IH | congruence].
Qed.

Lemma string_append_assoc (a b c : string) :
  ((a ++ b) ++ c = a ++ (b ++ c))%string.
Proof. induction a as [|x a IH]; simpl; [reflexivity | now rewrite IH]. Qed.

Lemma path_join_append (a b : string) :
  startswith_slash b = false -> exists x, path_join a b = (a ++ x)%string.
Proof.
  intros H. unfold path_join. rewrite H.
  destruct (_ || _); eauto.
Qed.

Lemma startswith_slash_substring (n : nat) (s : string) :
  startswith_slash s = false -> startswith_slash (substring 0 n s) = false.
Proof. destruct s, n; simpl; auto. Qed.

Lemma startswith_slash_append (a b : string) :
  startswith_slash a = false -> startswith_slash b = false ->
  startswith_slash (a ++ b) = false.
Proof. destruct a; simpl; auto. Qed.

(** A file joined to a subfolder joined to [folder] lies under [folder]. *)
Lemma under_folder (folder sub leaf : string) :
  startswith_slash sub = false -> startswith_slash leaf = false ->
  String.prefix folder (path_join (path_join folder sub) leaf) = true.
Proof.
  intros Hs Hl.
  destruct (path_join_append folder sub Hs) as [x ->].
  destruct (path_join_append (folder ++ x) leaf Hl) as [y ->].
  rewrite string_append_assoc. apply prefix_append.
Qed.

(** C10: the constructor stores its [data_folder] argument as the output
    folder, whatever [output_folder] it is given; so for an entry [file] of
    the data folder the four stages write their results in the subfolder of
    the data folder named after the file, and the same files are written
    for any other [output_folder] argument. *)
Theorem output_folder_is_data_folder (data_dir out_dir : string)
    (name : option string) (file : string) (fs : stage_files) :
  startswith_slash file = false ->
  process_file (StreamflowBacktrack_init data_dir out_dir name) file
    = Some fs ->
  output_folder (StreamflowBacktrack_init data_dir out_dir name) = data_dir /\
  cleaned_data fs = clean_W_path (path_join data_dir (stem file)) /\
  back_data fs = back_calculation_path file (path_join data_dir (stem file)) /\
  nonan_data fs = delete_nan_inq_path file (path_join data_dir (stem file)) /\
  insert_data fs = insert_inq_path file (path_join data_dir (stem file)) /\
  Forall (fun path => String.prefix data_dir path = true)
    [cleaned_data fs; back_data fs; nonan_data fs; insert_data fs] /\
  (forall other_dir,
     process_file (StreamflowBacktrack_init data_dir other_dir name) file
       = Some fs) /\
  (forall other_dir listdir,
     process_backtrack (StreamflowBacktrack_init data_dir other_dir name)
       listdir
     = process_backtrack (StreamflowBacktrack_init data_dir out_dir name)
         listdir).
Proof.
  intros Hfile H. unfold process_file in *.
  destruct (endswith_csv file); [|discriminate].
  injection H as <-. simpl.
  assert (Hstem : startswith_slash (stem file) = false)
    by now apply startswith_slash_substring.
  repeat split.
  repeat constructor; apply under_folder; try assumption;
    try reflexivity; now apply startswith_slash_append.
Qed.

Lemma output_folder_is_data_folder_witness :
  output_folder (StreamflowBacktrack_init "rsvr_data" "rsvr_data/out" None)
    = "rsvr_data"%string /\
  insert_inq_path "21401550.csv" (path_join "rsvr_data" (stem "21401550.csv"))
    = "rsvr_data/21401550/21401550.csv"%string.
Proof.
  destruct (output_folder_is_data_folder "rsvr_data" "rsvr_data/out" None
              "21401550.csv"
              (fs := {| cleaned_data :=
                          clean_W_path (path_join "rsvr_data" "21401550");
                        back_data :=
                          back_calculation_path "21401550.csv"
                            (path_join "rsvr_data" "21401550");
                        nonan_data :=
                          delete_nan_inq_path "21401550.csv"
                            (path_join "rsvr_data" "21401550");
                        insert_data :=
                          insert_inq_path "21401550.csv"
                            (path_join "rsvr_data" "21401550");
                        written :=
                          [clean_W_audit_path
                             (path_join "rsvr_data" "21401550");
                           clean_W_path (path_join "rsvr_data" "21401550");
                           back_calculation_path "21401550.csv"
                             (path_join "rsvr_data" "21401550");
                           delete_nan_inq_path "21401550.csv"
                             (path_join "rsvr_data" "21401550");
                           insert_inq_path "21401550.csv"
                             (path_join "rsvr_data" "21401550");
                           insert_inq_copy_path "21401550.csv"] |}))
    as (H1 & _).
  - reflexivity.
  - reflexivity.
  - split; [exact H1 | reflexivity].
Defined.

(** ** The strided rolling mean *)

Lemma adjust_window_all_nan (window : list fval) :
  Forall (fun v => isnan v = true) window -> adjust_window window = NaN.
Proof.
  intros H. unfold adjust_window.
  replace (dropna window) with (@nil fval); [reflexivity|].
  induction H as [|v w Hv _ IH]; [reflexivity|].
  simpl. now rewrite Hv.
Qed.

(** C7: with window 4 and stride 2 on a series of 10 rows,
    [rolling_with_stride] writes at the rows 2, 4, 6, 8 the value of
    [adjust_window] on the windows starting at 0, 2, 4, 6 and leaves NaN
    at every other row; [adjust_window] gives the mean of a window, and NaN
    for a window that is all NaN; after the back-fill of the rolling_mean
    branch every row other than 2, 4, 6, 8 holds the raw INQ of the frame,
    and those four hold the window value (the raw INQ where that value is
    NaN). *)
Theorem strided_rolling_mean (self : StreamflowCleaner) (origin : origin_df)
    (s : Series) :
  window_size self = 4 -> stride self = 2 ->
  List.length s = 10 -> List.length origin = 10 ->
  let centre i := adjust_window (slice (i - 2) (i + 2) (values s)) in
  rolling_with_stride self (DSeries s) adjust_window
    = Ok (combine (index s)
            [NaN; NaN; centre 2; NaN; centre 4; NaN; centre 6; NaN;
             centre 8; NaN]) /\
  (forall window,
     adjust_window window
       = if Nat.eqb (List.length (dropna window)) 0 then NaN
         else mean window) /\
  (forall window,
     Forall (fun v => isnan v = true) window -> adjust_window window = NaN) /\
  exists out,
    rolling_mean_branch self origin (DSeries s)
      = Ok (DSeries (combine (RangeIndex 10) out)) /\
    List.length out = 10 /\
    (forall i, i < 10 -> ~ In i [2; 4; 6; 8] ->
       nth i out NaN = nth i (INQ origin) NaN) /\
    (forall i, In i [2; 4; 6; 8] ->
       nth i out NaN
         = if isnan (centre i) then nth i (INQ origin) NaN else centre i).
Proof.
  intros Hw Hs Hlen Hlo centre.
  assert (R : rolling_with_stride self (DSeries s) adjust_window
    = Ok (combine (index s)
            [NaN; NaN; centre 2; NaN; centre 4; NaN; centre 6; NaN;
             centre 8; NaN])).
  { unfold rolling_with_stride. rewrite Hs, Hw, Hlen. simpl Nat.eqb.
    cbv iota. change (range0 (10 + 1 - 4) 2) with [0; 2; 4; 6].
    unfold stride_loop. rewrite Hw.
    do 11 (destruct s as [|? s]; try discriminate).
    reflexivity. }
  split; [exact R|]. split; [reflexivity|].
  split; [apply adjust_window_all_nan|].
  unfold rolling_mean_branch. rewrite R. simpl bind.
  unfold set_index. rewrite length_combine, length_index, Hlen, Hlo.
  simpl bind.
  do 11 (destruct s as [|[? ?] s]; try discriminate).
  unfold INQ.
  do 11 (destruct origin as [|[? ?] origin]; try discriminate).
  eexists. split; [reflexivity|]. split; [reflexivity|]. split.
  - intros i Hi Hn. simpl in Hn.
    do 10 (destruct i as [|i]; [try reflexivity; exfalso; tauto|]).
    lia.
  - intros i Hi. simpl in Hi.
    destruct Hi as [<-|[<-|[<-|[<-|[]]]]]; reflexivity.
Qed.

Lemma strided_rolling_mean_witness :
  rolling_with_stride (cleaner 4 2)
    (DSeries (combine (RangeIndex 10)
                (map fz [1; 2; 3; 4; 5; 6; 7; 8; 9; 10]%Z)))
    adjust_window
  = Ok (combine (RangeIndex 10)
          [NaN; NaN; adjust_window (map fz [1; 2; 3; 4]%Z);
           NaN; adjust_window (map fz [3; 4; 5; 6]%Z);
           NaN; adjust_window (map fz [5; 6; 7; 8]%Z);
           NaN; adjust_window (map fz [7; 8; 9; 10]%Z); NaN]).
Proof.
  destruct (strided_rolling_mean (cleaner 4 2)
              (hourly (map fz [1; 2; 3; 4; 5; 6; 7; 8; 9; 10]%Z))
              (combine (RangeIndex 10)
                 (map fz [1; 2; 3; 4; 5; 6; 7; 8; 9; 10]%Z))
              eq_refl eq_refl eq_refl eq_refl) as [H _].
  exact H.
Defined.

(** ** Gap-limited interpolation *)

Lemma interpolate_from_gap (a b : fval) (k : nat) :
  isnan b = false ->
  forall gap,
    interpolate_from (Some a) gap (repeat NaN k ++ [b])
      = ramp a b (gap + k) ++ [b].
Proof.
  intros Hb. induction k as [|k IH]; intros gap; simpl.
  - rewrite Hb. now rewrite Nat.add_0_r.
  - rewrite IH. now rewrite Nat.add_succ_r.
Qed.

Lemma interpolate_gap (a b : fval) (k : nat) :
  isnan a = false -> isnan b = false ->
  interpolate (a :: repeat NaN k ++ [b]) = a :: ramp a b k ++ [b].
Proof.
  intros Ha Hb. unfold interpolate. simpl. rewrite Ha. simpl.
  now rewrite interpolate_from_gap.
Qed.

(** The loop of [linear_interpolate] passes over missing rows. *)
Lemma linear_interpolate_skip (threshold : Z) (data : list fval)
    (start_index : option nat) (rows : list nat) :
  Forall (fun i => isnan (nth i data NaN) = true) rows ->
  fold_left (linear_interpolate_step threshold) rows (data, start_index)
    = (data, start_index).
Proof.
  induction 1 as [|i rows Hi _ IH]; [reflexivity|].
  simpl. now rewrite Hi.
Qed.

(** A run of [k] missing rows between two observations is ramped when [k]
    is below the threshold and left missing otherwise. *)
Lemma linear_interpolate_gap (a b : fval) (k : nat) (threshold : Z) :
  isnan a = false -> isnan b = false ->
  linear_interpolate (a :: repeat NaN k ++ [b]) threshold
    = if (Z.of_nat k <? threshold)%Z then a :: ramp a b k ++ [b]
      else a :: repeat NaN k ++ [b].
Proof.
  intros Ha Hb. unfold linear_interpolate.
  set (column := a :: repeat NaN k ++ [b]).
  assert (Hlen : List.length column = S (k + 1)).
  { unfold column. simpl. now rewrite length_app, repeat_length. }
  rewrite Hlen.
  change (seq 0 (S (k + 1))) with (0 :: seq 1 (k + 1)).
  rewrite seq_app. cbn [fold_left].
  unfold linear_interpolate_step at 2. cbn [nth column]. rewrite Ha.
  cbn [negb]. rewrite fold_left_app, linear_interpolate_skip.
  - assert (Hnth : nth (S k) column NaN = b).
    { unfold column. cbn [nth].
      rewrite app_nth2 by (rewrite repeat_length; lia).
      now rewrite repeat_length, Nat.sub_diag. }
    change (1 + k) with (S k).
    cbn [seq fold_left]. unfold linear_interpolate_step.
    rewrite Hnth, Hb. cbn [negb fst].
    replace (Z.of_nat (S k) - Z.of_nat 0 - 1)%Z with (Z.of_nat k) by lia.
    destruct (Z.of_nat k <? threshold)%Z; [|reflexivity].
    unfold set_slice, slice. cbn [firstn app skipn].
    rewrite Nat.sub_0_r.
    rewrite firstn_all2 by lia.
    rewrite skipn_all2 by lia.
    rewrite app_nil_r. unfold column. now apply interpolate_gap.
  - apply Forall_forall. intros i Hi. apply in_seq in Hi.
    unfold column. destruct i as [|i]; [lia|]. simpl.
    rewrite app_nth1 by (rewrite repeat_length; lia).
    now rewrite nth_repeat.
Qed.

(** C6 (the code at the boundary): with the threshold of 168 a run of 167
    missing hours between two observations is ramped, and a run of 168 is
    left missing, as is a run of 169. *)
Theorem gap_of_168_hours_not_filled :
  linear_interpolate (fz 1 :: repeat NaN 167 ++ [fz 2]) 168
    = fz 1 :: ramp (fz 1) (fz 2) 167 ++ [fz 2] /\
  linear_interpolate (fz 1 :: repeat NaN 168 ++ [fz 2]) 168
    = fz 1 :: repeat NaN 168 ++ [fz 2] /\
  linear_interpolate (fz 1 :: repeat NaN 169 ++ [fz 2]) 168
    = fz 1 :: repeat NaN 169 ++ [fz 2] /\
  insert_inq (fz 1 :: repeat NaN 168 ++ [fz 2])
    = fz 1 :: repeat NaN 168 ++ [fz 2].
Proof.
  assert (H168 : linear_interpolate (fz 1 :: repeat NaN 168 ++ [fz 2]) 168
                 = fz 1 :: repeat NaN 168 ++ [fz 2])
    by (rewrite linear_interpolate_gap; reflexivity).
  split; [rewrite linear_interpolate_gap; reflexivity|].
  split; [exact H168|].
  split; [rewrite linear_interpolate_gap; reflexivity|].
  unfold insert_inq. rewrite H168. by_evaluation.
Qed.

(** ** Lengths and indexes through the methods *)

Lemma length_rolling_mean (window min_periods : nat) (center : bool)
    (xs : list fval) :
  List.length (rolling_mean window min_periods center xs) = List.length xs.
Proof. unfold rolling_mean. now rewrite length_map, length_seq. Qed.

Lemma length_bfill (xs : list fval) : List.length (bfill xs) = List.length xs.
Proof. induction xs as [|x xs IH]; simpl; [reflexivity | now rewrite IH]. Qed.

Lemma length_ffill (xs : list fval) : List.length (ffill xs) = List.length xs.
Proof.
  unfold ffill. generalize NaN.
  induction xs as [|x xs IH]; intros prev; simpl; [reflexivity|].
  now rewrite IH.
Qed.

Lemma length_clamp (xs : list fval) : List.length (clamp xs) = List.length xs.
Proof. apply length_map. Qed.

Lemma length_moving_average_smoothed (self : StreamflowCleaner)
    (xs : list fval) :
  List.length (moving_average_smoothed self xs) = List.length xs.
Proof.
  unfold moving_average_smoothed.
  now rewrite length_clamp, length_ffill, length_bfill, length_rolling_mean.
Qed.

Lemma length_kalman_loop (st : fval * fval) (xs : list fval) :
  List.length (kalman_loop st xs) = List.length xs.
Proof.
  revert st. induction xs as [|x xs IH]; intros st; simpl; [reflexivity|].
  now rewrite IH.
Qed.

Lemma length_moving_average_diff_signal (self : StreamflowCleaner)
    (xs : list fval) :
  List.length (moving_average_diff_signal self xs) = List.length xs.
Proof.
  unfold moving_average_diff_signal.
  rewrite length_clamp, length_map, length_combine, length_rev,
    !length_rolling_mean, length_rev.
  apply Nat.min_id.
Qed.

Lemma length_map2 (f : fval -> fval -> fval) (xs ys : list fval) :
  List.length (map2 f xs ys) = Nat.min (List.length xs) (List.length ys).
Proof. unfold map2. now rewrite length_map, length_combine. Qed.

(** [with_values] with as many values as the series has rows. *)
Lemma dvalues_with_values (d : data) (vs : list fval) :
  List.length vs = List.length (dvalues d) ->
  dvalues (with_values d vs) = vs.
Proof.
  destruct d as [s|a]; simpl; intros H; [|reflexivity].
  apply values_combine. now rewrite length_index, H, length_values.
Qed.

Lemma dmap_with_values (f : fval -> fval) (d : data) (vs : list fval) :
  dmap f (with_values d vs) = with_values d (map f vs).
Proof.
  destruct d as [s|a]; simpl; [|reflexivity].
  f_equal. generalize (index s) as idx. clear s.
  intros idx. revert vs.
  induction idx as [|l idx IH]; intros [|v vs]; simpl; try reflexivity.
  now rewrite IH.
Qed.

Lemma data_balanced_with_values (o x : data) (vs : list fval) :
  List.length vs = List.length (dvalues x) ->
  reshaped x (data_balanced o (with_values x vs)).
Proof.
  intros H. unfold data_balanced. rewrite dmap_with_values.
  eexists. split; [reflexivity|]. now rewrite length_map.
Qed.

Lemma moving_average_shape (self : StreamflowCleaner) (x y : data) :
  moving_average self x = Ok y -> reshaped x y.
Proof.
  unfold moving_average. destruct x as [s|a]; [|discriminate].
  intros H. apply Ok_inj in H as <-.
  apply data_balanced_with_values. apply length_moving_average_smoothed.
Qed.

Lemma kalman_filter_shape (x y : data) :
  kalman_filter x = Ok y ->
  exists a, y = DArray a /\ List.length a = List.length (dvalues x).
Proof.
  unfold kalman_filter. intros H. apply bind_Ok in H as (x0 & _ & H).
  apply Ok_inj in H as <-. eexists. split; [reflexivity|].
  unfold kalman_estimated.
  now rewrite length_map, length_clamp, length_kalman_loop.
Qed.

Lemma moving_average_difference_shape (self : StreamflowCleaner)
    (x y : data) :
  moving_average_difference self x = Ok y ->
  exists a, y = DArray a /\ List.length a = List.length (dvalues x).
Proof.
  unfold moving_average_difference.
  destruct (window_size self <? 1); [discriminate|].
  intros H. apply Ok_inj in H as <-. eexists. split; [reflexivity|].
  now rewrite length_map, length_moving_average_diff_signal.
Qed.

Lemma on_frame_reshaped (origin : origin_df) (x y : data) :
  on_frame origin x -> reshaped x y -> on_frame origin y.
Proof.
  intros Hx (vs & -> & Hlen). destruct x as [s|a]; simpl in *.
  - rewrite index_combine; [exact Hx|].
    now rewrite length_index, Hlen, length_values.
  - congruence.
Qed.

Lemma indexed_reshaped (origin : origin_df) (x y : data) :
  indexed origin x -> reshaped x y -> indexed origin y.
Proof.
  intros Hx (vs & -> & Hlen). destruct x as [s|a]; simpl in *; [|exact I].
  rewrite index_combine; [exact Hx|].
  now rewrite length_index, Hlen, length_values.
Qed.

Lemma length_RangeIndex (n : nat) : List.length (RangeIndex n) = n.
Proof. unfold RangeIndex. now rewrite length_map, length_seq. Qed.

Lemma on_frame_length (origin : origin_df) (d : data) :
  on_frame origin d -> List.length (dvalues d) = List.length origin.
Proof.
  destruct d as [s|a]; simpl; [|auto].
  intros H. rewrite length_values, <- length_index, H.
  apply length_RangeIndex.
Qed.

Lemma on_frame_indexed (origin : origin_df) (d : data) :
  on_frame origin d -> indexed origin d.
Proof. destruct d; simpl; auto. Qed.

Section Shapes.

Context {scipy : SciPy}.
Variable self : StreamflowCleaner.
Variable origin : origin_df.

Lemma reweight_length (k : fval) (residuals : data) (m : nat) (sigma : fval) :
  List.length (fst (reweight k residuals m sigma))
    = List.length (dvalues residuals).
Proof. unfold reweight. simpl. apply length_map. Qed.

Lemma robust_fitting_shape (k : fval) (x y : data) :
  robust_fitting x k = Ok y -> reshaped x y.
Proof.
  unfold robust_fitting. intros H.
  apply bind_Ok in H as ([[a b] c] & _ & H).
  set (ys := dvalues x) in *.
  set (time_steps := map (fun i => fz (Z.of_nat i)) (seq 0 (List.length ys)))
    in *.
  set (smoothed := map (fun t => quadratic_function t a b c) time_steps) in *.
  set (residuals := with_values x (map2 fsub ys smoothed)) in *.
  assert (Hts : List.length smoothed = List.length ys).
  { unfold smoothed, time_steps. now rewrite !length_map, length_seq. }
  assert (Hres : List.length (dvalues residuals) = List.length ys).
  { unfold residuals. rewrite dvalues_with_values;
      rewrite length_map2, Hts, Nat.min_id; reflexivity. }
  change (Nat.iter 10 ?f ?i) with (f (Nat.iter 9 f i)) in H.
  cbv beta in H.
  match type of H with
  | context [reweight k residuals ?m ?sg] =>
      pose proof (reweight_length k residuals m sg) as Hw;
      destruct (reweight k residuals m sg) as [weights sg']
  end.
  simpl fst in Hw. apply Ok_inj in H as <-.
  apply data_balanced_with_values.
  rewrite length_clamp, !length_map2, length_map, Hw, Hres, Hts.
  fold ys. lia.
Qed.

Lemma lowpass_filter_shape (x y : data) :
  lowpass_filter self x = Ok y ->
  exists a, y = DArray a /\
    (SciPyShape scipy -> List.length a = List.length (dvalues x)).
Proof.
  unfold lowpass_filter. destruct (feqb _ _); [discriminate|]. intros H.
  apply bind_Ok in H as (ba & _ & H).
  apply bind_Ok in H as (sig & Hsig & H).
  apply Ok_inj in H as <-. eexists. split; [reflexivity|].
  intros Shape. rewrite length_map, length_clamp.
  exact (filtfilt_length Shape _ _ _ Hsig).
Qed.

Lemma fftfreq_length (n : nat) (d : fval) (xf : list fval) :
  fftfreq n d = Ok xf -> List.length xf = n.
Proof.
  unfold fftfreq. destruct (feqb _ _); [discriminate|].
  intros H. apply Ok_inj in H as <-. now rewrite length_map, length_seq.
Qed.

Lemma FFT_pass_length (x : data) (current next : list fval) :
  SciPyShape scipy ->
  FFT_pass self x current = Ok next ->
  List.length next = List.length current.
Proof.
  intros Shape H. unfold FFT_pass in H.
  apply bind_Ok in H as (yf & Hyf & H).
  apply bind_Ok in H as (xf & Hxf & H).
  apply bind_Ok in H as (back & Hback & H).
  apply Ok_inj in H as <-.
  rewrite values_data_balanced. simpl dvalues.
  rewrite length_map, length_clamp, length_map.
  pose proof (ifft_length Shape _ Hback) as E1.
  pose proof (fft_length Shape _ Hyf) as E2.
  pose proof (fftfreq_length _ _ Hxf) as E3.
  rewrite length_map, length_combine in E1.
  unfold complex in *. rewrite E1, E2, E3.
  apply Nat.min_id.
Qed.

Lemma FFT_loop_length (x : data) (passes : nat) :
  SciPyShape scipy ->
  forall current out,
    FFT_loop self x passes current = Ok out ->
    List.length out = List.length current.
Proof.
  intros Shape. induction passes as [|n IH]; simpl; intros current out H.
  - now apply Ok_inj in H as <-.
  - apply bind_Ok in H as (next & Hpass & Hloop).
    rewrite (IH _ _ Hloop). now apply (FFT_pass_length x).
Qed.

Lemma FFT_shape (x y : data) :
  FFT self x = Ok y ->
  exists a, y = DArray a /\
    (SciPyShape scipy -> List.length a = List.length (dvalues x)).
Proof.
  unfold FFT. destruct x as [s|a]; [|discriminate]. intros H.
  apply bind_Ok in H as (out & Hloop & H). apply Ok_inj in H as <-.
  eexists. split; [reflexivity|]. intros Shape.
  now apply (FFT_loop_length (DSeries s) (iterations self)).
Qed.

Lemma wavelet_shape (x y : data) :
  wavelet self x = Ok y ->
  exists a, y = DArray a /\
    (SciPyShape scipy -> List.length a = List.length (dvalues x)).
Proof.
  unfold wavelet. destruct x as [s|a]; [|discriminate]. intros H.
  apply bind_Ok in H as (first & _ & H).
  apply bind_Ok in H as (ext & Hcwt & H).
  apply bind_Ok in H as (row & Hrow & H).
  apply Ok_inj in H as <-. eexists. split; [reflexivity|].
  intros Shape. rewrite length_map, length_clamp.
  destruct (nth_error (map (map np_abs) ext) (cwt_row self)) as [r|] eqn:E;
    [|discriminate].
  apply Ok_inj in Hrow as ->.
  rewrite nth_error_map in E.
  destruct (nth_error ext (cwt_row self)) as [r0|] eqn:E0; [|discriminate].
  simpl in E. injection E as <-.
  pose proof (cwt_length Shape _ _ Hcwt) as Hall.
  rewrite Forall_forall in Hall.
  pose proof (Hall r0 (nth_error_In _ _ E0)) as Hr0.
  rewrite !length_app, !repeat_length in Hr0.
  unfold slice. rewrite length_firstn, length_skipn, length_map, Hr0.
  simpl dvalues. lia.
Qed.

Lemma rolling_mean_branch_shape (x y : data) :
  rolling_mean_branch self origin x = Ok y -> on_frame origin y.
Proof.
  unfold rolling_mean_branch. intros H.
  apply bind_Ok in H as (r & _ & H).
  apply bind_Ok in H as (r' & Hr' & H).
  apply Ok_inj in H as <-.
  apply set_index_Ok in Hr' as [Hlen ->]. simpl.
  rewrite index_combine.
  - apply index_combine. now rewrite length_values.
  - rewrite length_fillna, length_index, length_values. reflexivity.
Qed.

Lemma EMA_branch_shape (x y : data) :
  EMA_branch origin x = Ok y -> on_frame origin y.
Proof.
  unfold EMA_branch. intros H.
  apply bind_Ok in H as (r & _ & H).
  destruct r as [s|a]; [|discriminate].
  apply bind_Ok in H as (s' & Hs' & H).
  apply Ok_inj in H as <-.
  apply set_index_Ok in Hs' as [Hlen ->]. simpl.
  apply index_combine. now rewrite length_values.
Qed.

(** Every branch of the loop of [anomaly_process] keeps a Series on the
    index of the frame. *)
Lemma apply_method_indexed (method : string) (x y : data) :
  indexed origin x ->
  apply_method self origin method x = Ok y ->
  indexed origin y.
Proof.
  intros Hx H. unfold apply_method in H.
  destruct (String.eqb method "moving_average").
  { eapply indexed_reshaped; eauto using moving_average_shape. }
  destruct (String.eqb method "kalman").
  { apply kalman_filter_shape in H as (a & -> & _). exact I. }
  destruct (String.eqb method "moving_average_diff").
  { apply moving_average_difference_shape in H as (a & -> & _). exact I. }
  destruct (String.eqb method "robfit").
  { eapply indexed_reshaped; eauto using robust_fitting_shape. }
  destruct (String.eqb method "lowpass").
  { apply lowpass_filter_shape in H as (a & -> & _). exact I. }
  destruct (String.eqb method "FFT").
  { apply FFT_shape in H as (a & -> & _). exact I. }
  destruct (String.eqb method "wavelet").
  { apply wavelet_shape in H as (a & -> & _). exact I. }
  destruct (String.eqb method "rolling_mean").
  { apply on_frame_indexed. eapply rolling_mean_branch_shape; eauto. }
  destruct (String.eqb method "EMA").
  { apply on_frame_indexed. eapply EMA_branch_shape; eauto. }
  now apply Ok_inj in H as <-.
Qed.

(** With SciPy results of the documented shape, every branch keeps the
    data on the rows of the frame. *)
Lemma apply_method_on_frame (method : string) (x y : data) :
  SciPyShape scipy ->
  on_frame origin x ->
  apply_method self origin method x = Ok y ->
  on_frame origin y.
Proof.
  intros Shape Hx H. unfold apply_method in H.
  pose proof (on_frame_length origin x Hx) as Hn.
  destruct (String.eqb method "moving_average").
  { eapply on_frame_reshaped; eauto using moving_average_shape. }
  destruct (String.eqb method "kalman").
  { apply kalman_filter_shape in H as (a & -> & Ha). simpl. congruence. }
  destruct (String.eqb method "moving_average_diff").
  { apply moving_average_difference_shape in H as (a & -> & Ha).
    simpl. congruence. }
  destruct (String.eqb method "robfit").
  { eapply on_frame_reshaped; eauto using robust_fitting_shape. }
  destruct (String.eqb method "lowpass").
  { apply lowpass_filter_shape in H as (a & -> & Ha).
    simpl. rewrite (Ha Shape). exact Hn. }
  destruct (String.eqb method "FFT").
  { apply FFT_shape in H as (a & -> & Ha).
    simpl. rewrite (Ha Shape). exact Hn. }
  destruct (String.eqb method "wavelet").
  { apply wavelet_shape in H as (a & -> & Ha).
    simpl. rewrite (Ha Shape). exact Hn. }
  destruct (String.eqb method "rolling_mean").
  { eapply rolling_mean_branch_shape; eauto. }
  destruct (String.eqb method "EMA").
  { eapply EMA_branch_shape; eauto. }
  now apply Ok_inj in H as <-.
Qed.

Lemma run_methods_indexed (methods : list string) :
  forall x y,
    indexed origin x ->
    run_methods self origin methods x = Ok y ->
    indexed origin y.
Proof.
  induction methods as [|m ms IH]; simpl; intros x y Hx H.
  - now apply Ok_inj in H as <-.
  - apply bind_Ok in H as (next & Hm & H).
    eapply IH; [|exact H]. eapply apply_method_indexed; eauto.
Qed.

End Shapes.

(** ** Mask preservation *)

Lemma NoDup_RangeIndex (n : nat) : NoDup (RangeIndex n).
Proof.
  unfold RangeIndex. generalize 0.
  induction n as [|n IH]; intros start; simpl; constructor.
  - rewrite in_map_iff. intros (j & E & Hj). injection E as ->.
    apply in_seq in Hj. lia.
  - apply IH.
Qed.

Lemma label_eqb_refl (l : label) : label_eqb l l = true.
Proof. now apply label_eqb_eq. Qed.

(** On a Series without repeated labels, looking each label up gives the
    values in order. *)
Lemma lookup_own_index (s : Series) :
  NoDup (index s) -> map (fun l => hd NaN (loc l s)) (index s) = values s.
Proof.
  induction s as [|[l v] rest IH]; simpl; intros Hnd; [reflexivity|].
  inversion Hnd as [|? ? Hnotin Hrest]; subst.
  unfold loc at 1. simpl. rewrite label_eqb_refl. simpl. f_equal.
  rewrite <- (IH Hrest). apply map_ext_in. intros l' Hin.
  unfold loc. simpl.
  destruct (label_eqb l l') eqn:E; [|reflexivity].
  apply label_eqb_eq in E. subst. contradiction.
Qed.

Lemma align_indexed (origin : origin_df) (d : data) (column : list fval) :
  indexed origin d ->
  align (RangeIndex (List.length origin)) d = Ok column ->
  column = dvalues d /\ List.length column = List.length origin.
Proof.
  destruct d as [s|a]; simpl; intros Hd H.
  - apply Ok_inj in H as <-. rewrite <- Hd.
    rewrite lookup_own_index by (rewrite Hd; apply NoDup_RangeIndex).
    split; [reflexivity|].
    now rewrite length_values, <- length_index, Hd, length_RangeIndex.
  - rewrite length_RangeIndex in H.
    destruct (Nat.eqb_spec (List.length a) (List.length origin));
      [|discriminate].
    apply Ok_inj in H as <-. now split.
Qed.

Lemma length_ramp (a b : fval) (gap : nat) : List.length (ramp a b gap) = gap.
Proof. unfold ramp. now rewrite length_map, length_seq. Qed.

Lemma length_interpolate_from (prev : option fval) (xs : list fval) :
  forall gap,
    List.length (interpolate_from prev gap xs) = gap + List.length xs.
Proof.
  revert prev. induction xs as [|x xs IH]; intros prev gap; simpl.
  - destruct prev; rewrite repeat_length; lia.
  - destruct (isnan x).
    + rewrite IH. lia.
    + rewrite length_app. simpl. rewrite IH.
      destruct prev; [rewrite length_ramp | rewrite repeat_length]; lia.
Qed.

Lemma length_interpolate (xs : list fval) :
  List.length (interpolate xs) = List.length xs.
Proof. unfold interpolate. now rewrite length_interpolate_from. Qed.

Lemma nth_set_nan_where (mask : list bool) (xs : list fval) (i : nat) :
  List.length mask = List.length xs ->
  nth i (set_nan_where mask xs) NaN
    = if nth i mask false then NaN else nth i xs NaN.
Proof.
  intros H. unfold set_nan_where.
  set (f := fun p : bool * fval => if fst p then NaN else snd p).
  transitivity (nth i (map f (combine mask xs)) (f (false, NaN)));
    [reflexivity|].
  rewrite map_nth, combine_nth by exact H. reflexivity.
Qed.

(** The working series [anomaly_process] starts from lies on the frame. *)
Lemma working_series_on_frame (origin : origin_df) :
  on_frame origin
    (DSeries (combine (RangeIndex (List.length origin))
                (fillna_scalar (fz 0) (interpolate (INQ origin))))).
Proof.
  simpl. apply index_combine.
  unfold fillna_scalar, INQ.
  now rewrite length_RangeIndex, length_map, length_interpolate, length_map.
Qed.

(** The column [anomaly_process] stores: the values of the chain, NaN where
    the raw INQ is NaN. *)
Lemma anomaly_process_column {scipy : SciPy} (self : StreamflowCleaner)
    (origin : origin_df) (methods : list string) (name : string)
    (column : list fval) :
  anomaly_process self origin methods = Ok (name, column) ->
  exists chain,
    run_methods self origin methods
      (DSeries (combine (RangeIndex (List.length origin))
                  (fillna_scalar (fz 0) (interpolate (INQ origin)))))
      = Ok chain /\
    List.length column = List.length origin /\
    List.length (dvalues chain) = List.length origin /\
    forall i, i < List.length origin ->
      (isnan (nth i (INQ origin) NaN) = true -> nth i column NaN = NaN) /\
      (isnan (nth i (INQ origin) NaN) = false ->
       nth i column NaN = nth i (dvalues chain) NaN).
Proof.
  unfold anomaly_process. intros H.
  apply bind_Ok in H as (chain & Hchain & H).
  apply bind_Ok in H as (first & _ & H).
  apply bind_Ok in H as (col0 & Hcol & H).
  apply Ok_inj in H. injection H as _ <-.
  exists chain. split; [exact Hchain|].
  assert (Hidx : indexed origin chain).
  { eapply run_methods_indexed; [|exact Hchain].
    apply on_frame_indexed, working_series_on_frame. }
  destruct (align_indexed origin chain Hidx Hcol) as [-> Hlen].
  assert (Hmask : List.length (map isnan (INQ origin))
                  = List.length (dvalues chain)).
  { unfold INQ. now rewrite !length_map, Hlen. }
  split; [|split; [exact Hlen|]].
  - unfold set_nan_where. now rewrite length_map, length_combine, Hmask,
      Nat.min_id.
  - intros i Hi. rewrite nth_set_nan_where by exact Hmask.
    change false with (isnan (fz 0)). rewrite map_nth.
    rewrite (nth_indep (INQ origin) (fz 0) NaN)
      by (unfold INQ; now rewrite length_map).
    split; intros ->; reflexivity.
Qed.

(** C2 (as the code has it): when [anomaly_process] completes, the column
    it stores has one value per row of the frame; at the rows where the raw
    INQ is missing it is missing, and at every other row it holds the value
    the chain of methods produced there (so such a row is missing exactly
    when the chain left it missing). *)
Theorem mask_preservation {scipy : SciPy} (self : StreamflowCleaner)
    (origin : origin_df) (methods : list string) (name : string)
    (column : list fval) :
  anomaly_process self origin methods = Ok (name, column) ->
  exists chain,
    run_methods self origin methods
      (DSeries (combine (RangeIndex (List.length origin))
                  (fillna_scalar (fz 0) (interpolate (INQ origin)))))
      = Ok chain /\
    List.length column = List.length origin /\
    List.length (dvalues chain) = List.length origin /\
    forall i, i < List.length origin ->
      (isnan (nth i (INQ origin) NaN) = true -> nth i column NaN = NaN) /\
      (isnan (nth i (INQ origin) NaN) = false ->
       nth i column NaN = nth i (dvalues chain) NaN).
Proof. apply anomaly_process_column. Qed.

Lemma mask_preservation_witness :
  exists chain,
    run_methods (scipy := offline) (cleaner 3 1)
      (hourly [fz 10; fz 20; NaN; fz 40; fz 50]) ["moving_average"%string]
      (DSeries (combine (RangeIndex 5)
                  (fillna_scalar (fz 0)
                     (interpolate [fz 10; fz 20; NaN; fz 40; fz 50]))))
      = Ok chain /\
    nth 2 [fz 20; fz 20; NaN; fz 40; fz 40] NaN = NaN /\
    nth 3 [fz 20; fz 20; NaN; fz 40; fz 40] NaN = nth 3 (dvalues chain) NaN.
Proof.
  destruct (mask_preservation (scipy := offline) (cleaner 3 1)
              (hourly [fz 10; fz 20; NaN; fz 40; fz 50])
              ["moving_average"%string]
              (name := "moving_average"%string)
              (column := [fz 20; fz 20; NaN; fz 40; fz 40]))
    as (chain & Hchain & _ & _ & Hrows).
  - by_evaluation.
  - exists chain. split; [exact Hchain|]. split.
    + apply (proj1 (Hrows 2 ltac:(simpl; lia))). reflexivity.
    + apply (proj2 (Hrows 3 ltac:(simpl; lia))). reflexivity.
Defined.

(** C2, counterexample: with the default window of 24 and the method
    moving_average, the two-row series [5, 7] has no missing value and the
    stored column is [NaN, NaN]. *)
Lemma unmasked_rows_lost :
  map isnan (INQ (hourly [fz 5; fz 7])) = [false; false] /\
  anomaly_process (scipy := offline) default_cleaner (hourly [fz 5; fz 7])
    ["moving_average"%string]
  = Ok ("moving_average"%string, [NaN; NaN]).
Proof. split; [reflexivity | by_evaluation]. Qed.

(** ** EMA and the rows of the frame *)

Lemma existsb_label (l : label) (s : Series) :
  existsb (fun q => label_eqb (fst q) l) s = true <-> In l (index s).
Proof.
  rewrite existsb_exists. unfold index. rewrite in_map_iff.
  split; intros ([l' v] & H1 & H2); exists (l', v); simpl in *.
  - apply label_eqb_eq in H2. now subst.
  - subst. split; [assumption | apply label_eqb_refl].
Qed.

Lemma drop_duplicated_In (s : Series) (l : label) :
  In l (index (drop_duplicated s)) <-> In l (index s).
Proof.
  induction s as [|[l0 v0] rest IH]; simpl; [tauto|].
  destruct (existsb _ rest) eqn:E; simpl.
  - apply existsb_label in E. rewrite IH. split; [tauto|].
    intros [<-|H]; assumption.
  - rewrite IH. tauto.
Qed.

Lemma drop_duplicated_NoDup (s : Series) : NoDup (index (drop_duplicated s)).
Proof.
  induction s as [|[l0 v0] rest IH]; simpl; [constructor|].
  destruct (existsb _ rest) eqn:E; simpl; [exact IH|].
  constructor; [|exact IH].
  rewrite drop_duplicated_In. intros Hin. apply existsb_label in Hin.
  simpl in E. congruence.
Qed.

Lemma drop_duplicated_length (s : Series) :
  List.length (drop_duplicated s) <= List.length s.
Proof.
  induction s as [|[l0 v0] rest IH]; simpl; [lia|].
  destruct (existsb _ rest); simpl; lia.
Qed.

(** No row is dropped exactly when no label is repeated. *)
Lemma drop_duplicated_all (s : Series) :
  List.length (drop_duplicated s) = List.length s <-> NoDup (index s).
Proof.
  induction s as [|[l0 v0] rest IH]; simpl; [split; [constructor|reflexivity]|].
  pose proof (drop_duplicated_length rest) as Hle.
  destruct (existsb _ rest) eqn:E; simpl.
  - apply existsb_label in E. split; [lia|].
    intros Hnd. inversion Hnd. contradiction.
  - split.
    + intros H. constructor; [|apply IH; lia].
      intros Hin. apply existsb_label in Hin. simpl in E. congruence.
    + intros Hnd. inversion Hnd; subst. f_equal. now apply IH.
Qed.

Lemma adaptive_loop_length (s : Series) (threshold : fval)
    (min_window max_window decay_factor : Z) (todo : list label) :
  forall i current_window out,
    adaptive_loop s threshold min_window max_window decay_factor todo i
      current_window = Ok out ->
    List.length out = List.length todo.
Proof.
  induction todo as [|date rest IH]; simpl; intros i w out H.
  - now apply Ok_inj in H as <-.
  - apply bind_Ok in H as (v & _ & H).
    apply bind_Ok in H as (w' & _ & H).
    apply bind_Ok in H as (sd & _ & H).
    apply bind_Ok in H as (ed & _ & H).
    apply bind_Ok in H as (wd & _ & H).
    apply bind_Ok in H as (out' & Hout & H).
    apply Ok_inj in H as <-. simpl. f_equal. eapply IH; eauto.
Qed.

Lemma adaptive_moving_average_shape (s r : Series) (threshold : fval)
    (initial_window min_window max_window decay_factor : Z) :
  adaptive_moving_average (DSeries s) threshold initial_window min_window
    max_window decay_factor = Ok r ->
  index r = index s /\ List.length (values r) = List.length s.
Proof.
  simpl. intros H. apply bind_Ok in H as (out & Hout & H).
  apply Ok_inj in H as <-. apply adaptive_loop_length in Hout.
  rewrite length_index in Hout.
  split.
  - apply index_combine. now rewrite length_index.
  - rewrite values_combine; [exact Hout | now rewrite length_index].
Qed.

Lemma length_np_where (cond : list bool) (xs ys : list fval) :
  List.length cond = List.length xs -> List.length xs = List.length ys ->
  List.length (np_where cond xs ys) = List.length xs.
Proof.
  revert xs ys. induction cond as [|c cond IH]; intros [|x xs] [|y ys];
    simpl; try discriminate; try reflexivity.
  intros H1 H2. f_equal. apply IH; lia.
Qed.

Lemma align_length (idx : list label) (d : data) (column : list fval) :
  align idx d = Ok column -> List.length column = List.length idx.
Proof.
  destruct d as [s|a]; simpl; intros H.
  - apply Ok_inj in H as <-. apply length_map.
  - destruct (Nat.eqb_spec (List.length a) (List.length idx)); [|discriminate].
    now apply Ok_inj in H as <-.
Qed.

Lemma NoDup_map_Time (ts : list Z) : NoDup (map Time ts) <-> NoDup ts.
Proof.
  induction ts as [|t ts IH]; simpl; [split; constructor|].
  split; intros H; inversion H as [|? ? Hnotin Hrest]; subst;
    constructor; try (now apply IH).
  - intros Hin. apply Hnotin. now apply in_map.
  - rewrite in_map_iff. intros (t' & E & Hin). injection E as ->.
    contradiction.
Qed.

Lemma data_balanced_series (o : data) (s : Series) :
  exists s',
    data_balanced o (DSeries s) = DSeries s' /\
    index s' = index s /\ List.length s' = List.length s.
Proof.
  eexists. split; [reflexivity|]. split.
  - unfold index. rewrite map_map. reflexivity.
  - apply length_map.
Qed.

(** [EMA] returns a Series with one row per distinct timestamp of the
    frame, labelled by it. *)
Lemma EMA_shape (origin : origin_df) (x y : data) :
  EMA origin x = Ok y ->
  exists s,
    y = DSeries s /\
    NoDup (index s) /\
    (forall l, In l (index s) <-> In l (map Time (TM origin))) /\
    (List.length s = List.length origin <-> NoDup (TM origin)).
Proof.
  unfold EMA. intros H.
  apply bind_Ok in H as (inqq & Hq & H).
  apply bind_Ok in H as (inqa & Ha & H).
  apply bind_Ok in H as (inqb & Hb & H).
  apply Ok_inj in H as <-.
  apply align_length in Hq. rewrite length_RangeIndex in Hq.
  set (df0 := combine (map Time (TM origin)) inqq) in *.
  set (df := drop_duplicated df0) in *.
  assert (Hidx0 : index df0 = map Time (TM origin)).
  { apply index_combine. unfold TM. now rewrite !length_map, Hq. }
  assert (Hlen0 : List.length df0 = List.length origin).
  { rewrite <- length_index, Hidx0. unfold TM. now rewrite !length_map. }
  apply adaptive_moving_average_shape in Ha as [_ Ha].
  apply adaptive_moving_average_shape in Hb as [_ Hb].
  set (inqc := np_where (map flood_season (index df)) (values inqa)
                 (values inqb)) in *.
  assert (Hc : List.length inqc = List.length df).
  { unfold inqc. rewrite length_np_where.
    - exact Ha.
    - now rewrite length_map, length_index, Ha.
    - now rewrite Ha, Hb. }
  destruct (data_balanced_series x (combine (index df) inqc))
    as (s' & -> & Hi & Hl).
  rewrite index_combine in Hi by (now rewrite length_index, Hc).
  rewrite length_combine, length_index, Hc, Nat.min_id in Hl.
  exists s'. split; [reflexivity|].
  rewrite Hi. split; [apply drop_duplicated_NoDup|]. split.
  - intros l. unfold df. now rewrite drop_duplicated_In, Hidx0.
  - rewrite Hl, <- Hlen0. unfold df. rewrite drop_duplicated_all, Hidx0.
    apply NoDup_map_Time.
Qed.

Lemma offline_shape : SciPyShape offline.
Proof. constructor; simpl; intros; discriminate. Qed.

(** The kind of data each branch hands on. *)

Section Kinds.

Context {scipy : SciPy}.
Variable self : StreamflowCleaner.
Variable origin : origin_df.

Lemma array_method_returns_array (method : string) (x y : data) :
  In method array_methods ->
  apply_method self origin method x = Ok y ->
  exists a, y = DArray a.
Proof.
  intros Hin H. unfold array_methods in Hin. simpl in Hin.
  destruct Hin as [<-|[<-|[<-|[<-|[<-|[]]]]]];
    unfold apply_method in H; simpl in H.
  - unfold kalman_filter in H. apply bind_Ok in H as (x0 & _ & H).
    apply Ok_inj in H as <-. eexists. reflexivity.
  - unfold moving_average_difference in H.
    destruct (window_size self <? 1); [discriminate|].
    apply Ok_inj in H as <-. eexists. reflexivity.
  - unfold lowpass_filter in H. destruct (feqb _ _); [discriminate|].
    apply bind_Ok in H as (ba & _ & H).
    apply bind_Ok in H as (sig & _ & H).
    apply Ok_inj in H as <-. eexists. reflexivity.
  - unfold FFT in H. destruct x as [s|a]; [|discriminate].
    apply bind_Ok in H as (out & _ & H). apply Ok_inj in H as <-.
    eexists. reflexivity.
  - unfold wavelet in H. destruct x as [s|a]; [|discriminate].
    apply bind_Ok in H as (first & _ & H).
    apply bind_Ok in H as (ext & _ & H).
    apply bind_Ok in H as (row & _ & H).
    apply Ok_inj in H as <-. eexists. reflexivity.
Qed.

Lemma series_method_on_array (method : string) (a : list fval) :
  In method series_methods ->
  apply_method self origin method (DArray a) = Raise AttributeError.
Proof.
  intros Hin. unfold series_methods in Hin. simpl in Hin.
  destruct Hin as [<-|[<-|[<-|[<-|[]]]]]; reflexivity.
Qed.

Lemma series_method_returns_series (method : string) (x y : data) :
  In method series_valued_methods ->
  apply_method self origin method x = Ok y ->
  exists s, y = DSeries s.
Proof.
  intros Hin H. unfold series_valued_methods in Hin. simpl in Hin.
  destruct Hin as [<-|[<-|[<-|[]]]]; unfold apply_method in H; simpl in H.
  - unfold moving_average in H. destruct x as [s|a]; [|discriminate].
    apply Ok_inj in H as <-. eexists. reflexivity.
  - unfold rolling_mean_branch in H.
    apply bind_Ok in H as (r & _ & H). apply bind_Ok in H as (r' & _ & H).
    apply Ok_inj in H as <-. eexists. reflexivity.
  - unfold EMA_branch in H. apply bind_Ok in H as (r & _ & H).
    destruct r as [s|a]; [|discriminate].
    apply bind_Ok in H as (s' & _ & H).
    apply Ok_inj in H as <-. eexists. reflexivity.
Qed.

Lemma robfit_keeps_kind (x y : data) :
  apply_method self origin "robfit" x = Ok y -> reshaped x y.
Proof.
  unfold apply_method. simpl. apply robust_fitting_shape.
Qed.

End Kinds.

(** C4 (as the code has it): with SciPy results of the documented shape,
    every branch of the method loop turns data on the rows of the frame (a
    Series on the frame's index, or an array of as many cells) into data on
    the rows of the frame; [EMA] itself returns a Series indexed by the
    distinct timestamps, one row each, which has the length of the frame
    exactly when no timestamp is repeated; and the column [anomaly_process]
    stores has the length of the frame.  The branches moving_average,
    rolling_mean and EMA hand on a Series; kalman, moving_average_diff,
    lowpass, FFT and wavelet an array without index; robfit data of the
    kind and index of its input. *)
Theorem length_and_index {scipy : SciPy} (self : StreamflowCleaner)
    (origin : origin_df) :
  SciPyShape scipy ->
  (forall method x y,
     on_frame origin x ->
     apply_method self origin method x = Ok y ->
     on_frame origin y) /\
  (forall x y,
     EMA origin x = Ok y ->
     exists s,
       y = DSeries s /\
       NoDup (index s) /\
       (forall l, In l (index s) <-> In l (map Time (TM origin))) /\
       (List.length s = List.length origin <-> NoDup (TM origin))) /\
  (forall methods name column,
     anomaly_process self origin methods = Ok (name, column) ->
     List.length column = List.length origin) /\
  (forall method x y,
     apply_method self origin method x = Ok y ->
     (In method series_valued_methods -> exists s, y = DSeries s) /\
     (In method array_methods -> exists a, y = DArray a) /\
     (method = "robfit"%string -> reshaped x y)).
Proof.
  intros Shape. split; [|split; [|split]].
  - intros method x y Hx H. now apply (apply_method_on_frame self origin method x).
  - apply EMA_shape.
  - intros methods name column H.
    now destruct (anomaly_process_column self origin methods H)
      as (_ & _ & Hlen & _).
  - intros method x y H. split; [|split].
    + intros Hin.
      apply (@series_method_returns_series scipy self origin method x y Hin H).
    + intros Hin.
      apply (@array_method_returns_array scipy self origin method x y Hin H).
    + intros ->. apply (@robfit_keeps_kind scipy self origin x y H).
Qed.

Lemma length_and_index_witness :
  on_frame (hourly [fz 10; fz 20; fz 30])
    (DSeries (combine (RangeIndex 3) [fz 20; fz 20; fz 20])) /\
  List.length [fz 20; fz 20; fz 20]
    = List.length (hourly [fz 10; fz 20; fz 30]).
Proof.
  destruct (length_and_index (scipy := offline) (cleaner 3 1)
              (hourly [fz 10; fz 20; fz 30]) offline_shape)
    as (A & _ & C & _).
  split.
  - apply (A "moving_average"%string
             (DSeries (combine (RangeIndex 3) [fz 10; fz 20; fz 30]))).
    + reflexivity.
    + by_evaluation.
  - apply (C ["moving_average"%string] "moving_average"%string).
    by_evaluation.
Defined.

(** C4, counterexample: on a frame whose two rows carry the same timestamp,
    [EMA] returns one row, labelled by the timestamp, for an input of two
    rows; the EMA branch of the pipeline then raises. *)
Lemma EMA_drops_repeated_timestamps :
  EMA [(0%Z, fz 1); (0%Z, fz 2)]
      (DSeries (combine (RangeIndex 2) [fz 1; fz 2]))
    = Ok (DSeries [(Time 0, fz 3)]) /\
  List.length [(Time 0, fz 3)] <> List.length [(0%Z, fz 1); (0%Z, fz 2)] /\
  anomaly_process (scipy := offline) default_cleaner
    [(0%Z, fz 1); (0%Z, fz 2)] ["EMA"%string]
    = Raise ValueError.
Proof.
  split; [by_evaluation|]. split; [discriminate|].
  vm_compute. reflexivity.
Qed.

(** ** The adaptive window *)

Lemma next_window_update (threshold : fval) (min_window max_window
    decay_factor current_window : Z) (current_value : fval) :
  decay_factor <> 0%Z ->
  next_window threshold min_window max_window decay_factor current_window
    current_value
  = Ok (window_update threshold min_window max_window decay_factor
          current_window current_value).
Proof.
  intros H. unfold next_window, window_update.
  destruct (fgeb current_value threshold); [|reflexivity].
  destruct (Z.eqb_spec decay_factor 0); [contradiction | reflexivity].
Qed.

Lemma loc_absent (rows : list (Z * fval)) (t : Z) :
  ~ In t (map fst rows) -> loc (Time t) (time_series rows) = [].
Proof.
  induction rows as [|[t0 v0] rest IH]; simpl; intros H; [reflexivity|].
  unfold loc in *. simpl.
  destruct (Z.eqb_spec t0 t) as [->|Hne]; [tauto|].
  apply IH. tauto.
Qed.

(** In a Series without repeated timestamps each timestamp reads as the
    value of its row. *)
Lemma getitem_time_series (rows : list (Z * fval)) (t : Z) (v : fval) :
  NoDup (map fst rows) -> In (t, v) rows ->
  getitem (time_series rows) (Time t) = Ok v.
Proof.
  intros Hnd Hin. unfold getitem.
  replace (loc (Time t) (time_series rows)) with [v]; [reflexivity|].
  induction rows as [|[t0 v0] rest IH]; simpl in *; [contradiction|].
  inversion Hnd as [|? ? Hnotin Hrest]; subst.
  unfold loc. simpl. destruct Hin as [E|Hin].
  - injection E as -> ->. rewrite Z.eqb_refl. simpl. f_equal.
    symmetry. now apply loc_absent.
  - destruct (Z.eqb_spec t0 t) as [->|Hne].
    + exfalso. apply Hnotin. change t with (fst (t, v)). now apply in_map.
    + now apply IH.
Qed.

Lemma index_time_series (rows : list (Z * fval)) :
  index (time_series rows) = map Time (map fst rows).
Proof. unfold index, time_series. now rewrite !map_map. Qed.

Lemma hd_map_Time (t : Z) (ts : list Z) :
  hd (Time t) (map Time ts) = Time (hd t ts).
Proof. now destruct ts. Qed.

Lemma last_map_Time (t : Z) (ts : list Z) :
  last (map Time ts) (Time t) = Time (last ts t).
Proof.
  induction ts as [|a ts IH]; [reflexivity|].
  simpl. destruct ts; [reflexivity | exact IH].
Qed.

Lemma timestamps_map_Time (ts : list Z) : timestamps (map Time ts) = Some ts.
Proof.
  induction ts as [|t ts IH]; [reflexivity|]. simpl. now rewrite IH.
Qed.

Lemma monotonic_head (a : Z) (ts : list Z) :
  is_monotonic_increasing (a :: ts) = true ->
  Forall (fun x => (a <= x)%Z) ts /\ is_monotonic_increasing ts = true.
Proof.
  revert a. induction ts as [|b ts IH]; intros a H.
  - split; [constructor | reflexivity].
  - cbn [is_monotonic_increasing] in H.
    apply andb_prop in H as [Hab Hrest]. apply Z.leb_le in Hab.
    destruct (IH b Hrest) as [Hall _]. split; [|exact Hrest].
    constructor; [exact Hab|].
    eapply Forall_impl; [|exact Hall]. cbv beta. intros x Hx. lia.
Qed.

Lemma monotonic_distinct_ascending (ts : list Z) :
  is_monotonic_increasing ts = true -> NoDup ts -> ascending ts.
Proof.
  induction ts as [|a ts IH]; intros Hm Hnd; [exact I|].
  inversion Hnd as [|? ? Hnotin Hrest]; subst.
  destruct (monotonic_head a ts Hm) as [Hall Hm'].
  split; [|now apply IH].
  rewrite Forall_forall in *. intros x Hx.
  specialize (Hall x Hx).
  assert (a <> x) by (intros ->; contradiction). lia.
Qed.

Lemma locations_absent (t : Z) (ts : list Z) (i : nat) :
  ~ In t ts -> locations t ts i = [].
Proof.
  revert i. induction ts as [|x ts IH]; intros i H; [reflexivity|].
  cbn [locations]. destruct (Z.eqb_spec x t) as [->|_].
  - exfalso. apply H. now left.
  - apply IH. intros Hin. apply H. now right.
Qed.

Lemma count_none (p : Z -> bool) (ts : list Z) :
  Forall (fun x => p x = false) ts -> count p ts = 0.
Proof.
  unfold count. induction 1 as [|x ts Hx _ IH]; [reflexivity|].
  cbn [filter]. now rewrite Hx.
Qed.

Lemma count_cons (p : Z -> bool) (x : Z) (ts : list Z) :
  count p (x :: ts) = (if p x then 1 else 0) + count p ts.
Proof. unfold count. cbn [filter]. now destruct (p x). Qed.

(** On ascending timestamps a label that is there sits after the labels
    below it, and once. *)
Lemma locations_ascending (t : Z) (ts : list Z) :
  ascending ts -> In t ts ->
  forall i,
    locations t ts i = [i + count (fun x => (x <? t)%Z) ts] /\
    count (fun x => (x <=? t)%Z) ts = S (count (fun x => (x <? t)%Z) ts).
Proof.
  induction ts as [|x ts IH]; intros Hasc Hin i; [contradiction|].
  destruct Hasc as [Hall Hasc]. rewrite !count_cons. cbn [locations].
  destruct (Z.eqb_spec x t) as [->|Hne].
  - assert (Hnot : ~ In t ts).
    { intros H. rewrite Forall_forall in Hall. specialize (Hall t H). lia. }
    rewrite (@locations_absent t ts (S i) Hnot).
    rewrite (@count_none (fun y => (y <? t)%Z) ts),
      (@count_none (fun y => (y <=? t)%Z) ts).
    + rewrite Z.ltb_irrefl, Z.leb_refl. split; [f_equal; lia | reflexivity].
    + eapply Forall_impl; [|exact Hall]. cbv beta. intros y Hy.
      apply Z.leb_gt. lia.
    + eapply Forall_impl; [|exact Hall]. cbv beta. intros y Hy.
      apply Z.ltb_ge. lia.
  - destruct Hin as [E|Hin]; [contradiction|].
    destruct (IH Hasc Hin (S i)) as [Hloc Hcount].
    assert (Hlt : (x < t)%Z).
    { rewrite Forall_forall in Hall. now apply Hall. }
    destruct (Z.ltb_spec x t); [|lia]. destruct (Z.leb_spec x t); [|lia].
    rewrite Hloc, Hcount. split; [f_equal; lia | reflexivity].
Qed.

(** On ascending timestamps the two bounds of a slice are the number of
    labels below the start and the number of labels up to the end. *)
Lemma get_slice_bound_ascending (ts : list Z) (t : Z) (sd : side) :
  is_monotonic_increasing ts = true -> ascending ts ->
  get_slice_bound ts t sd = Ok (searchsorted ts t sd).
Proof.
  intros Hm Hasc. unfold get_slice_bound.
  destruct (in_dec Z.eq_dec t ts) as [Hin|Hnot].
  - destruct (locations_ascending t ts Hasc Hin 0) as [-> Hcount].
    cbn [last List.length Nat.add]. rewrite Nat.sub_diag. cbn [Nat.eqb].
    destruct sd; cbn [searchsorted]; [reflexivity | now rewrite Hcount].
  - rewrite (@locations_absent t ts 0 Hnot). unfold searchsorted_monotonic.
    now rewrite Hm.
Qed.

(** On ascending timestamps the rows between the two bounds are the rows
    whose time lies between the two labels. *)
Lemma slice_ascending (rows : list (Z * fval)) (lo hi : Z) :
  ascending (map fst rows) ->
  slice (count (fun x => (x <? lo)%Z) (map fst rows))
        (count (fun x => (x <=? hi)%Z) (map fst rows))
        (map snd rows)
  = time_window rows lo hi.
Proof.
  unfold time_window, slice.
  induction rows as [|[t v] rest IH]; intros Hasc; [reflexivity|].
  cbn [map fst snd] in *. destruct Hasc as [Hall Hasc].
  specialize (IH Hasc). rewrite !count_cons. cbn [filter fst].
  destruct (Z.ltb_spec t lo) as [Hlo|Hlo];
    destruct (Z.leb_spec t hi) as [Hhi|Hhi];
    destruct (Z.leb_spec lo t) as [Hlo'|Hlo']; try lia;
    cbn [andb Nat.add skipn map snd].
  - rewrite <- IH. reflexivity.
  - rewrite <- IH.
    rewrite (@count_none (fun x => (x <=? hi)%Z) (map fst rest)); [reflexivity|].
    eapply Forall_impl; [|exact Hall]. cbv beta. intros y Hy.
    apply Z.leb_gt. lia.
  - rewrite <- IH.
    rewrite (@count_none (fun x => (x <? lo)%Z) (map fst rest)).
    + cbn [skipn Nat.sub firstn map snd]. now rewrite Nat.sub_0_r.
    + eapply Forall_impl; [|exact Hall]. cbv beta. intros y Hy.
      apply Z.ltb_ge. lia.
  - rewrite <- IH.
    rewrite (@count_none (fun x => (x <=? hi)%Z) (map fst rest)); [reflexivity|].
    eapply Forall_impl; [|exact Hall]. cbv beta. intros y Hy.
    apply Z.leb_gt. lia.
Qed.

(** On a Series whose timestamps are in increasing order and distinct, the
    slice between two timestamps is the rows whose time lies between
    them. *)
Lemma slice_labels_time (rows : list (Z * fval)) (lo hi : Z) :
  is_monotonic_increasing (map fst rows) = true -> NoDup (map fst rows) ->
  slice_labels (time_series rows) (Time lo) (Time hi)
    = Ok (time_window rows lo hi).
Proof.
  intros Hm Hnd.
  pose proof (@monotonic_distinct_ascending (map fst rows) Hm Hnd) as Hasc.
  unfold slice_labels.
  rewrite index_time_series, timestamps_map_Time.
  rewrite !get_slice_bound_ascending by assumption. cbn [bind searchsorted].
  replace (values (time_series rows)) with (map snd rows)
    by (unfold values, time_series; now rewrite map_map).
  f_equal. now apply slice_ascending.
Qed.

(** The loop run on a part [todo] of the rows, from the position [i] and
    the width [current_window]: it returns, and the value for the row [j]
    of [todo] is the mean over the window the width at that row gives. *)
Lemma adaptive_loop_run (rows : list (Z * fval)) (threshold : fval)
    (min_window max_window decay_factor : Z) :
  is_monotonic_increasing (map fst rows) = true ->
  NoDup (map fst rows) -> decay_factor <> 0%Z ->
  forall todo i current_window,
    incl todo rows ->
    exists out,
      adaptive_loop (time_series rows) threshold min_window max_window
        decay_factor (map Time (map fst todo)) i current_window = Ok out /\
      forall j t v,
        nth_error todo j = Some (t, v) ->
        let w := fold_left
                   (window_update threshold min_window max_window decay_factor)
                   (firstn (S j) (map snd todo)) current_window in
        let half := (w / 2)%Z in
        let lo := if (Z.of_nat (i + j) <? half)%Z then hd t (map fst rows)
                  else (t - 3600 * half)%Z in
        let hi := if (Z.of_nat (i + j) + half >=? Z.of_nat (List.length rows))%Z
                  then last (map fst rows) t
                  else (t + 3600 * half)%Z in
        nth_error out j = Some (mean (time_window rows lo hi)).
Proof.
  intros Hm Hnd Hdecay todo.
  induction todo as [|[t0 v0] rest IH]; intros i w Hincl.
  - exists []. split; [reflexivity|]. intros [|j]; discriminate.
  - assert (Hin : In (t0, v0) rows) by (apply Hincl; now left).
    assert (Hrest : incl rest rows)
      by (intros p Hp; apply Hincl; now right).
    set (w' := window_update threshold min_window max_window decay_factor
                 w v0).
    destruct (IH (S i) w' Hrest) as (out & Hout & Hnth).
    cbn [map fst adaptive_loop].
    rewrite (@getitem_time_series rows t0 v0 Hnd Hin). cbn [bind].
    rewrite next_window_update by exact Hdecay. cbn [bind]. fold w'.
    rewrite index_time_series, hd_map_Time, last_map_Time.
    assert (Hlen : List.length (time_series rows) = List.length rows)
      by apply length_map.
    rewrite Hlen.
    set (half := (w' / 2)%Z).
    set (lo := if (Z.of_nat i <? half)%Z then hd t0 (map fst rows)
               else (t0 - 3600 * half)%Z).
    set (hi := if (Z.of_nat i + half >=? Z.of_nat (List.length rows))%Z
               then last (map fst rows) t0 else (t0 + 3600 * half)%Z).
    assert (Hs : (if (Z.of_nat i <? half)%Z
                  then Ok (Time (hd t0 (map fst rows)))
                  else add_hours (Time t0) (- half)) = Ok (Time lo)).
    { unfold lo. destruct (Z.of_nat i <? half)%Z; [reflexivity|].
      unfold add_hours. do 2 f_equal. lia. }
    assert (He : (if (Z.of_nat i + half >=? Z.of_nat (List.length rows))%Z
                  then Ok (Time (last (map fst rows) t0))
                  else add_hours (Time t0) half) = Ok (Time hi)).
    { unfold hi.
      destruct (Z.of_nat i + half >=? Z.of_nat (List.length rows))%Z;
        reflexivity. }
    rewrite Hs, He. cbn [bind].
    rewrite (@slice_labels_time rows lo hi Hm Hnd). cbn [bind].
    rewrite Hout. cbn [bind].
    eexists. split; [reflexivity|].
    intros [|j] t v Hj.
    + simpl in Hj. injection Hj as <- <-.
      cbn [map snd firstn fold_left nth_error]. fold w'. fold half.
      rewrite Nat.add_0_r. reflexivity.
    + simpl in Hj. cbn [nth_error].
      specialize (Hnth j t v Hj). cbn zeta in Hnth.
      rewrite Hnth. cbn [map snd firstn fold_left]. fold w'.
      replace (S i + j) with (i + S j) by lia. reflexivity.
Qed.

Lemma firstn_S_nth {A} (l : list A) (i : nat) (v : A) :
  nth_error l i = Some v -> firstn (S i) l = firstn i l ++ [v].
Proof.
  revert i. induction l as [|x l IH]; intros [|i]; simpl; try discriminate.
  - now intros [= ->].
  - intros H. f_equal. now apply IH.
Qed.

(** C5 (as the code has it): on a Series whose timestamps are distinct
    and in increasing order, with a non-zero decay factor,
    [adaptive_moving_average] returns one value per row.  Rows are taken
    in order; at each row the width becomes
    max(min_window, width // decay_factor) when the value is greater than
    or equal to the threshold, and min(max_window, width * decay_factor)
    otherwise (halved and doubled for the decay factor 2); and the value
    returned for the row is the mean of the rows whose time lies from
    (width // 2) hours before it to (width // 2) hours after it, the lower
    bound being the first timestamp when the position is below the half
    width and the upper bound the last timestamp when position plus half
    width reaches the length. *)
Theorem adaptive_window_rule (rows : list (Z * fval)) (threshold : fval)
    (initial_window min_window max_window decay_factor : Z) :
  is_monotonic_increasing (map fst rows) = true ->
  NoDup (map fst rows) -> decay_factor <> 0%Z ->
  exists out,
    adaptive_moving_average (DSeries (time_series rows)) threshold
      initial_window min_window max_window decay_factor
      = Ok (combine (index (time_series rows)) out) /\
    List.length out = List.length rows /\
    forall i t v,
      nth_error rows i = Some (t, v) ->
      let previous :=
        match i with
        | O => initial_window
        | S j => window_at threshold min_window max_window decay_factor
                   initial_window (map snd rows) j
        end in
      let w := window_at threshold min_window max_window decay_factor
                 initial_window (map snd rows) i in
      let half := (w / 2)%Z in
      let lo := if (Z.of_nat i <? half)%Z then hd t (map fst rows)
                else (t - 3600 * half)%Z in
      let hi := if (Z.of_nat i + half >=? Z.of_nat (List.length rows))%Z
                then last (map fst rows) t
                else (t + 3600 * half)%Z in
      w = (if fgeb v threshold
           then Z.max min_window (previous / decay_factor)
           else Z.min max_window (previous * decay_factor)) /\
      nth_error out i = Some (mean (time_window rows lo hi)).
Proof.
  intros Hm Hnd Hdecay.
  destruct (adaptive_loop_run threshold min_window max_window Hm Hnd Hdecay
              (todo := rows) 0 initial_window (incl_refl rows))
    as (out & Hout & Hnth).
  exists out. unfold adaptive_moving_average.
  rewrite index_time_series, Hout. cbn [bind].
  split; [reflexivity|]. split.
  - apply adaptive_loop_length in Hout. now rewrite Hout, !length_map.
  - intros i t v Hi. cbn zeta. split.
    + unfold window_at.
      assert (Hv : nth_error (map snd rows) i = Some v)
        by now rewrite nth_error_map, Hi.
      rewrite (firstn_S_nth _ _ Hv), fold_left_app. cbn [fold_left].
      unfold window_update at 1. destruct i; reflexivity.
    + specialize (Hnth i t v Hi). cbn zeta in Hnth.
      rewrite Nat.add_0_l in Hnth. exact Hnth.
Qed.

Lemma adaptive_window_rule_witness :
  exists out,
    adaptive_moving_average
      (DSeries (time_series [(0%Z, fz 100); (3600%Z, fz 0); (7200%Z, fz 0)]))
      (fz 100) 4 2 8 2
    = Ok (combine
            (index (time_series
                      [(0%Z, fz 100); (3600%Z, fz 0); (7200%Z, fz 0)]))
            out) /\
    List.length out = 3.
Proof.
  destruct (adaptive_window_rule
              [(0%Z, fz 100); (3600%Z, fz 0); (7200%Z, fz 0)]
              (fz 100) 4 2 8 (decay_factor := 2)) as (out & H1 & H2 & _).
  - reflexivity.
  - repeat constructor; simpl; intuition discriminate.
  - discriminate.
  - exists out. split; [exact H1 | exact H2].
Defined.

(** C5, counterexample: a value equal to the threshold does not exceed it,
    so the rule of the specification doubles the width (168 to 336), and
    the code halves it (168 to 84); on the rows [100, 0, 0] with threshold
    100 and widths 4 (initial), 2 (floor), 8 (ceiling) the first value
    returned is the mean 50 of the first two rows, where the rule of the
    specification would take the mean of all three. *)
Lemma threshold_value_halves :
  fgtb (fz 100) (fz 100) = false /\
  window_rule_spec (fz 100) 24 360 168 (fz 100) = 336%Z /\
  next_window (fz 100) 24 360 2 168 (fz 100) = Ok 84%Z /\
  adaptive_moving_average
    (DSeries (time_series [(0%Z, fz 100); (3600%Z, fz 0); (7200%Z, fz 0)]))
    (fz 100) 4 2 8 2
  = Ok (time_series [(0%Z, fz 50); (3600%Z, Fin (Q2Qc (100 # 3)));
                     (7200%Z, Fin (Q2Qc (100 # 3)))]) /\
  mean (time_window [(0%Z, fz 100); (3600%Z, fz 0); (7200%Z, fz 0)]
          0 (0 + 3600 * (window_rule_spec (fz 100) 2 8 4 (fz 100) / 2)))
  = Fin (Q2Qc (100 # 3)).
Proof.
  split; [reflexivity|]. split; [reflexivity|]. split; [reflexivity|].
  split.
  - match goal with
    | |- ?l = Ok ?r =>
        assert (E : same_series
                      (match l with Ok s => s | Raise _ => [] end) r = true)
          by (vm_compute; reflexivity);
        destruct l as [s|e] eqn:El; [|discriminate E];
        apply same_series_eq in E; now subst
    end.
  - by_evaluation.
Qed.

(** On timestamps that are not in order the window is the rows between
    the places of its two bounds, not the rows whose time lies between
    them: with the rows at 0h, 2h, 1h, 3h and a width of 2 throughout, the
    first value returned is the mean of the first three rows (the bound 1h
    is the third label), where the rows within an hour of 0h are the first
    and the third. *)
Lemma unordered_index_sliced_by_position :
  adaptive_moving_average
    (DSeries (time_series [(0%Z, fz 6); (7200%Z, fz 12); (3600%Z, fz 30);
                           (10800%Z, fz 60)]))
    (fz 100) 2 2 2 2
  = Ok (time_series [(0%Z, fz 16); (7200%Z, fz 45); (3600%Z, fz 9);
                     (10800%Z, fz 34)]) /\
  mean (time_window [(0%Z, fz 6); (7200%Z, fz 12); (3600%Z, fz 30);
                     (10800%Z, fz 60)] 0 3600)
  = fz 18.
Proof.
  split.
  - match goal with
    | |- ?l = Ok ?r =>
        assert (E : same_series
                      (match l with Ok s => s | Raise _ => [] end) r = true)
          by (vm_compute; reflexivity);
        destruct l as [s|e] eqn:El; [|discriminate E];
        apply same_series_eq in E; now subst
    end.
  - by_evaluation.
Qed.

(** * Further properties of the code *)

(** ** Order on the rationals of the float model *)

Lemma qltb_lt (a b : Qc) : qltb a b = true <-> (a < b)%Qc.
Proof.
  unfold qltb. rewrite Qclt_alt.
  destruct (a ?= b)%Qc; split; congruence.
Qed.

Lemma qltb_ge (a b : Qc) : qltb a b = false <-> (b <= a)%Qc.
Proof.
  split; intros H.
  - apply Qcnot_lt_le. intros L. apply qltb_lt in L. congruence.
  - destruct (qltb a b) eqn:E; [|reflexivity].
    apply qltb_lt in E. now apply Qcle_not_lt in H.
Qed.

Lemma this_plus (x y : Qc) : (this (x + y)%Qc == this x + this y)%Q.
Proof. apply Qred_correct. Qed.

Lemma this_opp (x : Qc) : (this (- x)%Qc == - this x)%Q.
Proof. apply Qred_correct. Qed.

Lemma this_mult (x y : Qc) : (this (x * y)%Qc == this x * this y)%Q.
Proof. apply Qred_correct. Qed.

Lemma this_div (x y : Qc) : (this (x / y)%Qc == this x / this y)%Q.
Proof.
  unfold Qcdiv. rewrite this_mult. unfold Qdiv.
  apply Qmult_comp; [reflexivity|]. apply Qred_correct.
Qed.

Lemma this_zero : (this (Q2Qc 0) == 0)%Q.
Proof. reflexivity. Qed.

Lemma this_eq (x y : Qc) : x = y -> (this x == this y)%Q.
Proof. now intros ->. Qed.

(** Move an order or an equation on [Qc] to [Q]. *)
Ltac to_Q :=
  repeat match goal with
         | H : (_ < _)%Qc |- _ => unfold Qclt in H
         | H : (_ <= _)%Qc |- _ => unfold Qcle in H
         | H : @eq Qc _ _ |- _ => apply this_eq in H
         | |- (_ < _)%Qc => unfold Qclt
         | |- (_ <= _)%Qc => unfold Qcle
         | |- @eq Qc _ _ => apply Qc_is_canon
         end;
  repeat match goal with
         | H : context [this (_ + _)%Qc] |- _ => rewrite this_plus in H
         | H : context [this (- _)%Qc] |- _ => rewrite this_opp in H
         | H : context [this (_ * _)%Qc] |- _ => rewrite this_mult in H
         | |- context [this (_ + _)%Qc] => rewrite this_plus
         | |- context [this (- _)%Qc] => rewrite this_opp
         | |- context [this (_ * _)%Qc] => rewrite this_mult
         end;
  change (this (Q2Qc 0)) with 0%Q in *.

Lemma fabs_fsub_sym (a b : fval) : fabs (fsub a b) = fabs (fsub b a).
Proof.
  destruct a as [x| | |], b as [y| | |]; try reflexivity.
  unfold fsub, fopp, fadd, fabs.
  destruct (qltb (x + - y) (Q2Qc 0)) eqn:E1;
    destruct (qltb (y + - x) (Q2Qc 0)) eqn:E2;
    f_equal.
  - apply qltb_lt in E1, E2. exfalso. to_Q. lra.
  - apply qltb_lt in E1. apply qltb_ge in E2. to_Q. lra.
  - apply qltb_ge in E1. apply qltb_lt in E2. to_Q. lra.
  - apply qltb_ge in E1, E2. to_Q. lra.
Qed.

(** ** clean_W *)

Lemma nth_map2 (f : fval -> fval -> fval) (xs ys : list fval) (i : nat) :
  List.length xs = List.length ys -> i < List.length xs ->
  nth i (map2 f xs ys) NaN = f (nth i xs NaN) (nth i ys NaN).
Proof.
  intros Hlen Hi. unfold map2.
  rewrite (nth_indep _ NaN (f NaN NaN))
    by (rewrite length_map, length_combine; lia).
  change (f NaN NaN)
    with ((fun p : fval * fval => f (fst p) (snd p)) (NaN, NaN)).
  rewrite map_nth, combine_nth by exact Hlen. reflexivity.
Qed.

Lemma length_shift_down (xs : list fval) :
  List.length (shift_down xs) = List.length xs.
Proof.
  destruct xs as [|x xs]; [reflexivity|].
  unfold shift_down. cbn [List.length]. rewrite removelast_firstn_len.
  rewrite length_firstn. cbn [List.length]. lia.
Qed.

Lemma length_shift_up (xs : list fval) :
  List.length (shift_up xs) = List.length xs.
Proof.
  destruct xs as [|x xs]; [reflexivity|].
  simpl. rewrite length_app. simpl. lia.
Qed.

Lemma nth_shift_down (xs : list fval) (i : nat) :
  i < List.length xs ->
  nth i (shift_down xs) NaN = match i with O => NaN | S j => nth j xs NaN end.
Proof.
  destruct xs as [|x xs]; [simpl; lia|]. intros Hi.
  unfold shift_down. destruct i as [|j]; [reflexivity|].
  cbn [nth]. rewrite removelast_firstn_len, nth_firstn.
  cbn [List.length] in *.
  destruct (Nat.ltb_spec j (Nat.pred (S (List.length xs)))); [reflexivity|].
  simpl in *. lia.
Qed.

Lemma nth_shift_up (xs : list fval) (i : nat) :
  i < List.length xs -> nth i (shift_up xs) NaN = nth (S i) xs NaN.
Proof.
  destruct xs as [|x xs]; [simpl; lia|]. simpl. intros Hi.
  destruct (Nat.lt_ge_cases i (List.length xs)).
  - now rewrite app_nth1.
  - rewrite app_nth2 by lia. replace (i - List.length xs) with 0 by lia.
    rewrite (nth_overflow xs) by lia. reflexivity.
Qed.

Lemma far_sym (a b : fval) : far a b = far b a.
Proof. unfold far. now rewrite fabs_fsub_sym. Qed.

Lemma far_nan_l (b : fval) : far NaN b = false.
Proof. reflexivity. Qed.

Lemma far_nan_r (a : fval) : far a NaN = false.
Proof. now destruct a. Qed.

Lemma length_set_nan (W : list fval) :
  List.length (set_nan W) = List.length W.
Proof.
  unfold set_nan.
  rewrite length_map, length_combine, !length_map2, length_shift_down,
    length_shift_up.
  lia.
Qed.

Lemma length_clean_W (W : list fval) :
  List.length (clean_W W) = List.length W.
Proof.
  unfold clean_W, set_nan_where.
  rewrite length_map, length_combine, length_set_nan. lia.
Qed.

(** The previous value of row [i], NaN for the first row. *)
Lemma set_nan_nth (W : list fval) (i : nat) :
  i < List.length W ->
  nth i (set_nan W) false
    = far (nth i W NaN) (match i with O => NaN | S j => nth j W NaN end)
      || far (nth i W NaN) (nth (S i) W NaN).
Proof.
  intros Hi. unfold set_nan.
  set (dp := map2 _ W (shift_down W)). set (dn := map2 _ W (shift_up W)).
  assert (Hdp : List.length dp = List.length W)
    by (unfold dp; rewrite length_map2, length_shift_down; lia).
  assert (Hdn : List.length dn = List.length W)
    by (unfold dn; rewrite length_map2, length_shift_up; lia).
  set (g := fun p : fval * fval =>
              fgtb (fst p) (fz 200) || fgtb (snd p) (fz 200)).
  transitivity (nth i (map g (combine dp dn)) (g (NaN, NaN)));
    [reflexivity|].
  rewrite map_nth, combine_nth by lia. unfold g. cbn [fst snd].
  unfold dp, dn.
  rewrite !nth_map2
    by (rewrite ?length_shift_down, ?length_shift_up; auto).
  rewrite nth_shift_down, nth_shift_up by exact Hi. reflexivity.
Qed.

Lemma clean_W_nth (W : list fval) (i : nat) :
  i < List.length W ->
  nth i (clean_W W) NaN
    = if far (nth i W NaN) (match i with O => NaN | S j => nth j W NaN end)
         || far (nth i W NaN) (nth (S i) W NaN)
      then NaN else nth i W NaN.
Proof.
  intros Hi. unfold clean_W.
  rewrite nth_set_nan_where by apply length_set_nan.
  now rewrite set_nan_nth.
Qed.

(** X1: A jump of more than 200 between two consecutive rows sets [W] to NaN
    at both rows; a row neither of whose neighbours is more than 200 away
    keeps its value; and the column keeps its length. *)
Theorem clean_W_excises_both_rows (W : list fval) (i : nat) :
  S i < List.length W ->
  List.length (clean_W W) = List.length W /\
  (far (nth i W NaN) (nth (S i) W NaN) = true ->
   nth i (clean_W W) NaN = NaN /\ nth (S i) (clean_W W) NaN = NaN) /\
  (far (nth i W NaN) (nth (S i) W NaN) = false ->
   far (nth (S i) W NaN) (nth (S (S i)) W NaN) = false ->
   nth (S i) (clean_W W) NaN = nth (S i) W NaN).
Proof.
  intros Hi. split; [apply length_clean_W|]. split.
  - intros Hfar. split.
    + rewrite clean_W_nth by lia. rewrite Hfar, orb_true_r. reflexivity.
    + rewrite clean_W_nth by lia. rewrite far_sym, Hfar. reflexivity.
  - intros H1 H2. rewrite clean_W_nth by lia.
    now rewrite far_sym, H1, H2.
Qed.

Lemma clean_W_excises_both_rows_witness :
  nth 1 (clean_W [fz 100; fz 110; fz 400; fz 410]) NaN = NaN /\
  nth 2 (clean_W [fz 100; fz 110; fz 400; fz 410]) NaN = NaN.
Proof.
  apply (@clean_W_excises_both_rows [fz 100; fz 110; fz 400; fz 410] 1).
  - simpl. lia.
  - reflexivity.
Defined.

(** A column without far neighbours is left as it is. *)
Lemma clean_W_smooth (W : list fval) :
  (forall i, far (nth i W NaN) (nth (S i) W NaN) = false) ->
  clean_W W = W.
Proof.
  intros H. apply (nth_ext _ _ NaN NaN); [apply length_clean_W|].
  intros i Hi. rewrite length_clean_W in Hi.
  rewrite clean_W_nth by exact Hi. rewrite H.
  destruct i as [|j]; [now rewrite far_nan_r|].
  now rewrite far_sym, H.
Qed.

Lemma far_not_nan (a b : fval) :
  far a b = true -> isnan a = false /\ isnan b = false.
Proof. destruct a, b; simpl; try discriminate; auto. Qed.

(** X2: [clean_W] leaves unchanged a column in which no two consecutive values
    differ by more than 200, and its result is such a column: applying it a
    second time changes nothing. *)
Theorem clean_W_idempotent (W : list fval) :
  ((forall i, far (nth i W NaN) (nth (S i) W NaN) = false) ->
   clean_W W = W) /\
  (forall i,
     far (nth i (clean_W W) NaN) (nth (S i) (clean_W W) NaN) = false) /\
  clean_W (clean_W W) = clean_W W.
Proof.
  assert (Hsmooth : forall i,
    far (nth i (clean_W W) NaN) (nth (S i) (clean_W W) NaN) = false).
  { intros i.
    destruct (far (nth i (clean_W W) NaN) (nth (S i) (clean_W W) NaN))
      eqn:E; [|reflexivity].
    exfalso. destruct (far_not_nan _ _ E) as [Ha Hb].
    destruct (Nat.lt_ge_cases (S i) (List.length W)) as [Hi|Hi].
    2:{ rewrite (nth_overflow (clean_W W)) in Hb
          by (rewrite length_clean_W; lia). discriminate. }
    rewrite (clean_W_nth W (i := i)) in E, Ha by lia.
    rewrite (clean_W_nth W (i := S i)) in E, Hb by lia.
    destruct (far (nth i W NaN) (nth (S i) W NaN)) eqn:F.
    - rewrite orb_true_r in Ha. discriminate.
    - destruct (_ || _) in E, Ha; [discriminate|].
      destruct (_ || _) in E, Hb; [discriminate|].
      congruence. }
  split; [apply clean_W_smooth|]. split; [exact Hsmooth|].
  now apply clean_W_smooth.
Qed.

Lemma clean_W_idempotent_witness :
  clean_W [fz 100; fz 110; fz 120] = [fz 100; fz 110; fz 120].
Proof.
  apply (proj1 (clean_W_idempotent [fz 100; fz 110; fz 120])).
  intros i. do 3 (destruct i as [|i]; [reflexivity|]).
  simpl. now destruct i.
Defined.

(** ** back_calculation at its edges *)

Lemma length_INQ_ACC (rows : list BasinRecord) :
  List.length (INQ_ACC rows) = List.length rows.
Proof.
  unfold INQ_ACC.
  rewrite length_map, !length_combine, !length_map.
  destruct rows as [|x xs]; [reflexivity|]. simpl.
  rewrite !length_map, !length_combine, !length_map. simpl.
  rewrite !length_map. lia.
Qed.

(** The derived inflow of the second of two consecutive rows. *)
Lemma INQ_ACC_next (rows : list BasinRecord) (i : nat) (a b : BasinRecord) :
  nth_error rows i = Some a -> nth_error rows (S i) = Some b ->
  nth_error (INQ_ACC rows) (S i) =
    Some (fadd (rOTQ b)
            (fmul (fz (10 ^ 6))
               (fdiv (fsub (rW b) (rW a)) (fz (rTM b - rTM a))))).
Proof.
  intros Ha Hb.
  destruct rows as [|r0 rest]; [destruct i; discriminate|].
  unfold INQ_ACC.
  rewrite nth_error_map, !nth_error_combine, nth_error_map, Hb.
  cbn [map diff Time_Diff nth_error].
  rewrite !nth_error_map, !nth_error_combine, !nth_error_map.
  change (rW r0 :: map rW rest) with (map rW (r0 :: rest)).
  change (rTM r0 :: map rTM rest) with (map rTM (r0 :: rest)).
  rewrite !nth_error_map, Ha. simpl in Hb. rewrite Hb. reflexivity.
Qed.

Lemma INQ_ACC_first (r0 : BasinRecord) (rest : list BasinRecord) :
  nth_error (INQ_ACC (r0 :: rest)) 0 = Some NaN.
Proof.
  unfold INQ_ACC. cbn [map diff Time_Diff combine nth_error fst snd].
  f_equal. now destruct (rOTQ r0).
Qed.

(** The row [back_calculation] writes at a position, from the row read
    there and its derived inflow. *)
Lemma back_calculation_nth (rows : list BasinRecord) (j : nat)
    (r : BasinRecord) (acc : fval) :
  nth_error rows j = Some r -> nth_error (INQ_ACC rows) j = Some acc ->
  nth_error (back_calculation rows) j =
    Some {| rTM := rTM r;
            rINQ := if isnan (rINQ r) then acc else rINQ r;
            rW := rW r; rOTQ := rOTQ r |}.
Proof.
  intros Hr Hacc. unfold back_calculation.
  rewrite nth_error_map, nth_error_combine, Hr.
  rewrite (@nth_error_fillna (map rINQ rows) (INQ_ACC rows) j (rINQ r) acc).
  - reflexivity.
  - now rewrite nth_error_map, Hr.
  - exact Hacc.
Qed.

Lemma fadd_nan_r (a : fval) : fadd a NaN = NaN.
Proof. now destruct a. Qed.

Lemma fmul_nan_r (a : fval) : fmul a NaN = NaN.
Proof. now destruct a. Qed.

(** X3: The first row never has a derived inflow: whatever the frame, its
    [INQ_ACC] is NaN and it is written with the INQ it was read with.  And
    a missing storage value gives no derived inflow at its own row nor at
    the next one: for two consecutive rows one of which has [W] missing,
    the derived inflow of the second is NaN, and its INQ, when missing,
    stays missing. *)
Theorem back_calculation_skips_missing_storage (rows : list BasinRecord) :
  (forall first,
     nth_error rows 0 = Some first ->
     nth_error (INQ_ACC rows) 0 = Some NaN /\
     nth_error (back_calculation rows) 0 = Some first) /\
  (forall i a b,
     nth_error rows i = Some a -> nth_error rows (S i) = Some b ->
     isnan (rW a) = true \/ isnan (rW b) = true ->
     nth_error (INQ_ACC rows) (S i) = Some NaN /\
     (isnan (rINQ b) = true ->
      option_map rINQ (nth_error (back_calculation rows) (S i))
      = Some NaN)).
Proof.
  split.
  - intros first H0. destruct rows as [|r0 rest]; [discriminate|].
    injection H0 as ->. split; [apply INQ_ACC_first|].
    rewrite (@back_calculation_nth (first :: rest) 0 first NaN eq_refl
               (INQ_ACC_first first rest)).
    f_equal. destruct first as [t q w o]. simpl.
    now destruct q.
  - intros i a b Ha Hb Hnan.
    assert (Hacc : nth_error (INQ_ACC rows) (S i) = Some NaN).
    { rewrite (@INQ_ACC_next rows i a b Ha Hb).
      assert (E : fsub (rW b) (rW a) = NaN).
      { destruct Hnan as [H|H]; destruct (rW a), (rW b);
          try discriminate; reflexivity. }
      rewrite E. cbn [fdiv]. now rewrite fmul_nan_r, fadd_nan_r. }
    split; [exact Hacc|].
    intros Hinq. rewrite (@back_calculation_nth rows (S i) b NaN Hb Hacc).
    simpl. now rewrite Hinq.
Qed.

Lemma back_calculation_skips_missing_storage_witness :
  nth_error
    (INQ_ACC [ {| rTM := 0; rINQ := fz 3; rW := fz 100; rOTQ := fz 5 |};
               {| rTM := 3600; rINQ := NaN; rW := NaN; rOTQ := fz 7 |} ]) 1
  = Some NaN.
Proof.
  apply (proj1
           (proj2 (back_calculation_skips_missing_storage
                     [ {| rTM := 0; rINQ := fz 3; rW := fz 100;
                          rOTQ := fz 5 |};
                       {| rTM := 3600; rINQ := NaN; rW := NaN;
                          rOTQ := fz 7 |} ])
              0
              {| rTM := 0; rINQ := fz 3; rW := fz 100; rOTQ := fz 5 |}
              {| rTM := 3600; rINQ := NaN; rW := NaN; rOTQ := fz 7 |}
              eq_refl eq_refl (or_intror eq_refl))).
Defined.

Lemma fadd_not_finite_r (a b : fval) :
  isfinite b = false -> isfinite (fadd a b) = false.
Proof. destruct a, b; simpl; intros H; try reflexivity; discriminate. Qed.

(** X4: Two consecutive rows with the same timestamp divide the storage
    difference by zero: the derived inflow of the second row is infinite or
    NaN, never a number, and that is what is written when its INQ is
    missing. *)
Theorem back_calculation_repeated_timestamp (rows : list BasinRecord)
    (i : nat) (a b : BasinRecord) :
  nth_error rows i = Some a -> nth_error rows (S i) = Some b ->
  rTM a = rTM b ->
  exists acc,
    nth_error (INQ_ACC rows) (S i) = Some acc /\
    isfinite acc = false /\
    (isnan (rINQ b) = true ->
     option_map rINQ (nth_error (back_calculation rows) (S i)) = Some acc).
Proof.
  intros Ha Hb Ht. eexists. split; [apply (@INQ_ACC_next rows i a b Ha Hb)|].
  rewrite Ht, Z.sub_diag. split.
  - apply fadd_not_finite_r, fmul_not_finite_r, fdiv_by_zero.
  - intros Hinq.
    rewrite (@back_calculation_nth rows (S i) b _ Hb
               (@INQ_ACC_next rows i a b Ha Hb)).
    simpl. now rewrite Hinq, Ht, Z.sub_diag.
Qed.

Lemma back_calculation_repeated_timestamp_witness :
  exists acc,
    nth_error
      (INQ_ACC [ {| rTM := 0; rINQ := NaN; rW := fz 100; rOTQ := fz 5 |};
                 {| rTM := 0; rINQ := NaN; rW := fz 136; rOTQ := fz 7 |} ]) 1
    = Some acc /\ isfinite acc = false.
Proof.
  destruct (@back_calculation_repeated_timestamp
              [ {| rTM := 0; rINQ := NaN; rW := fz 100; rOTQ := fz 5 |};
                {| rTM := 0; rINQ := NaN; rW := fz 136; rOTQ := fz 7 |} ]
              0
              {| rTM := 0; rINQ := NaN; rW := fz 100; rOTQ := fz 5 |}
              {| rTM := 0; rINQ := NaN; rW := fz 136; rOTQ := fz 7 |}
              eq_refl eq_refl eq_refl) as (acc & H1 & H2 & _).
  exists acc. now split.
Defined.

(** ** delete_nan_inq *)

Lemma assign_where_map (mask : fval -> bool) (f : fval -> fval)
    (window : list fval) :
  DeleteNanInq.assign_where mask window (map f (filter mask window))
    = map (fun v => if mask v then f v else v) window.
Proof.
  induction window as [|v rest IH]; [reflexivity|].
  simpl. destruct (mask v); simpl; now rewrite IH.
Qed.

Lemma assign_where_same (mask : fval -> bool) (window : list fval) :
  DeleteNanInq.assign_where mask window (filter mask window) = window.
Proof.
  rewrite <- (map_id (filter mask window)) at 1.
  rewrite assign_where_map. rewrite <- (map_id window) at 2.
  apply map_ext. intros v. now destruct (mask v).
Qed.

(** The shape of the result of [adjust_window]: each value is replaced by
    its adjusted value when it is positive, and then by 0 when it is not
    above 0. *)
Lemma adjust_window_map (window : list fval) :
  exists g : fval -> fval,
    DeleteNanInq.adjust_window window
      = if Nat.eqb (List.length (dropna window)) 0 then window
        else map (fun v =>
                    let v' := if fgtb v (fz 0) then g v else v in
                    if fleb v' (fz 0) then fz 0 else v') window.
Proof.
  unfold DeleteNanInq.adjust_window.
  destruct (Nat.eqb (List.length (dropna window)) 0);
    [exists (fun v => v); reflexivity|].
  destruct (fgtb (fsum (dropna (filter (fun v => fgtb v (fz 0)) window)))
              (fz 0)).
  - eexists. rewrite assign_where_map, map_map. reflexivity.
  - exists (fun v => v). rewrite assign_where_same.
    apply map_ext. intros v. now destruct (fgtb v (fz 0)).
Qed.

Lemma fleb_false_not_lt (v : fval) :
  fleb v (fz 0) = false -> fltb v (fz 0) = false.
Proof. unfold fleb. now intros H%orb_false_iff. Qed.

Lemma dropna_all_nan (window : list fval) :
  List.length (dropna window) = 0 ->
  Forall (fun v => isnan v = true) window.
Proof.
  induction window as [|v rest IH]; simpl; [constructor|].
  destruct (isnan v) eqn:E; simpl; [|discriminate].
  intros H. constructor; auto.
Qed.

(** [adjust_window] keeps the length of the window, leaves a window with no
    observation as it is, keeps missing values missing, and returns no
    negative value. *)
Lemma adjust_window_nonneg (window : list fval) :
  List.length (DeleteNanInq.adjust_window window) = List.length window /\
  Forall (fun v => fltb v (fz 0) = false)
    (DeleteNanInq.adjust_window window) /\
  (forall i, isnan (nth i window NaN) = true ->
     nth i (DeleteNanInq.adjust_window window) NaN = NaN).
Proof.
  destruct (adjust_window_map window) as [g ->].
  destruct (Nat.eqb_spec (List.length (dropna window)) 0) as [E|E].
  - split; [reflexivity|]. split.
    + apply dropna_all_nan in E. eapply Forall_impl; [|exact E].
      intros v Hv. now destruct v.
    + intros i Hi. now destruct (nth i window NaN).
  - split; [apply length_map|]. split.
    + apply Forall_map, Forall_forall. intros v _. cbv zeta.
      destruct (fleb _ (fz 0)) eqn:F; [reflexivity|].
      now apply fleb_false_not_lt.
    + intros i Hi.
      set (h := fun v : fval =>
                  let v' := if fgtb v (fz 0) then g v else v in
                  if fleb v' (fz 0) then fz 0 else v').
      transitivity (nth i (map h window) (h NaN)); [reflexivity|].
      rewrite map_nth.
      destruct (nth i window NaN); try discriminate. reflexivity.
Qed.

Lemma qsum_positives_negatives (qs : list Qc) :
  qsum qs = (qsum (positives qs) + qsum (negatives qs))%Qc.
Proof.
  induction qs as [|q qs IH]; simpl; [ring|].
  unfold positives, negatives in *. simpl.
  destruct (qltb (Q2Qc 0) q) eqn:E1; destruct (qltb q (Q2Qc 0)) eqn:E2;
    simpl; rewrite IH; try ring.
  - apply qltb_lt in E1, E2. exfalso. to_Q. lra.
  - apply qltb_ge in E1, E2. assert (q = Q2Qc 0) by (to_Q; lra).
    subst. ring.
Qed.

Lemma qsum_positives_nonneg (qs : list Qc) :
  (Q2Qc 0 <= qsum (positives qs))%Qc /\
  (positives qs <> [] -> Q2Qc 0 < qsum (positives qs))%Qc.
Proof.
  unfold positives. induction qs as [|q qs [IH1 IH2]]; simpl.
  - split; [to_Q; lra | congruence].
  - destruct (qltb (Q2Qc 0) q) eqn:E; [|now split].
    apply qltb_lt in E. simpl. split; [|intros _]; to_Q; lra.
Qed.

Lemma qsum_negatives_nonpos (qs : list Qc) :
  (qsum (negatives qs) <= Q2Qc 0)%Qc.
Proof.
  unfold negatives. induction qs as [|q qs IH]; simpl.
  - to_Q. lra.
  - destruct (qltb q (Q2Qc 0)) eqn:E; [|exact IH].
    apply qltb_lt in E. simpl. to_Q. lra.
Qed.

Lemma qsum_zero (qs : list Qc) :
  qsum (map (fun _ => Q2Qc 0) qs) = Q2Qc 0.
Proof. induction qs as [|q qs IH]; simpl; [reflexivity | rewrite IH; ring]. Qed.

Lemma qsum_scaled_positives (k : Qc) (qs : list Qc) :
  qsum (map (fun q => if qltb (Q2Qc 0) q then (q * k)%Qc else Q2Qc 0) qs)
    = (qsum (positives qs) * k)%Qc.
Proof.
  unfold positives. induction qs as [|q qs IH]; simpl; [ring|].
  destruct (qltb (Q2Qc 0) q); simpl; rewrite IH; ring.
Qed.

Lemma qle_cases (x : Qc) (P : Prop) :
  ((x < Q2Qc 0)%Qc -> P) -> ((Q2Qc 0 <= x)%Qc -> P) -> P.
Proof. intros H1 H2. destruct (Qclt_le_dec x (Q2Qc 0)); auto. Qed.

(** With the adjustment factor |sum of the negatives| / sum of the
    positives, the adjusted values add up to the sum of the window when
    that sum is not negative, and are all zero when it is. *)
Lemma adjusted_sum (qs : list Qc) :
  positives qs <> [] ->
  let c := (- qsum (negatives qs) / qsum (positives qs))%Qc in
  qsum (map (adjusted c) qs)
    = if qltb (qsum qs) (Q2Qc 0) then Q2Qc 0 else qsum qs.
Proof.
  intros Hpos c.
  destruct (qsum_positives_nonneg qs) as [_ HSP]. specialize (HSP Hpos).
  pose proof (qsum_negatives_nonpos qs) as HSN.
  pose proof (qsum_positives_negatives qs) as Hsum.
  set (SP := qsum (positives qs)) in *. set (SN := qsum (negatives qs)) in *.
  assert (HSP0 : SP <> Q2Qc 0).
  { intros E. rewrite E in HSP. to_Q. lra. }
  set (k := (Q2Qc 1 + - c)%Qc).
  assert (Hk : (k * SP = SP + SN)%Qc).
  { unfold k, c. field. exact HSP0. }
  assert (Hq' : forall q, (q + - (q * c) = q * k)%Qc)
    by (intros q; unfold k; ring).
  destruct (qltb (qsum qs) (Q2Qc 0)) eqn:E.
  - apply qltb_lt in E.
    assert (Hkneg : (k < Q2Qc 0)%Qc).
    { rewrite Hsum in E. rewrite <- Hk in E. to_Q. nra. }
    rewrite <- (qsum_zero qs). f_equal. apply map_ext. intros q.
    unfold adjusted. rewrite Hq'.
    destruct (qltb (Q2Qc 0) q) eqn:Eq.
    + apply qltb_lt in Eq.
      assert (L : (q * k < Q2Qc 0)%Qc) by (to_Q; nra).
      apply qltb_lt in L. now rewrite L.
    + apply qltb_ge in Eq.
      destruct (qltb q (Q2Qc 0)) eqn:E1; [reflexivity|].
      apply qltb_ge in E1. assert (q = Q2Qc 0) by (to_Q; lra).
      subst. reflexivity.
  - apply qltb_ge in E.
    assert (Hkpos : (Q2Qc 0 <= k)%Qc).
    { rewrite Hsum in E. rewrite <- Hk in E. to_Q. nra. }
    rewrite Hsum, <- Hk, Qcmult_comm. unfold SP.
    rewrite <- qsum_scaled_positives.
    f_equal. apply map_ext. intros q.
    unfold adjusted. rewrite Hq'.
    destruct (qltb (Q2Qc 0) q) eqn:Eq.
    + apply qltb_lt in Eq.
      destruct (qltb (q * k) (Q2Qc 0)) eqn:E1.
      * apply qltb_lt in E1. exfalso. to_Q. nra.
      * destruct (qeqb (q * k) (Q2Qc 0)) eqn:E2; [|reflexivity].
        apply qeqb_eq in E2. now rewrite E2.
    + apply qltb_ge in Eq.
      destruct (qltb q (Q2Qc 0)) eqn:E1; [reflexivity|].
      apply qltb_ge in E1. assert (q = Q2Qc 0) by (to_Q; lra).
      subst. reflexivity.
Qed.

Lemma filter_positive_Fin (qs : list Qc) :
  filter (fun v => fgtb v (fz 0)) (map Fin qs) = map Fin (positives qs).
Proof.
  unfold positives. induction qs as [|q qs IH]; [reflexivity|].
  cbn [map filter]. change (fgtb (Fin q) (fz 0)) with (qltb (Q2Qc 0) q).
  destruct (qltb (Q2Qc 0) q); cbn [map]; now rewrite IH.
Qed.

Lemma filter_negative_Fin (qs : list Qc) :
  filter (fun v => fltb v (fz 0)) (map Fin qs) = map Fin (negatives qs).
Proof.
  unfold negatives. induction qs as [|q qs IH]; [reflexivity|].
  cbn [map filter]. change (fltb (Fin q) (fz 0)) with (qltb q (Q2Qc 0)).
  destruct (qltb q (Q2Qc 0)); cbn [map]; now rewrite IH.
Qed.

Lemma fsum_dropna_Fin (qs : list Qc) :
  fsum (dropna (map Fin qs)) = Fin (qsum qs).
Proof.
  rewrite dropna_finite by apply finite_of_map_Fin. apply fsum_map_Fin.
Qed.

Lemma positives_empty (qs : list Qc) (q : Qc) :
  positives qs = [] -> In q qs -> qltb (Q2Qc 0) q = false.
Proof.
  intros He Hin. destruct (qltb (Q2Qc 0) q) eqn:E; [|reflexivity].
  assert (Hp : In q (positives qs)) by (apply filter_In; now split).
  rewrite He in Hp. contradiction.
Qed.

(** [adjust_window] on a window of finite values, as a map on the
    rationals. *)
Lemma adjust_window_finite (qs : list Qc) :
  let c := (- qsum (negatives qs) / qsum (positives qs))%Qc in
  DeleteNanInq.adjust_window (map Fin qs) = map Fin (map (adjusted c) qs).
Proof.
  intros c. unfold DeleteNanInq.adjust_window.
  rewrite dropna_finite by apply finite_of_map_Fin. rewrite length_map.
  destruct (Nat.eqb_spec (List.length qs) 0) as [E0|_].
  { destruct qs; [reflexivity | discriminate]. }
  rewrite filter_positive_Fin, filter_negative_Fin, !fsum_dropna_Fin.
  pose proof (qsum_negatives_nonpos qs) as HSN.
  destruct (qsum_positives_nonneg qs) as [HSP0 HSP].
  assert (Habs : fabs (Fin (qsum (negatives qs)))
                 = Fin (- qsum (negatives qs))).
  { unfold fabs. destruct (qltb _ (Q2Qc 0)) eqn:E; [reflexivity|].
    apply qltb_ge in E. f_equal. to_Q. lra. }
  rewrite Habs.
  change (fgtb (Fin (qsum (positives qs))) (fz 0))
    with (qltb (Q2Qc 0) (qsum (positives qs))).
  destruct (qltb (Q2Qc 0) (qsum (positives qs))) eqn:E.
  - apply qltb_lt in E.
    assert (Hne : qeqb (qsum (positives qs)) (Q2Qc 0) = false).
    { apply qeqb_neq. intros H0. rewrite H0 in E. to_Q. lra. }
    unfold fdiv. rewrite Hne. fold c.
    rewrite <- filter_positive_Fin, assign_where_map, !map_map.
    apply map_ext. intros q. unfold adjusted.
    change (fgtb (Fin q) (fz 0)) with (qltb (Q2Qc 0) q).
    destruct (qltb (Q2Qc 0) q);
      unfold fsub, fmul, fopp, fadd, fleb, fltb, feqb, fz;
      change (qz 0) with (Q2Qc 0);
      match goal with |- context [qltb ?a ?b || qeqb ?a ?b] =>
        destruct (qltb a b || qeqb a b) end; reflexivity.
  - apply qltb_ge in E.
    assert (Hemp : positives qs = []).
    { destruct (list_eq_dec Qc_eq_dec (positives qs) []) as [He|Hn];
        [exact He|].
      specialize (HSP Hn). exfalso. to_Q. lra. }
    rewrite <- filter_positive_Fin, assign_where_same, !map_map.
    apply map_ext_in. intros q Hin. unfold adjusted.
    rewrite (@positives_empty qs q Hemp Hin).
    unfold fleb, fltb, feqb, fz. change (qz 0) with (Q2Qc 0).
    destruct (qltb q (Q2Qc 0) || qeqb q (Q2Qc 0)); reflexivity.
Qed.

(** X5: On a window of finite values [adjust_window] returns finite values
    whose sum is the sum of the window when that sum is not negative, and 0
    when it is: the negative values are taken off the positive ones in
    proportion, and what cannot be taken off is dropped. *)
Theorem adjust_window_conserves (window : list fval) :
  finite window ->
  finite (DeleteNanInq.adjust_window window) /\
  Forall (fun v => fltb v (fz 0) = false)
    (DeleteNanInq.adjust_window window) /\
  fsum (DeleteNanInq.adjust_window window)
    = if fltb (fsum window) (fz 0) then fz 0 else fsum window.
Proof.
  intros Hfin. destruct (finite_map_Fin Hfin) as [qs ->].
  split; [|split].
  - rewrite adjust_window_finite. apply finite_of_map_Fin.
  - apply adjust_window_nonneg.
  - rewrite adjust_window_finite, !fsum_map_Fin.
    change (fltb (Fin (qsum qs)) (fz 0)) with (qltb (qsum qs) (Q2Qc 0)).
    destruct (list_eq_dec Qc_eq_dec (positives qs) []) as [Ep|Hn].
    + assert (Hz : map (adjusted
                          (- qsum (negatives qs) / qsum (positives qs))%Qc) qs
                   = map (fun _ => Q2Qc 0) qs).
      { apply map_ext_in. intros q Hin. unfold adjusted.
        rewrite (@positives_empty qs q Ep Hin).
        destruct (qltb q (Q2Qc 0)) eqn:E1; [reflexivity|].
        destruct (qeqb q (Q2Qc 0)) eqn:E2; [reflexivity|].
        exfalso. apply qltb_ge in E1. apply qeqb_neq in E2.
        pose proof (@positives_empty qs q Ep Hin) as E3.
        apply qltb_ge in E3. apply E2. to_Q. lra. }
      rewrite Hz, qsum_zero.
      pose proof (qsum_positives_negatives qs) as Hsum.
      pose proof (qsum_negatives_nonpos qs) as HSN.
      rewrite Ep in Hsum. simpl in Hsum.
      destruct (qltb (qsum qs) (Q2Qc 0)) eqn:E; [reflexivity|].
      apply qltb_ge in E. unfold fz. f_equal.
      change (qz 0) with (Q2Qc 0). rewrite Hsum in *. to_Q. lra.
    + rewrite adjusted_sum by exact Hn.
      now destruct (qltb (qsum qs) (Q2Qc 0)).
Qed.

Lemma adjust_window_conserves_witness :
  fsum (DeleteNanInq.adjust_window (map fz [3; -1; 0; 1; -1]%Z))
    = fsum (map fz [3; -1; 0; 1; -1]%Z).
Proof.
  destruct (@adjust_window_conserves (map fz [3; -1; 0; 1; -1]%Z))
    as (_ & _ & H).
  - repeat constructor.
  - rewrite H. reflexivity.
Defined.

Lemma length_slice (start stop : nat) (xs : list fval) :
  stop <= List.length xs ->
  List.length (slice start stop xs) = stop - start.
Proof.
  intros H. unfold slice. rewrite length_firstn, length_skipn. lia.
Qed.

Lemma nth_slice (start stop : nat) (xs : list fval) (j : nat) :
  j < stop - start -> nth j (slice start stop xs) NaN = nth (start + j) xs NaN.
Proof.
  intros H. unfold slice. rewrite nth_firstn.
  destruct (Nat.ltb_spec j (stop - start)); [|lia]. apply nth_skipn.
Qed.

Lemma length_set_slice (start stop : nat) (new data : list fval) :
  start <= stop -> stop <= List.length data ->
  List.length new = stop - start ->
  List.length (set_slice start stop new data) = List.length data.
Proof.
  intros H1 H2 H3. unfold set_slice.
  rewrite !length_app, length_firstn, length_skipn. lia.
Qed.

Lemma nth_set_slice (start stop : nat) (new data : list fval) (j : nat) :
  start <= stop -> stop <= List.length data ->
  List.length new = stop - start ->
  nth j (set_slice start stop new data) NaN
    = if j <? start then nth j data NaN
      else if j <? stop then nth (j - start) new NaN
      else nth j data NaN.
Proof.
  intros H1 H2 H3. unfold set_slice.
  assert (Hf : List.length (firstn start data) = start)
    by (rewrite length_firstn; lia).
  destruct (Nat.ltb_spec j start).
  - rewrite app_nth1 by lia. rewrite nth_firstn.
    destruct (Nat.ltb_spec j start); [reflexivity | lia].
  - rewrite app_nth2 by lia. rewrite Hf.
    destruct (Nat.ltb_spec j stop).
    + rewrite app_nth1 by lia. reflexivity.
    + rewrite app_nth2 by lia. rewrite nth_skipn. f_equal. lia.
Qed.

Lemma window_step_passed (column df : list fval) (bound i : nat) :
  passed column bound df -> i <= bound -> bound <= i + 7 ->
  i + 7 <= List.length column ->
  passed column (i + 7)
    (set_slice i (i + 7)
       (DeleteNanInq.adjust_window (slice i (i + 7) df)) df).
Proof.
  intros (Hlen & Hneg & Hsame) Hi Hb Hn.
  destruct (adjust_window_nonneg (slice i (i + 7) df)) as (Hl & Hnn & _).
  rewrite length_slice in Hl by lia.
  assert (Hl' : List.length (DeleteNanInq.adjust_window (slice i (i + 7) df))
                = i + 7 - i) by lia.
  split; [|split].
  - rewrite length_set_slice; auto; lia.
  - intros j Hj. rewrite nth_set_slice by (auto; lia).
    destruct (Nat.ltb_spec j i); [apply Hneg; lia|].
    destruct (Nat.ltb_spec j (i + 7)); [|lia].
    rewrite Forall_forall in Hnn. apply Hnn. apply nth_In. lia.
  - intros j Hj. rewrite nth_set_slice by (auto; lia).
    destruct (Nat.ltb_spec j i); [lia|].
    destruct (Nat.ltb_spec j (i + 7)); [lia|].
    apply Hsame. lia.
Qed.

Lemma window_fold_passed (column : list fval) (m : nat) :
  forall a df,
    passed column (match a with O => 0 | S a' => a' * 4 + 7 end) df ->
    (m = 0 \/ (a + m - 1) * 4 + 7 <= List.length column) ->
    passed column (match a + m with O => 0 | S b => b * 4 + 7 end)
      (fold_left
         (fun df i =>
            set_slice i (i + 7)
              (DeleteNanInq.adjust_window (slice i (i + 7) df)) df)
         (map (fun k => k * 4) (seq a m)) df).
Proof.
  induction m as [|m IH]; intros a df Hp Hm.
  - now rewrite Nat.add_0_r.
  - cbn [seq map fold_left]. replace (a + S m) with (S a + m) by lia.
    destruct Hm as [Hm|Hm]; [discriminate|].
    apply IH.
    + replace (a * 4 + 7) with (a * 4 + 7) by reflexivity.
      apply (window_step_passed (bound := match a with
                                          | O => 0
                                          | S a' => a' * 4 + 7
                                          end)).
      * exact Hp.
      * destruct a; lia.
      * destruct a; lia.
      * lia.
    + destruct m; [now left | right; lia].
Qed.

(** X6: [delete_nan_inq] always returns, with a column of the same length.
    With fewer than 7 rows no window is formed and the column comes back as
    it is.  Otherwise the windows start every 4 rows and the last one ends
    at row [4 * ((n - 7) / 4) + 7]: below that row no value is negative, and
    from that row on the values are as they were. *)
Theorem delete_nan_inq_covers (column : list fval) :
  exists out,
    delete_nan_inq column = Ok out /\
    List.length out = List.length column /\
    (List.length column < 7 -> out = column) /\
    (7 <= List.length column ->
     let covered := 4 * ((List.length column - 7) / 4) + 7 in
     covered <= List.length column /\
     (forall j, j < covered -> fltb (nth j out NaN) (fz 0) = false) /\
     (forall j, covered <= j -> nth j out NaN = nth j column NaN)).
Proof.
  unfold delete_nan_inq, DeleteNanInq.rolling_with_stride. cbn [Nat.eqb].
  eexists. split; [reflexivity|].
  set (n := List.length column). unfold range0.
  set (m := (n + 1 - 7 + 4 - 1) / 4).
  assert (Hp0 : passed column 0 column).
  { split; [reflexivity|]. split; [intros j Hj; lia | reflexivity]. }
  destruct (Nat.lt_ge_cases n 7) as [Hn|Hn].
  - assert (Hm : m = 0).
    { unfold m. replace (n + 1 - 7 + 4 - 1) with 3 by lia. reflexivity. }
    rewrite Hm. cbn [seq map fold_left].
    split; [reflexivity|]. split; [reflexivity | lia].
  - assert (Hdiv : 4 * ((n - 7) / 4) <= n - 7)
      by (apply Nat.Div0.mul_div_le).
    assert (Hm : m = S ((n - 7) / 4)).
    { unfold m. replace (n + 1 - 7 + 4 - 1) with ((n - 7) + 1 * 4) by lia.
      rewrite Nat.div_add by lia. lia. }
    pose proof (@window_fold_passed column m 0 column Hp0) as Hf.
    rewrite Hm in *. cbn [Nat.add] in Hf.
    destruct Hf as (Hl & Hneg & Hsame); [right; fold n; lia|].
    split; [exact Hl|]. split; [lia|]. intros _.
    replace (4 * ((n - 7) / 4) + 7) with ((n - 7) / 4 * 4 + 7) by lia.
    split; [lia|]. split; assumption.
Qed.

Lemma delete_nan_inq_covers_witness :
  exists out,
    delete_nan_inq [fz 1; Fin (- qz 1); fz 2; fz 3; fz 4; fz 5; fz 6; fz 7]
      = Ok out /\
    forall j, j < 7 -> fltb (nth j out NaN) (fz 0) = false.
Proof.
  destruct (delete_nan_inq_covers
              [fz 1; Fin (- qz 1); fz 2; fz 3; fz 4; fz 5; fz 6; fz 7])
    as (out & H & _ & _ & Hc).
  exists out. split; [exact H|].
  destruct Hc as (_ & Hn & _); [simpl; lia|]. exact Hn.
Defined.

(** ** linear_interpolate on any column *)

(** [interpolate] keeps the observations where they are. *)
Lemma interpolate_from_keeps (xs : list fval) :
  forall prev gap j,
    isnan (nth j xs NaN) = false ->
    nth (gap + j) (interpolate_from prev gap xs) NaN = nth j xs NaN.
Proof.
  induction xs as [|x xs IH]; intros prev gap j Hj.
  - destruct j; discriminate.
  - cbn [interpolate_from]. destruct (isnan x) eqn:Ex.
    + destruct j as [|j]; [simpl in Hj; congruence|].
      replace (gap + S j) with (S gap + j) by lia. now apply IH.
    + set (block := match prev with
                    | Some a => ramp a x gap
                    | None => repeat NaN gap
                    end).
      assert (Hb : List.length block = gap).
      { unfold block. destruct prev;
          [apply length_ramp | apply repeat_length]. }
      rewrite app_nth2 by lia. rewrite Hb.
      replace (gap + j - gap) with j by lia.
      destruct j as [|j]; [reflexivity|].
      cbn [nth]. apply (IH (Some x) 0 j). exact Hj.
Qed.

Lemma interpolate_keeps (xs : list fval) (j : nat) :
  isnan (nth j xs NaN) = false ->
  nth j (interpolate xs) NaN = nth j xs NaN.
Proof. intros H. apply (interpolate_from_keeps xs None 0 j H). Qed.

Lemma isnan_true (v : fval) : isnan v = true -> v = NaN.
Proof. now destruct v. Qed.

Lemma linear_interpolate_step_inv (column : list fval) (threshold : Z)
    (i : nat) (st : list fval * option nat) :
  i < List.length column ->
  interpolating column threshold i st ->
  interpolating column threshold (S i)
    (linear_interpolate_step threshold st i).
Proof.
  intros Hi. destruct st as [data start].
  intros (I1 & I2 & I4 & I5 & I6 & I7).
  assert (Hx : nth i data NaN = nth i column NaN)
    by (apply I6; intros k H1 H2; lia).
  unfold linear_interpolate_step. rewrite Hx.
  destruct (isnan (nth i column NaN)) eqn:Ex; cbn [negb].
  - (* a missing row: nothing changes *)
    split; [exact I1|]. split; [exact I2|].
    split; [intros s H; destruct (I4 s H); split; [lia | assumption]|].
    split; [exact I5|]. split; [|exact I7].
    intros j Hj. apply I6. intros k H1 H2. apply Hj; lia.
  - destruct start as [s|].
    + destruct (I4 s eq_refl) as [Hs Hcs].
      set (data' := if (Z.of_nat i - Z.of_nat s - 1 <? threshold)%Z
                    then set_slice s (i + 1)
                           (interpolate (slice s (i + 1) data)) data
                    else data).
      assert (Hnew : List.length (interpolate (slice s (i + 1) data))
                     = i + 1 - s).
      { rewrite length_interpolate, length_slice by lia. reflexivity. }
      assert (Hnth : forall j,
        nth j data' NaN
          = if (Z.of_nat i - Z.of_nat s - 1 <? threshold)%Z
            then if j <? s then nth j data NaN
                 else if j <? i + 1
                      then nth (j - s)
                             (interpolate (slice s (i + 1) data)) NaN
                      else nth j data NaN
            else nth j data NaN).
      { intros j. unfold data'.
        destruct (Z.of_nat i - Z.of_nat s - 1 <? threshold)%Z;
          [|reflexivity].
        apply nth_set_slice; lia. }
      split; [|split; [|split; [|split; [|split]]]].
      * unfold data'.
        destruct (Z.of_nat i - Z.of_nat s - 1 <? threshold)%Z; [|exact I1].
        rewrite length_set_slice; lia.
      * intros j Hj. rewrite Hnth.
        destruct (Z.of_nat i - Z.of_nat s - 1 <? threshold)%Z; [|auto].
        destruct (Nat.ltb_spec j s); [auto|].
        destruct (Nat.ltb_spec j (i + 1)); [|auto].
        assert (Hsl : nth (j - s) (slice s (i + 1) data) NaN
                      = nth j column NaN).
        { rewrite nth_slice by lia. replace (s + (j - s)) with j by lia.
          auto. }
        rewrite interpolate_keeps; rewrite Hsl; auto.
      * intros s' H. injection H as <-. split; [lia | exact Ex].
      * intros j Hj. rewrite Hnth.
        destruct (Z.of_nat i - Z.of_nat s - 1 <? threshold)%Z; [|auto].
        destruct (Nat.ltb_spec j s); [auto|].
        rewrite Hj in Hcs by lia. discriminate.
      * intros j Hj. rewrite Hnth.
        assert (Hji : i < j).
        { destruct (Nat.lt_ge_cases i j); [assumption|].
          rewrite Hj in Ex by lia. discriminate. }
        destruct (Z.of_nat i - Z.of_nat s - 1 <? threshold)%Z.
        -- destruct (Nat.ltb_spec j s); [lia|].
           destruct (Nat.ltb_spec j (i + 1)); [lia|].
           apply I6. intros k H1 H2. lia.
        -- apply I6. intros k H1 H2. lia.
      * intros Ht. unfold data'.
        destruct (Z.ltb_spec (Z.of_nat i - Z.of_nat s - 1) threshold);
          [lia | auto].
    + split; [exact I1|]. split; [exact I2|].
      split; [intros s H; injection H as <-; split; [lia | exact Ex]|].
      split; [exact I5|]. split; [|exact I7].
      intros j Hj. apply I6. intros k H1 H2.
      assert (Hji : i < j).
      { destruct (Nat.lt_ge_cases i j); [assumption|].
        rewrite Hj in Ex by lia. discriminate. }
      lia.
Qed.

Lemma linear_interpolate_fold_inv (column : list fval) (threshold : Z)
    (m : nat) :
  forall a st,
    a + m <= List.length column ->
    interpolating column threshold a st ->
    interpolating column threshold (a + m)
      (fold_left (linear_interpolate_step threshold) (seq a m) st).
Proof.
  induction m as [|m IH]; intros a st Hle Hinv.
  - now rewrite Nat.add_0_r.
  - cbn [seq fold_left]. replace (a + S m) with (S a + m) by lia.
    apply IH; [lia|]. apply linear_interpolate_step_inv; [lia | exact Hinv].
Qed.

Lemma linear_interpolate_observations (column : list fval)
    (threshold : Z) :
  List.length (linear_interpolate column threshold) = List.length column /\
  (forall j, isnan (nth j column NaN) = false ->
     nth j (linear_interpolate column threshold) NaN = nth j column NaN) /\
  (forall j, (forall k, k <= j -> isnan (nth k column NaN) = true) ->
     nth j (linear_interpolate column threshold) NaN = NaN) /\
  (forall j, (forall k, j <= k -> isnan (nth k column NaN) = true) ->
     nth j (linear_interpolate column threshold) NaN = NaN) /\
  ((threshold <= 0)%Z -> linear_interpolate column threshold = column).
Proof.
  assert (H0 : interpolating column threshold 0 (column, None)).
  { split; [reflexivity|]. split; [reflexivity|].
    split; [discriminate|]. split; [reflexivity|].
    split; reflexivity. }
  pose proof (@linear_interpolate_fold_inv column threshold
                (List.length column) 0 (column, None) (le_n _) H0) as H.
  unfold linear_interpolate. cbn [Nat.add] in H.
  destruct (fold_left _ _ _) as [data start].
  destruct H as (I1 & I2 & _ & I5 & I6 & I7). cbn [fst].
  split; [exact I1|]. split; [exact I2|]. split; [|split; [|exact I7]].
  - intros j Hj. rewrite I5 by exact Hj. apply isnan_true, Hj. lia.
  - intros j Hj. rewrite I6 by (intros k H1 _; now apply Hj).
    apply isnan_true, Hj. lia.
Qed.

(** X7: [linear_interpolate] keeps the length of the column and every observed
    value; it leaves missing the rows before the first observation and the
    rows after the last one; and with a threshold that is not positive it
    changes nothing. *)
Theorem linear_interpolate_keeps_observations (column : list fval)
    (threshold : Z) :
  List.length (linear_interpolate column threshold) = List.length column /\
  (forall j, isnan (nth j column NaN) = false ->
     nth j (linear_interpolate column threshold) NaN = nth j column NaN) /\
  (forall j, (forall k, k <= j -> isnan (nth k column NaN) = true) ->
     nth j (linear_interpolate column threshold) NaN = NaN) /\
  (forall j, (forall k, j <= k -> isnan (nth k column NaN) = true) ->
     nth j (linear_interpolate column threshold) NaN = NaN) /\
  ((threshold <= 0)%Z -> linear_interpolate column threshold = column).
Proof. apply linear_interpolate_observations. Qed.

Lemma linear_interpolate_keeps_observations_witness :
  nth 1 (linear_interpolate [NaN; fz 1; NaN; fz 3; NaN] 168) NaN
  = nth 1 [NaN; fz 1; NaN; fz 3; NaN] NaN.
Proof.
  apply (proj1 (proj2 (linear_interpolate_keeps_observations
                         [NaN; fz 1; NaN; fz 3; NaN] 168)) 1).
  reflexivity.
Defined.

Lemma nth_clip_lower0 (xs : list fval) (j : nat) :
  nth j (clip_lower0 xs) NaN
  = if fltb (nth j xs NaN) (fz 0) then fz 0 else nth j xs NaN.
Proof.
  unfold clip_lower0.
  set (f := fun v => if fltb v (fz 0) then fz 0 else v).
  transitivity (nth j (map f xs) (f NaN)); [reflexivity|].
  now rewrite map_nth.
Qed.

(** X8: The column [insert_inq] writes has the length of the hourly column and
    no negative value; an observation that is not negative is written
    unchanged and a negative one as 0; the rows before the first
    observation and after the last one stay missing. *)
Theorem insert_inq_keeps_observations (column : list fval) :
  List.length (insert_inq column) = List.length column /\
  (forall j, fltb (nth j (insert_inq column) NaN) (fz 0) = false) /\
  (forall j, isnan (nth j column NaN) = false ->
     nth j (insert_inq column) NaN
     = if fltb (nth j column NaN) (fz 0) then fz 0 else nth j column NaN) /\
  (forall j, (forall k, k <= j -> isnan (nth k column NaN) = true) ->
     nth j (insert_inq column) NaN = NaN) /\
  (forall j, (forall k, j <= k -> isnan (nth k column NaN) = true) ->
     nth j (insert_inq column) NaN = NaN).
Proof.
  destruct (linear_interpolate_observations column 168)
    as (H1 & H2 & H3 & H4 & _).
  unfold insert_inq. split; [|split; [|split; [|split]]].
  - unfold clip_lower0. now rewrite length_map.
  - intros j. rewrite nth_clip_lower0.
    destruct (fltb (nth j (linear_interpolate column 168) NaN) (fz 0)) eqn:E;
      [reflexivity | exact E].
  - intros j Hj. now rewrite nth_clip_lower0, H2.
  - intros j Hj. now rewrite nth_clip_lower0, H3.
  - intros j Hj. now rewrite nth_clip_lower0, H4.
Qed.

Lemma insert_inq_keeps_observations_witness :
  nth 1 (insert_inq [NaN; Fin (- qz 2); NaN; fz 3; NaN]) NaN
  = if fltb (nth 1 [NaN; Fin (- qz 2); NaN; fz 3; NaN] NaN) (fz 0)
    then fz 0 else nth 1 [NaN; Fin (- qz 2); NaN; fz 3; NaN] NaN.
Proof.
  apply (proj1 (proj2 (proj2 (insert_inq_keeps_observations
                                [NaN; Fin (- qz 2); NaN; fz 3; NaN]))) 1).
  reflexivity.
Defined.

(** ** rolling_with_stride for any window and stride *)

Lemma iloc_set_Ok (xs : list fval) (i : nat) (v : fval) :
  i < List.length xs ->
  exists out,
    iloc_set xs i v = Ok out /\
    List.length out = List.length xs /\
    forall j, nth j out NaN = if j =? i then v else nth j xs NaN.
Proof.
  intros Hi. unfold iloc_set.
  destruct (Nat.ltb_spec i (List.length xs)); [|lia].
  eexists. split; [reflexivity|].
  assert (Hf : List.length (firstn i xs) = i) by (rewrite length_firstn; lia).
  split.
  - rewrite length_app. cbn [List.length]. rewrite Hf, length_skipn. lia.
  - intros j. destruct (Nat.eqb_spec j i) as [->|Hne].
    + rewrite app_nth2 by lia. rewrite Hf, Nat.sub_diag. reflexivity.
    + destruct (Nat.lt_ge_cases j i).
      * rewrite app_nth1 by lia. rewrite nth_firstn.
        destruct (Nat.ltb_spec j i); [reflexivity | lia].
      * rewrite app_nth2 by lia. rewrite Hf.
        destruct (j - i) as [|d] eqn:Ed; [lia|].
        cbn [nth]. rewrite nth_skipn. f_equal. lia.
Qed.

Lemma stride_loop_run (self : StreamflowCleaner) (func : list fval -> fval)
    (df : list fval) (n : nat) (starts : list nat) :
  forall results,
    List.length results = n ->
    Forall (fun i => i + window_size self / 2 < n) starts ->
    exists out,
      stride_loop self func df results starts = Ok out /\
      List.length out = n /\
      forall j,
        nth j out NaN
          = if existsb (fun i => i + window_size self / 2 =? j) starts
            then func (slice (j - window_size self / 2)
                         (j - window_size self / 2 + window_size self) df)
            else nth j results NaN.
Proof.
  induction starts as [|i rest IH]; intros results Hlen Hall.
  - exists results. now repeat split.
  - inversion Hall as [|? ? Hi Hrest]; subst.
    cbn [stride_loop].
    destruct (@iloc_set_Ok results (i + window_size self / 2)
                (func (slice i (i + window_size self) df)))
      as (results' & -> & Hlen' & Hnth'); [lia|].
    cbn [bind].
    destruct (IH results' Hlen' Hrest) as (out & -> & Hlo & Hnth).
    exists out. split; [reflexivity|]. split; [exact Hlo|].
    intros j. rewrite Hnth, Hnth'. cbn [existsb].
    destruct (existsb _ rest); [now rewrite orb_true_r|].
    rewrite orb_false_r.
    destruct (Nat.eqb_spec (i + window_size self / 2) j) as [E|E].
    + rewrite <- E, Nat.eqb_refl.
      replace (i + window_size self / 2 - window_size self / 2) with i by lia.
      reflexivity.
    + destruct (Nat.eqb_spec j (i + window_size self / 2)); [lia|].
      reflexivity.
Qed.

(** The starts of [range(0, stop, step)]: the multiples of the step below
    [stop]. *)
Lemma In_range0 (stop step i : nat) :
  1 <= step ->
  In i (range0 stop step) <-> i < stop /\ i mod step = 0.
Proof.
  intros Hs. unfold range0. rewrite in_map_iff.
  assert (Hceil : forall k, k < (stop + step - 1) / step <-> k * step < stop).
  { intros k.
    pose proof (Nat.div_mod_eq (stop + step - 1) step) as E.
    pose proof (Nat.mod_upper_bound (stop + step - 1) step) as Hr.
    set (c := (stop + step - 1) / step) in *.
    set (r := (stop + step - 1) mod step) in *.
    split; intros H; nia. }
  split.
  - intros (k & <- & Hk). apply in_seq in Hk. split.
    + apply Hceil. lia.
    + apply Nat.Div0.mod_mul.
  - intros [Hi Hmod]. exists (i / step).
    assert (E : i = step * (i / step)).
    { rewrite (Nat.div_mod_eq i step) at 1. lia. }
    split; [lia|]. apply in_seq. split; [lia|].
    cbn [Nat.add]. apply Hceil. lia.
Qed.

Lemma existsb_range0 (stop step h j : nat) :
  1 <= step ->
  existsb (fun i => i + h =? j) (range0 stop step)
    = (h <=? j) && ((j - h) mod step =? 0) && (j - h <? stop).
Proof.
  intros Hs.
  destruct (existsb _ _) eqn:E.
  - apply existsb_exists in E as (i & Hin & Hi).
    apply Nat.eqb_eq in Hi. apply In_range0 in Hin as [H1 H2]; [|exact Hs].
    subst j. replace (i + h - h) with i by lia.
    symmetry. rewrite !andb_true_iff. repeat split.
    + apply Nat.leb_le. lia.
    + now apply Nat.eqb_eq.
    + now apply Nat.ltb_lt.
  - symmetry. apply not_true_is_false. intros H.
    rewrite !andb_true_iff in H. destruct H as [[H1 H2] H3].
    apply Nat.leb_le in H1. apply Nat.eqb_eq in H2. apply Nat.ltb_lt in H3.
    assert (Hex : existsb (fun i => i + h =? j) (range0 stop step) = true).
    { apply existsb_exists. exists (j - h). split.
      - apply In_range0; auto.
      - apply Nat.eqb_eq. lia. }
    congruence.
Qed.

(** X9: On a Series, with a window and a stride of at least 1,
    [rolling_with_stride] always returns: a Series on the same index, whose
    value at row [j] is [func] of the window starting at [j - window // 2]
    when that start is a multiple of the stride and the window fits in the
    series, and NaN at every other row. *)
Theorem rolling_with_stride_centres (self : StreamflowCleaner) (s : Series)
    (func : list fval -> fval) :
  1 <= window_size self -> 1 <= stride self ->
  exists out,
    rolling_with_stride self (DSeries s) func = Ok (combine (index s) out) /\
    List.length out = List.length s /\
    forall j,
      nth j out NaN
        = let start := j - window_size self / 2 in
          if (window_size self / 2 <=? j)
             && (start mod stride self =? 0)
             && (start + window_size self <=? List.length s)
          then func (slice start (start + window_size self) (values s))
          else NaN.
Proof.
  intros Hw Hs. unfold rolling_with_stride.
  destruct (Nat.eqb_spec (stride self) 0) as [E|_]; [lia|].
  set (n := List.length s).
  assert (Hhalf : window_size self / 2 < window_size self)
    by (apply Nat.div_lt; lia).
  destruct (@stride_loop_run self func (values s) n
              (range0 (n + 1 - window_size self) (stride self))
              (repeat NaN n)) as (out & -> & Hlen & Hnth).
  - apply repeat_length.
  - apply Forall_forall. intros i Hi.
    apply In_range0 in Hi as [Hi _]; [lia | exact Hs].
  - cbn [bind]. exists out. split; [reflexivity|]. split; [exact Hlen|].
    intros j. rewrite Hnth, existsb_range0 by exact Hs. cbv zeta.
    replace (j - window_size self / 2 <? n + 1 - window_size self)
      with (j - window_size self / 2 + window_size self <=? n).
    + destruct (_ && _ && _); [reflexivity|].
      destruct (Nat.lt_ge_cases j n).
      * now rewrite nth_repeat.
      * rewrite nth_overflow; [reflexivity | rewrite repeat_length; lia].
    + destruct (Nat.leb_spec (j - window_size self / 2 + window_size self) n);
        destruct (Nat.ltb_spec (j - window_size self / 2)
                    (n + 1 - window_size self)); try reflexivity; lia.
Qed.

Lemma rolling_with_stride_centres_witness :
  exists out,
    rolling_with_stride (cleaner 4 2)
      (DSeries (combine (RangeIndex 6) [fz 1; fz 2; fz 3; fz 4; fz 5; fz 6]))
      adjust_window
    = Ok (combine (RangeIndex 6) out) /\
    List.length out = 6.
Proof.
  destruct (@rolling_with_stride_centres (cleaner 4 2)
              (combine (RangeIndex 6) [fz 1; fz 2; fz 3; fz 4; fz 5; fz 6])
              adjust_window)
    as (out & H1 & H2 & _); [simpl; lia | simpl; lia |].
  exists out. split; [exact H1 | exact H2].
Defined.

(** ** Balancing twice, and the sign of balanced values *)

Lemma dmap_fixed (f : fval -> fval) (d : data) :
  Forall (fun v => f v = v) (dvalues d) -> dmap f d = d.
Proof.
  destruct d as [s|a]; simpl; intros H; f_equal.
  - induction s as [|[l v] s IH]; [reflexivity|].
    inversion H as [|? ? Hv Hs]; subst. simpl in *.
    now rewrite Hv, IH.
  - induction a as [|v a IH]; [reflexivity|].
    inversion H as [|? ? Hv Ha]; subst. simpl. now rewrite Hv, IH.
Qed.

(** Balancing a finite series against an original of the same non-zero sum
    changes nothing. *)
Lemma data_balanced_same_sum (o t : data) :
  finite (dvalues t) -> np_sum o = np_sum t -> np_sum t <> fz 0 ->
  data_balanced o t = t.
Proof.
  intros Ht Hsum Hnz. unfold data_balanced. rewrite Hsum.
  rewrite (np_sum_finite t Ht) in *.
  destruct (finite_map_Fin Ht) as [qs Eq]. rewrite Eq in *.
  rewrite fsum_map_Fin in *.
  assert (Hq : qsum qs <> Q2Qc 0).
  { intros E. apply Hnz. unfold fz, qz. now rewrite E. }
  apply dmap_fixed. rewrite Eq. apply Forall_forall.
  intros v Hv. apply in_map_iff in Hv as (q & <- & _).
  simpl. apply qeqb_neq in Hq as Hb. rewrite Hb. f_equal. field. exact Hq.
Qed.

(** Balancing a finite series of non-zero sum against an original that
    sums to zero gives zero everywhere. *)
Lemma data_balanced_zero_original (o t : data) :
  finite (dvalues t) -> np_sum t <> fz 0 -> np_sum o = fz 0 ->
  Forall (fun v => v = fz 0) (dvalues (data_balanced o t)).
Proof.
  intros Ht Hnz Hoz. rewrite values_data_balanced, Hoz.
  rewrite (np_sum_finite t Ht) in *.
  destruct (finite_map_Fin Ht) as [qs Eq]. rewrite Eq in *.
  rewrite fsum_map_Fin in *.
  assert (Hq : qsum qs <> Q2Qc 0).
  { intros E. apply Hnz. unfold fz, qz. now rewrite E. }
  apply Forall_map, Forall_forall. intros v Hv.
  apply in_map_iff in Hv as (q & <- & _).
  unfold fz, fdiv. apply qeqb_neq in Hq as Hb. rewrite Hb.
  cbn [fmul]. f_equal. change (qz 0) with (Q2Qc 0). field. exact Hq.
Qed.

(** X10: Applying [data_balanced] a second time to its own result changes
    nothing when the original and the transformed series are finite with
    non-zero sums; when the original sums to zero the first result is all
    zeros and the second application turns it into NaN. *)
Theorem data_balanced_twice (o t : data) :
  finite (dvalues o) -> finite (dvalues t) -> np_sum t <> fz 0 ->
  (np_sum o <> fz 0 ->
   data_balanced o (data_balanced o t) = data_balanced o t) /\
  (np_sum o = fz 0 ->
   Forall (fun v => v = fz 0) (dvalues (data_balanced o t)) /\
   Forall (fun v => v = NaN)
     (dvalues (data_balanced o (data_balanced o t)))).
Proof.
  intros Ho Ht Hnz.
  destruct (balance_exact o t Ho Ht Hnz) as [Hfin Hsum].
  split.
  - intros Hoz. apply data_balanced_same_sum; [exact Hfin | | ].
    + now rewrite Hsum.
    + now rewrite Hsum.
  - intros Hoz. split; [now apply data_balanced_zero_original|].
    rewrite values_data_balanced, Hsum, Hoz.
    apply Forall_map, Forall_forall. intros v _.
    replace (fdiv (fz 0) (fz 0)) with NaN by reflexivity.
    apply fmul_nan_r.
Qed.

Lemma data_balanced_twice_witness :
  data_balanced (DArray [fz 3; fz 1])
    (data_balanced (DArray [fz 3; fz 1]) (DArray [fz 1; fz 1]))
  = data_balanced (DArray [fz 3; fz 1]) (DArray [fz 1; fz 1]).
Proof.
  apply (@data_balanced_twice (DArray [fz 3; fz 1]) (DArray [fz 1; fz 1])).
  - repeat constructor.
  - repeat constructor.
  - by_inequality.
  - by_inequality.
Defined.

Lemma nonneg_Fin (q : Qc) : nonneg (Fin q) <-> (Q2Qc 0 <= q)%Qc.
Proof. unfold nonneg. apply qltb_ge. Qed.

Lemma nonneg_inf_of (q : Qc) : (Q2Qc 0 <= q)%Qc -> nonneg (inf_of (q ?= Q2Qc 0)%Qc).
Proof.
  intros H. destruct (q ?= Q2Qc 0)%Qc eqn:E; try reflexivity.
  apply Qclt_alt in E. now apply Qcle_not_lt in H.
Qed.

Lemma nonneg_fadd (a b : fval) : nonneg a -> nonneg b -> nonneg (fadd a b).
Proof.
  destruct a as [x| | |], b as [y| | |]; intros Ha Hb;
    try reflexivity; try discriminate.
  apply nonneg_Fin in Ha, Hb. apply nonneg_Fin. to_Q. lra.
Qed.

Lemma nonneg_fmul (a b : fval) : nonneg a -> nonneg b -> nonneg (fmul a b).
Proof.
  destruct a as [x| | |], b as [y| | |]; intros Ha Hb;
    try reflexivity; try discriminate.
  - apply nonneg_Fin in Ha, Hb. apply nonneg_Fin. to_Q. nra.
  - apply nonneg_Fin in Ha. now apply nonneg_inf_of.
  - apply nonneg_Fin in Hb. now apply nonneg_inf_of.
Qed.

Lemma nonneg_fdiv (a b : fval) : nonneg a -> nonneg b -> nonneg (fdiv a b).
Proof.
  destruct a as [x| | |], b as [y| | |]; intros Ha Hb;
    try reflexivity; try discriminate.
  - apply nonneg_Fin in Ha, Hb. unfold fdiv.
    destruct (qeqb y (Q2Qc 0)) eqn:E; [now apply nonneg_inf_of|].
    apply qeqb_neq in E. apply nonneg_Fin.
    assert (Hy : (Q2Qc 0 < y)%Qc).
    { destruct (Qc_dec (Q2Qc 0) y) as [[L|L]|L]; [exact L| |congruence].
      exfalso. to_Q. lra. }
    unfold Qcle. rewrite this_div. change (this (Q2Qc 0)) with 0%Q.
    unfold Qclt, Qcle in *. change (this (Q2Qc 0)) with 0%Q in *.
    apply Qle_shift_div_l; [exact Hy | lra].
  - apply nonneg_Fin in Hb. unfold fdiv.
    apply qltb_ge in Hb. now rewrite Hb.
Qed.

Lemma nonneg_fsum (xs : list fval) : Forall nonneg xs -> nonneg (fsum xs).
Proof.
  induction 1 as [|v xs Hv _ IH]; [reflexivity|].
  unfold fsum in *. simpl. now apply nonneg_fadd.
Qed.

Lemma Forall_dropna (P : fval -> Prop) (xs : list fval) :
  Forall P xs -> Forall P (dropna xs).
Proof.
  intros H. unfold dropna. apply Forall_forall. intros v Hv.
  apply filter_In in Hv as [Hv _]. rewrite Forall_forall in H. auto.
Qed.

Lemma nonneg_np_sum (d : data) : Forall nonneg (dvalues d) -> nonneg (np_sum d).
Proof.
  destruct d as [s|a]; simpl; intros H; apply nonneg_fsum;
    [now apply Forall_dropna | exact H].
Qed.

(** Balancing a series without negative values against an original whose
    sum is not negative gives no negative value. *)
Lemma data_balanced_nonneg (o t : data) :
  nonneg (np_sum o) -> Forall nonneg (dvalues t) ->
  Forall nonneg (dvalues (data_balanced o t)).
Proof.
  intros Ho Ht. rewrite values_data_balanced.
  apply Forall_map. eapply Forall_impl; [|exact Ht].
  intros v Hv. apply nonneg_fmul; [exact Hv|].
  apply nonneg_fdiv; [exact Ho | now apply nonneg_np_sum].
Qed.

Lemma clamp_nonneg (xs : list fval) : Forall nonneg (clamp xs).
Proof.
  unfold clamp. apply Forall_map, Forall_forall. intros v _.
  unfold nonneg. destruct (fltb v (fz 0)) eqn:E; [reflexivity | exact E].
Qed.

Lemma Forall_values_combine (P : fval -> Prop) (idx : list label)
    (vs : list fval) :
  Forall P vs -> Forall P (values (combine idx vs)).
Proof.
  revert vs. induction idx as [|l idx IH]; intros [|v vs] H;
    try constructor.
  - now inversion H.
  - apply IH. now inversion H.
Qed.

Lemma Forall_with_values (P : fval -> Prop) (d : data) (vs : list fval) :
  Forall P vs -> Forall P (dvalues (with_values d vs)).
Proof.
  destruct d as [s|a]; simpl; [apply Forall_values_combine | auto].
Qed.

Section Clamping.

Context {scipy : SciPy}.
Variable self : StreamflowCleaner.
Variable origin : origin_df.

Lemma FFT_loop_last (x : data) (passes : nat) :
  forall current out,
    1 <= passes ->
    FFT_loop self x passes current = Ok out ->
    exists vs, out = dvalues (data_balanced x (DArray (clamp vs))).
Proof.
  induction passes as [|n IH]; intros current out Hp H; [lia|].
  cbn [FFT_loop] in H. apply bind_Ok in H as (next & Hpass & Hloop).
  destruct n as [|n].
  - cbn [FFT_loop] in Hloop. apply Ok_inj in Hloop as <-.
    unfold FFT_pass in Hpass.
    apply bind_Ok in Hpass as (yf & _ & Hpass).
    apply bind_Ok in Hpass as (xf & _ & Hpass).
    apply bind_Ok in Hpass as (back & _ & Hpass).
    apply Ok_inj in Hpass as <-. eexists. reflexivity.
  - apply (IH next out); [lia | exact Hloop].
Qed.

(** Each clamping method returns the values of a series without negative
    values balanced against its input ([FFT] when it runs at least one
    iteration). *)
Lemma clamping_method_shape (method : string) (x y : data) :
  In method clamping_methods ->
  (method = "FFT"%string -> 1 <= iterations self) ->
  apply_method self origin method x = Ok y ->
  exists t,
    dvalues y = dvalues (data_balanced x t) /\ Forall nonneg (dvalues t).
Proof.
  intros Hin Hfft H. unfold clamping_methods in Hin. simpl in Hin.
  destruct Hin as [<-|[<-|[<-|[<-|[<-|[<-|[<-|[]]]]]]]];
    unfold apply_method in H; simpl in H.
  - unfold moving_average in H. destruct x as [s|a]; [|discriminate].
    apply Ok_inj in H as <-. eexists. split; [reflexivity|].
    apply Forall_with_values. unfold moving_average_smoothed.
    apply clamp_nonneg.
  - unfold kalman_filter in H. apply bind_Ok in H as (x0 & _ & H).
    apply Ok_inj in H as <-. eexists. split; [reflexivity|].
    apply clamp_nonneg.
  - unfold moving_average_difference in H.
    destruct (window_size self <? 1); [discriminate|].
    apply Ok_inj in H as <-. eexists. split; [reflexivity|].
    apply clamp_nonneg.
  - unfold robust_fitting in H. apply bind_Ok in H as ([[a b] c] & _ & H).
    destruct (Nat.iter _ _ _) as [weights sg]. apply Ok_inj in H as <-.
    eexists. split; [reflexivity|].
    apply Forall_with_values, clamp_nonneg.
  - unfold lowpass_filter in H. destruct (feqb _ _); [discriminate|].
    apply bind_Ok in H as (ba & _ & H).
    apply bind_Ok in H as (sig & _ & H).
    apply Ok_inj in H as <-. eexists. split; [reflexivity|].
    apply clamp_nonneg.
  - unfold FFT in H. destruct x as [s|a]; [|discriminate].
    apply bind_Ok in H as (out & Hloop & H). apply Ok_inj in H as <-.
    apply FFT_loop_last in Hloop as (vs & ->); [|now apply Hfft].
    eexists. split; [reflexivity|]. apply clamp_nonneg.
  - unfold wavelet in H. destruct x as [s|a]; [|discriminate].
    apply bind_Ok in H as (first & _ & H).
    apply bind_Ok in H as (ext & _ & H).
    apply bind_Ok in H as (row & _ & H).
    apply Ok_inj in H as <-. eexists. split; [reflexivity|].
    apply clamp_nonneg.
Qed.

End Clamping.

(** X11: Each of moving_average, kalman, moving_average_diff, robfit, lowpass,
    FFT (run with at least one iteration) and wavelet returns no negative
    value when the sum of its input is not negative: every value returned
    is zero or more, infinite or NaN.  (The sum is the one [np.sum] gives:
    NaN skipped on a Series.) *)
Theorem clamping_methods_nonnegative {scipy : SciPy}
    (self : StreamflowCleaner) (origin : origin_df) (method : string)
    (x y : data) :
  In method clamping_methods ->
  (method = "FFT"%string -> 1 <= iterations self) ->
  apply_method self origin method x = Ok y ->
  nonneg (np_sum x) ->
  Forall nonneg (dvalues y).
Proof.
  intros Hin Hfft H Hx.
  destruct (@clamping_method_shape scipy self origin method x y Hin Hfft H)
    as (t & -> & Ht).
  now apply data_balanced_nonneg.
Qed.

Lemma clamping_methods_nonnegative_witness :
  Forall nonneg [fz 20; fz 20; fz 20].
Proof.
  apply (@clamping_methods_nonnegative offline (cleaner 3 1)
           (hourly [fz 10; fz 20; fz 30]) "moving_average"%string
           (DSeries (combine (RangeIndex 3) [fz 10; fz 20; fz 30]))
           (DSeries (combine (RangeIndex 3) [fz 20; fz 20; fz 20]))).
  - simpl. auto.
  - discriminate.
  - by_evaluation.
  - reflexivity.
Defined.

(** ** Constant series and series shorter than the window *)

Lemma qz_pos (z : Z) : (0 < z)%Z -> (Q2Qc 0 < qz z)%Qc.
Proof.
  intros H. unfold Qclt, qz. 
  change (this (Q2Qc 0)) with 0%Q.
  change (this (Q2Qc (inject_Z z))) with (Qred (inject_Z z)).
  rewrite Qred_correct.
  unfold Qlt. simpl. lia.
Qed.

Lemma qz_nonzero (k : nat) : 0 < k -> qz (Z.of_nat k) <> Q2Qc 0.
Proof.
  intros H E. assert (L : (Q2Qc 0 < qz (Z.of_nat k))%Qc) by (apply qz_pos; lia).
  rewrite E in L. now apply Qclt_not_eq in L.
Qed.

Lemma qz_succ (k : nat) :
  qz (Z.of_nat (S k)) = (qz (Z.of_nat k) + Q2Qc 1)%Qc.
Proof.
  apply Qc_is_canon. rewrite this_plus. unfold qz.
  change (this (Q2Qc 1)) with 1%Q.
  change (this (Q2Qc (inject_Z (Z.of_nat (S k))))) with (Qred (inject_Z (Z.of_nat (S k)))).
  change (this (Q2Qc (inject_Z (Z.of_nat k)))) with (Qred (inject_Z (Z.of_nat k))).
  rewrite !Qred_correct. rewrite Nat2Z.inj_succ. unfold Z.succ.
  rewrite inject_Z_plus. reflexivity.
Qed.

Lemma qsum_repeat (c : Qc) (k : nat) :
  qsum (repeat c k) = (qz (Z.of_nat k) * c)%Qc.
Proof.
  induction k as [|k IH].
  - simpl. change (qz 0) with (Q2Qc 0). ring.
  - cbn [repeat qsum]. rewrite IH, qz_succ. ring.
Qed.

Lemma fsum_repeat (c : Qc) (k : nat) :
  fsum (repeat (Fin c) k) = Fin (qz (Z.of_nat k) * c).
Proof.
  rewrite <- (map_repeat c k Fin), fsum_map_Fin. now rewrite qsum_repeat.
Qed.

Lemma finite_repeat (c : Qc) (k : nat) : finite (repeat (Fin c) k).
Proof. induction k; constructor; auto. Qed.

Lemma mean_of_repeat (c : Qc) (k : nat) :
  0 < k ->
  fdiv (fsum (repeat (Fin c) k)) (fz (Z.of_nat k)) = Fin c.
Proof.
  intros H. rewrite fsum_repeat. unfold fdiv, fz.
  pose proof (qz_nonzero H) as Hk. apply qeqb_neq in Hk as Hb. rewrite Hb.
  f_equal. field. exact Hk.
Qed.

Lemma firstn_repeat_le (v : fval) (a n : nat) :
  a <= n -> firstn a (repeat v n) = repeat v a.
Proof.
  revert n. induction a as [|a IH]; intros [|n] H; simpl; try reflexivity;
    try lia.
  f_equal. apply IH. lia.
Qed.

Lemma skipn_repeat_le (v : fval) (a n : nat) :
  skipn a (repeat v n) = repeat v (n - a).
Proof.
  revert n. induction a as [|a IH]; intros [|n]; simpl; try reflexivity.
  apply IH.
Qed.

Lemma slice_repeat (v : fval) (start stop n : nat) :
  stop <= n -> slice start stop (repeat v n) = repeat v (stop - start).
Proof.
  intros H. unfold slice. rewrite skipn_repeat_le.
  apply firstn_repeat_le. lia.
Qed.

Lemma map_constant_seq (f : nat -> fval) (v : fval) (n : nat) :
  (forall i, i < n -> f i = v) -> map f (seq 0 n) = repeat v n.
Proof.
  intros H. rewrite (map_ext_in f (fun _ => v)).
  - rewrite map_const. now rewrite length_seq.
  - intros i Hi. apply in_seq in Hi. apply H. lia.
Qed.

(** The rolling mean of a constant series is the constant wherever the
    window, clipped to the series, holds [min_periods] rows. *)
Lemma rolling_at_constant (window min_periods offset : nat) (c : Qc)
    (n i : nat) :
  rolling_at window min_periods offset (repeat (Fin c) n) i
  = let stop := Nat.min (i + 1 + offset) n in
    let start := Nat.min (i + 1 + offset - window) n in
    if (min_periods <=? stop - start) && (0 <? stop - start)
    then Fin c else NaN.
Proof.
  unfold rolling_at. rewrite repeat_length. cbv zeta.
  set (stop := Nat.min (i + 1 + offset) n).
  set (start := Nat.min (i + 1 + offset - window) n).
  rewrite slice_repeat by (unfold stop; lia).
  rewrite (dropna_finite (finite_repeat c (stop - start))).
  rewrite repeat_length.
  destruct (min_periods <=? stop - start); [|reflexivity].
  destruct (Nat.ltb_spec 0 (stop - start)); [|reflexivity].
  simpl. now apply mean_of_repeat.
Qed.

Lemma prep_values_repeat (c : Qc) (n : nat) :
  prep_values (repeat (Fin c) n) = repeat (Fin c) n.
Proof. unfold prep_values. now rewrite map_repeat. Qed.

Lemma rolling_mean_trailing_constant (window : nat) (c : Qc) (n : nat) :
  1 <= window ->
  rolling_mean window 1 false (repeat (Fin c) n) = repeat (Fin c) n.
Proof.
  intros Hw. unfold rolling_mean. rewrite prep_values_repeat, repeat_length.
  apply map_constant_seq. intros i Hi. rewrite rolling_at_constant. cbv zeta.
  replace (Nat.min (i + 1 + 0) n) with (i + 1) by lia.
  replace (Nat.min (i + 1 + 0 - window) n) with (i + 1 - window) by lia.
  destruct (Nat.leb_spec 1 (i + 1 - (i + 1 - window))); [|lia].
  destruct (Nat.ltb_spec 0 (i + 1 - (i + 1 - window))); [|lia].
  reflexivity.
Qed.

Lemma rev_repeat_fval (v : fval) (n : nat) : rev (repeat v n) = repeat v n.
Proof.
  induction n as [|n IH]; [reflexivity|].
  simpl. rewrite IH. clear IH.
  induction n as [|n IH]; [reflexivity|]. simpl. now rewrite IH.
Qed.

Lemma combine_repeat (a b : fval) (n : nat) :
  combine (repeat a n) (repeat b n) = repeat (a, b) n.
Proof. induction n as [|n IH]; [reflexivity|]. simpl. now rewrite IH. Qed.

Lemma moving_average_diff_signal_constant (self : StreamflowCleaner) (c : Qc)
    (n : nat) :
  1 <= window_size self ->
  moving_average_diff_signal self (repeat (Fin c) n) = repeat (fz 0) n.
Proof.
  intros Hw. unfold moving_average_diff_signal.
  rewrite rev_repeat_fval, (rolling_mean_trailing_constant c n Hw),
    rev_repeat_fval, combine_repeat, map_repeat.
  unfold clamp. rewrite map_repeat. cbn [fst snd].
  unfold fsub, fopp, fadd.
  replace (c + - c)%Qc with (Q2Qc 0) by ring.
  reflexivity.
Qed.

Lemma fmul_zero_not_finite (b : fval) :
  isfinite b = false -> fmul (fz 0) b = NaN.
Proof. destruct b; try reflexivity; discriminate. Qed.

(** X12: [moving_average_diff] turns every constant series into NaN: the forward
    and the backward mean agree everywhere, the difference signal is all
    zeros, and balancing divides by its zero sum. *)
Theorem moving_average_difference_constant (self : StreamflowCleaner)
    (x : data) (c : Qc) (n : nat) :
  1 <= window_size self ->
  dvalues x = repeat (Fin c) n ->
  moving_average_difference self x = Ok (DArray (repeat NaN n)).
Proof.
  intros Hw Hx. unfold moving_average_difference.
  destruct (Nat.ltb_spec (window_size self) 1); [lia|].
  rewrite Hx, (moving_average_diff_signal_constant self c n Hw).
  unfold data_balanced. cbn [dmap np_sum].
  rewrite map_repeat. do 2 f_equal.
  rewrite fmul_zero_not_finite; [reflexivity|].
  replace (fsum (repeat (fz 0) n)) with (fz 0).
  - apply fdiv_by_zero.
  - unfold fz at 2. rewrite fsum_repeat. unfold fz. f_equal.
    change (qz 0) with (Q2Qc 0). ring.
Qed.

Lemma moving_average_difference_constant_witness :
  moving_average_difference (cleaner 3 1)
    (DArray (repeat (Fin (qz 5)) 4))
  = Ok (DArray (repeat NaN 4)).
Proof.
  apply (@moving_average_difference_constant (cleaner 3 1)
           (DArray (repeat (Fin (qz 5)) 4)) (qz 5) 4).
  - simpl. lia.
  - reflexivity.
Defined.

(** One round of the filter on a measurement equal to the estimate leaves
    the estimate where it is and the variance not negative. *)
Lemma kalman_step_constant (c p : Qc) :
  (Q2Qc 0 <= p)%Qc ->
  exists p',
    kalman_step (Fin c, Fin p) (Fin c) = (Fin c, Fin p') /\
    (Q2Qc 0 <= p')%Qc.
Proof.
  intros Hp. unfold kalman_step, fsub, fopp, fz.
  cbn [fmul fadd].
  set (r := Q2Qc (1 # 100)).
  change (qz 1) with (Q2Qc 1).
  set (pp := (Q2Qc 1 * p * Q2Qc 1 + r)%Qc).
  set (s := (Q2Qc 1 * pp * Q2Qc 1 + r)%Qc).
  assert (Hr : (Q2Qc 0 < r)%Qc) by reflexivity.
  assert (Hpp : (Q2Qc 0 < pp)%Qc).
  { unfold pp. to_Q. change (this (Q2Qc 1)) with 1%Q. lra. }
  assert (Hs : (Q2Qc 0 < s)%Qc).
  { unfold s. to_Q. change (this (Q2Qc 1)) with 1%Q. lra. }
  assert (Hs0 : s <> Q2Qc 0).
  { intros E. rewrite E in Hs. now apply Qclt_not_eq in Hs. }
  unfold fdiv. apply qeqb_neq in Hs0 as Hb. rewrite Hb.
  cbn [fmul fadd].
  exists (pp * r / s)%Qc. split.
  - f_equal; f_equal.
    + ring.
    + unfold s. field. intros E. apply Hs0. unfold s. rewrite <- E. ring.
  - unfold Qcle. rewrite this_div, this_mult.
    unfold Qclt in *. change (this (Q2Qc 0)) with 0%Q in *.
    apply Qle_shift_div_l; [exact Hs | nra].
Qed.

Lemma kalman_loop_constant (c : Qc) (n : nat) :
  forall p, (Q2Qc 0 <= p)%Qc ->
    kalman_loop (Fin c, Fin p) (repeat (Fin c) n) = repeat (Fin c) n.
Proof.
  induction n as [|n IH]; intros p Hp; [reflexivity|].
  cbn [repeat kalman_loop].
  destruct (kalman_step_constant c Hp) as (p' & -> & Hp').
  cbn [fst]. f_equal. now apply IH.
Qed.

Lemma clamp_repeat_positive (c : Qc) (n : nat) :
  (Q2Qc 0 < c)%Qc -> clamp (repeat (Fin c) n) = repeat (Fin c) n.
Proof.
  intros Hc. unfold clamp. rewrite map_repeat. f_equal.
  assert (E : fltb (Fin c) (fz 0) = false).
  { apply qltb_ge. now apply Qclt_le_weak. }
  now rewrite E.
Qed.

Lemma Fin_inj (a b : Qc) : Fin a = Fin b -> a = b.
Proof.
  intros H.
  exact (f_equal (fun v => match v with Fin q => q | _ => a end) H).
Qed.

Lemma fsum_repeat_nonzero (c : Qc) (n : nat) :
  (Q2Qc 0 < c)%Qc -> 1 <= n -> fsum (repeat (Fin c) n) <> fz 0.
Proof.
  intros Hc Hn E. rewrite fsum_repeat in E. unfold fz in E.
  apply Fin_inj in E.
  assert (Hk : (Q2Qc 0 < qz (Z.of_nat n))%Qc) by (apply qz_pos; lia).
  change (qz 0) with (Q2Qc 0) in E. to_Q.
  assert (0 < this (qz (Z.of_nat n)) * this c)%Q
    by (apply Qmult_lt_0_compat; assumption).
  lra.
Qed.

(** Balancing a constant positive series against data of the same values
    changes nothing. *)
Lemma data_balanced_constant (x t : data) (c : Qc) (n : nat) :
  (Q2Qc 0 < c)%Qc -> 1 <= n ->
  dvalues x = repeat (Fin c) n -> dvalues t = repeat (Fin c) n ->
  data_balanced x t = t.
Proof.
  intros Hc Hn Hx Ht.
  assert (Fx : finite (dvalues x)) by (rewrite Hx; apply finite_repeat).
  assert (Ft : finite (dvalues t)) by (rewrite Ht; apply finite_repeat).
  apply data_balanced_same_sum; [exact Ft | | ].
  - now rewrite (np_sum_finite x Fx), (np_sum_finite t Ft), Hx, Ht.
  - rewrite (np_sum_finite t Ft), Ht. now apply fsum_repeat_nonzero.
Qed.

(** X13: A constant positive series is a fixed point of the Kalman filter: the
    estimate starts at the first value, every residual is zero, and the
    balancing factor is 1.  The result is an array of the same values. *)
Theorem kalman_filter_constant (x : data) (c : Qc) (n : nat) :
  (Q2Qc 0 < c)%Qc -> 1 <= n ->
  first_item x = Ok (Fin c) ->
  dvalues x = repeat (Fin c) n ->
  kalman_filter x = Ok (DArray (repeat (Fin c) n)).
Proof.
  intros Hc Hn H0 Hx. unfold kalman_filter. rewrite H0. cbn [bind].
  unfold kalman_estimated. rewrite Hx.
  rewrite kalman_loop_constant by (unfold Qcle; simpl; discriminate).
  rewrite (clamp_repeat_positive n Hc). f_equal.
  now apply (@data_balanced_constant x (DArray (repeat (Fin c) n)) c n).
Qed.

Lemma kalman_filter_constant_witness :
  kalman_filter (DSeries (combine (RangeIndex 3) (repeat (Fin (qz 7)) 3)))
  = Ok (DArray (repeat (Fin (qz 7)) 3)).
Proof.
  apply (@kalman_filter_constant
           (DSeries (combine (RangeIndex 3) (repeat (Fin (qz 7)) 3)))
           (qz 7) 3).
  - reflexivity.
  - lia.
  - reflexivity.
  - reflexivity.
Defined.

Lemma length_dropna_le (xs : list fval) :
  List.length (dropna xs) <= List.length xs.
Proof. unfold dropna. apply filter_length_le. Qed.

Lemma length_slice_le (start stop : nat) (xs : list fval) :
  List.length (slice start stop xs) <= List.length xs.
Proof.
  unfold slice. rewrite length_firstn, length_skipn. lia.
Qed.

Lemma length_prep_values (xs : list fval) :
  List.length (prep_values xs) = List.length xs.
Proof. unfold prep_values. apply length_map. Qed.

(** A centred rolling mean whose window is wider than the series has no
    full window anywhere. *)
Lemma rolling_mean_short (window : nat) (center : bool) (xs : list fval) :
  List.length xs < window ->
  rolling_mean window window center xs = repeat NaN (List.length xs).
Proof.
  intros H. unfold rolling_mean. apply map_constant_seq. intros i _.
  unfold rolling_at.
  match goal with
  | |- context [dropna (slice ?a ?b ?l)] =>
      pose proof (length_dropna_le (slice a b l)) as H1;
      pose proof (length_slice_le a b l) as H2
  end.
  rewrite !length_prep_values in *.
  match goal with
  | |- context [window <=? ?k] => destruct (Nat.leb_spec window k) as [L|L]
  end; [|reflexivity].
  exfalso. lia.
Qed.

Lemma bfill_repeat_nan (n : nat) : bfill (repeat NaN n) = repeat NaN n.
Proof.
  induction n as [|n IH]; [reflexivity|].
  cbn [repeat bfill]. rewrite IH. cbn [isnan]. f_equal.
  now destruct n.
Qed.

Lemma ffill_from_repeat_nan (prev : fval) (n : nat) :
  ffill_from prev (repeat NaN n) = repeat prev n.
Proof.
  induction n as [|n IH]; [reflexivity|].
  cbn [repeat ffill_from isnan]. now rewrite IH.
Qed.

Lemma clamp_repeat_nan (n : nat) : clamp (repeat NaN n) = repeat NaN n.
Proof. unfold clamp. now rewrite map_repeat. Qed.

(** X14: On a series shorter than the window [moving_average] returns NaN on
    every row, whatever the values: no window is full, there is nothing to
    fill the ends from, and balancing multiplies NaN. *)
Theorem moving_average_short_series (self : StreamflowCleaner) (s : Series) :
  List.length s < window_size self ->
  moving_average self (DSeries s)
  = Ok (DSeries (combine (index s) (repeat NaN (List.length s)))).
Proof.
  intros H. unfold moving_average, moving_average_smoothed.
  rewrite rolling_mean_short by (now rewrite length_values).
  rewrite length_values, bfill_repeat_nan. unfold ffill.
  rewrite ffill_from_repeat_nan, clamp_repeat_nan.
  unfold data_balanced. rewrite dmap_with_values, map_repeat.
  reflexivity.
Qed.

Lemma moving_average_short_series_witness :
  moving_average default_cleaner
    (DSeries (combine (RangeIndex 2) [fz 5; fz 7]))
  = Ok (DSeries (combine (index (combine (RangeIndex 2) [fz 5; fz 7]))
                   (repeat NaN 2))).
Proof.
  apply (@moving_average_short_series default_cleaner
           (combine (RangeIndex 2) [fz 5; fz 7])).
  simpl. lia.
Defined.

(** Filling backwards a list of values that are each [v] or NaN gives a run
    of [v] followed by a run of NaN; the run of [v] is not empty when [v]
    occurs. *)
Lemma bfill_two_valued (v : fval) (xs : list fval) :
  isnan v = false ->
  Forall (fun x => x = v \/ x = NaN) xs ->
  exists a b,
    bfill xs = repeat v a ++ repeat NaN b /\
    a + b = List.length xs /\
    (In v xs -> 1 <= a).
Proof.
  intros Hv. induction 1 as [|x xs Hx _ (a & b & E & Hlen & Hin)].
  - exists 0, 0. repeat split; simpl; tauto.
  - cbn [bfill]. rewrite E. destruct Hx as [->| ->].
    + rewrite Hv. exists (S a), b. simpl. repeat split; [lia | lia].
    + cbn [isnan]. destruct a as [|a].
      * exists 0, (S b). simpl. split; [|split; [lia|]].
        -- f_equal. now destruct b.
        -- intros [E'|Hi]; [subst; discriminate|]. apply Hin in Hi. lia.
      * exists (S (S a)), b. simpl. repeat split; lia.
Qed.

Lemma ffill_from_run (v prev : fval) (a b : nat) :
  isnan v = false ->
  ffill_from prev (repeat v (S a) ++ repeat NaN b) = repeat v (S a + b).
Proof.
  intros Hv. revert prev. induction a as [|a IH]; intros prev.
  - cbn [repeat app ffill_from]. rewrite Hv.
    now rewrite ffill_from_repeat_nan.
  - change (repeat v (S (S a))) with (v :: repeat v (S a)).
    cbn [app ffill_from]. rewrite Hv, IH. reflexivity.
Qed.

Lemma fill_two_valued (v : fval) (xs : list fval) :
  isnan v = false ->
  Forall (fun x => x = v \/ x = NaN) xs -> In v xs ->
  ffill (bfill xs) = repeat v (List.length xs).
Proof.
  intros Hv Hxs Hin.
  destruct (bfill_two_valued Hv Hxs) as (a & b & -> & Hlen & Ha).
  specialize (Ha Hin). destruct a as [|a]; [lia|].
  unfold ffill. rewrite ffill_from_run by exact Hv. now rewrite Hlen.
Qed.

Lemma combine_index_values (s : Series) : combine (index s) (values s) = s.
Proof.
  induction s as [|[l v] s IH]; [reflexivity|]. simpl. now rewrite IH.
Qed.

(** X15: A constant positive series at least as long as the window is a fixed
    point of [moving_average]: every full window has the constant as its
    mean, the ends are filled with it, and the balancing factor is 1. *)
Theorem moving_average_constant (self : StreamflowCleaner) (s : Series)
    (c : Qc) :
  (Q2Qc 0 < c)%Qc ->
  1 <= window_size self -> window_size self <= List.length s ->
  values s = repeat (Fin c) (List.length s) ->
  moving_average self (DSeries s) = Ok (DSeries s).
Proof.
  intros Hc Hw Hn Hs. unfold moving_average. f_equal.
  set (n := List.length s) in *. set (w := window_size self) in *.
  assert (Hsm : moving_average_smoothed self (values s) = repeat (Fin c) n).
  { unfold moving_average_smoothed. fold w. rewrite Hs.
    set (r := rolling_mean w w true (repeat (Fin c) n)).
    assert (Hr : List.length r = n).
    { unfold r, rolling_mean. now rewrite length_map, length_seq, repeat_length. }
    assert (Hnth : forall i, i < n ->
              nth i r NaN
              = rolling_at w w ((w - 1) / 2) (repeat (Fin c) n) i).
    { intros i Hi. unfold r, rolling_mean.
      rewrite prep_values_repeat, repeat_length.
      transitivity
        (nth i (map (rolling_at w w ((w - 1) / 2) (repeat (Fin c) n))
                  (seq 0 n))
           (rolling_at w w ((w - 1) / 2) (repeat (Fin c) n) 0)).
      - apply nth_indep. now rewrite length_map, length_seq.
      - rewrite map_nth. f_equal. rewrite seq_nth by exact Hi. reflexivity. }
    rewrite (@fill_two_valued (Fin c) r); [ | reflexivity | | ].
    - rewrite Hr. now apply clamp_repeat_positive.
    - apply Forall_forall. intros x Hx.
      apply (In_nth _ _ NaN) in Hx as (i & Hi & <-). rewrite Hr in Hi.
      rewrite (Hnth i Hi), rolling_at_constant. cbv zeta.
      destruct (_ && _); auto.
    - assert (Hi : w - 1 - (w - 1) / 2 < n).
      { pose proof (Nat.Div0.div_le_upper_bound (w - 1) 2 (w - 1)). lia. }
      assert (Hd : (w - 1) / 2 <= w - 1).
      { apply Nat.Div0.div_le_upper_bound. lia. }
      replace (Fin c) with (nth (w - 1 - (w - 1) / 2) r NaN).
      + apply nth_In. now rewrite Hr.
      + rewrite (Hnth _ Hi), rolling_at_constant. cbv zeta.
        replace (w - 1 - (w - 1) / 2 + 1 + (w - 1) / 2) with w by lia.
        replace (w - w) with 0 by lia.
        replace (Nat.min w n) with w by lia.
        replace (Nat.min 0 n) with 0 by lia.
        replace (w - 0) with w by lia.
        rewrite Nat.leb_refl.
        destruct (Nat.ltb_spec 0 w); [reflexivity | lia]. }
  rewrite Hsm, <- Hs.
  change (with_values (DSeries s) (values s))
    with (DSeries (combine (index s) (values s))).
  rewrite combine_index_values.
  apply (@data_balanced_constant (DSeries s) (DSeries s) c n Hc);
    [lia | exact Hs | exact Hs].
Qed.

Lemma moving_average_constant_witness :
  moving_average (cleaner 3 1)
    (DSeries (combine (RangeIndex 4) (repeat (Fin (qz 5)) 4)))
  = Ok (DSeries (combine (RangeIndex 4) (repeat (Fin (qz 5)) 4))).
Proof.
  apply (@moving_average_constant (cleaner 3 1)
           (combine (RangeIndex 4) (repeat (Fin (qz 5)) 4)) (qz 5)).
  - reflexivity.
  - simpl. lia.
  - simpl. lia.
  - reflexivity.
Defined.

(** ** The method loop: unknown names and chains that cannot complete *)

Section MethodLoop.

Context {scipy : SciPy}.
Variable self : StreamflowCleaner.
Variable origin : origin_df.

Lemma apply_method_unknown (method : string) (x : data) :
  ~ In method known_methods -> apply_method self origin method x = Ok x.
Proof.
  intros H. unfold apply_method.
  repeat match goal with
         | |- context [String.eqb method ?name] =>
             destruct (String.eqb_spec method name) as [E|_];
             [exfalso; apply H; rewrite E; simpl; tauto|]
         end.
  reflexivity.
Qed.

Lemma run_methods_unknown (methods : list string) (x : data) :
  Forall (fun m => ~ In m known_methods) methods ->
  run_methods self origin methods x = Ok x.
Proof.
  induction 1 as [|m methods Hm _ IH]; [reflexivity|].
  cbn [run_methods]. now rewrite (apply_method_unknown x Hm).
Qed.

Lemma nth_fillna_scalar (c : fval) (xs : list fval) (i : nat) :
  isnan (nth i xs NaN) = false ->
  nth i (fillna_scalar c xs) NaN = nth i xs NaN.
Proof.
  unfold fillna_scalar. revert i.
  induction xs as [|x xs IH]; intros [|i] H; simpl in *;
    try discriminate.
  - now rewrite H.
  - now apply IH.
Qed.

Lemma length_fillna_scalar (c : fval) (xs : list fval) :
  List.length (fillna_scalar c xs) = List.length xs.
Proof. unfold fillna_scalar. apply length_map. Qed.

(** Preparing the column (interpolation, then 0 for what is still missing)
    and masking the rows that were missing gives the raw column back. *)
Lemma prepare_then_mask (inq : list fval) :
  set_nan_where (map isnan inq)
    (fillna_scalar (fz 0) (interpolate inq)) = inq.
Proof.
  assert (Hlen : List.length (map isnan inq)
                 = List.length (fillna_scalar (fz 0) (interpolate inq))).
  { now rewrite length_map, length_fillna_scalar, length_interpolate. }
  apply (nth_ext _ _ NaN NaN).
  - unfold set_nan_where. rewrite length_map, length_combine, <- Hlen.
    rewrite length_map. lia.
  - intros i Hi. rewrite (nth_set_nan_where _ _ i Hlen).
    assert (Hi' : i < List.length inq).
    { unfold set_nan_where in Hi.
      rewrite length_map, length_combine, <- Hlen, length_map in Hi. lia. }
    assert (Hm : nth i (map isnan inq) false = isnan (nth i inq NaN)).
    { rewrite (nth_indep (map isnan inq) false (isnan NaN))
        by (now rewrite length_map).
      apply map_nth. }
    rewrite Hm.
    destruct (isnan (nth i inq NaN)) eqn:E.
    + symmetry. now apply isnan_true.
    + rewrite nth_fillna_scalar; rewrite interpolate_keeps by exact E;
        [reflexivity | exact E].
Qed.

End MethodLoop.

(** X16: A name the loop does not know is skipped without an error: run on a
    list of unknown names only, [anomaly_process] stores under the first
    name the raw INQ column itself, the missing rows missing again and
    every observation untouched. *)
Theorem unknown_methods_store_raw_column {scipy : SciPy}
    (self : StreamflowCleaner) (origin : origin_df) (first : string)
    (rest : list string) :
  Forall (fun m => ~ In m known_methods) (first :: rest) ->
  anomaly_process self origin (first :: rest) = Ok (first, INQ origin).
Proof.
  intros H. unfold anomaly_process.
  rewrite (run_methods_unknown self origin _ H). cbn [bind].
  unfold align.
  pose proof (working_series_on_frame origin) as Hf.
  set (s := combine (RangeIndex (List.length origin))
              (fillna_scalar (fz 0) (interpolate (INQ origin)))) in *.
  assert (Hidx : index s = RangeIndex (List.length origin)).
  { exact Hf. }
  rewrite <- Hidx at 1.
  rewrite lookup_own_index by (rewrite Hidx; apply NoDup_RangeIndex).
  cbn [bind]. do 2 f_equal.
  unfold s. rewrite values_combine.
  - apply prepare_then_mask.
  - rewrite length_RangeIndex, length_fillna_scalar, length_interpolate.
    unfold INQ. now rewrite length_map.
Qed.

Lemma unknown_methods_store_raw_column_witness :
  anomaly_process default_cleaner (hourly [fz 1; NaN; fz 3])
    ["smooth"%string]
  = Ok ("smooth"%string, INQ (hourly [fz 1; NaN; fz 3])).
Proof.
  apply (@unknown_methods_store_raw_column offline default_cleaner
           (hourly [fz 1; NaN; fz 3]) "smooth"%string []).
  repeat constructor. simpl. intros H.
  repeat (destruct H as [H|H]; [discriminate|]). exact H.
Defined.

(** X17: A chain in which moving_average, FFT, wavelet or rolling_mean comes
    directly after kalman, moving_average_diff, lowpass, FFT or wavelet
    never completes: the first method hands on a NumPy array (or has
    raised), and the second raises AttributeError on it.  So FFT cannot be
    run twice in a row. *)
Theorem array_then_series_method_fails {scipy : SciPy}
    (self : StreamflowCleaner) (origin : origin_df)
    (first second : string) (rest : list string) :
  In first array_methods -> In second series_methods ->
  (forall x y,
     apply_method self origin first x = Ok y ->
     apply_method self origin second y = Raise AttributeError) /\
  (forall r, anomaly_process self origin (first :: second :: rest) <> Ok r).
Proof.
  intros H1 H2.
  assert (Hstep : forall x y,
            apply_method self origin first x = Ok y ->
            apply_method self origin second y = Raise AttributeError).
  { intros x y Hy.
    destruct (@array_method_returns_array scipy self origin first x y H1 Hy)
      as [a ->].
    now apply series_method_on_array. }
  split; [exact Hstep|].
  intros r H. unfold anomaly_process in H.
  apply bind_Ok in H as (chain & Hrun & _).
  cbn [run_methods] in Hrun.
  apply bind_Ok in Hrun as (y & Hy & Hrun).
  rewrite (Hstep _ _ Hy) in Hrun. discriminate.
Qed.

Lemma array_then_series_method_fails_witness :
  @apply_method offline default_cleaner (hourly [fz 1; fz 3])
    "moving_average"%string (DArray [fz 2; fz 2])
  = Raise AttributeError.
Proof.
  assert (H1 : In "moving_average_diff"%string array_methods)
    by (simpl; auto).
  assert (H2 : In "moving_average"%string series_methods)
    by (simpl; auto).
  apply (proj1 (@array_then_series_method_fails offline default_cleaner
                  (hourly [fz 1; fz 3]) _ _ [] H1 H2)
           (DArray [fz 1; fz 3]) (DArray [fz 2; fz 2])).
  by_evaluation.
Defined.

(** ** EMA: when it completes, and the width of its windows *)

Lemma align_on_frame (origin : origin_df) (x : data) :
  on_frame origin x ->
  exists column,
    align (RangeIndex (List.length origin)) x = Ok column /\
    List.length column = List.length origin.
Proof.
  destruct x as [s|a]; simpl; intros H.
  - eexists. split; [reflexivity|]. now rewrite length_map, length_RangeIndex.
  - rewrite length_RangeIndex, H, Nat.eqb_refl. now exists a.
Qed.

Lemma combine_time_series (ts : list Z) (vs : list fval) :
  combine (map Time ts) vs = time_series (combine ts vs).
Proof.
  revert vs. induction ts as [|t ts IH]; intros [|v vs]; simpl;
    try reflexivity.
  now rewrite IH.
Qed.

Lemma map_fst_combine (ts : list Z) (vs : list fval) :
  List.length ts = List.length vs -> map fst (combine ts vs) = ts.
Proof.
  revert vs. induction ts as [|t ts IH]; intros [|v vs]; simpl;
    try discriminate; try reflexivity.
  intros H. f_equal. apply IH. lia.
Qed.

Lemma drop_duplicated_distinct (s : Series) :
  NoDup (index s) -> drop_duplicated s = s.
Proof.
  induction s as [|[l v] rest IH]; simpl; intros H; [reflexivity|].
  inversion H as [|? ? Hnotin Hrest]; subst.
  destruct (existsb _ rest) eqn:E.
  - apply existsb_label in E. contradiction.
  - f_equal. now apply IH.
Qed.

Lemma adaptive_moving_average_ordered (rows : list (Z * fval))
    (threshold : fval) (initial_window min_window max_window
    decay_factor : Z) :
  is_monotonic_increasing (map fst rows) = true ->
  NoDup (map fst rows) -> decay_factor <> 0%Z ->
  exists r,
    adaptive_moving_average (DSeries (time_series rows)) threshold
      initial_window min_window max_window decay_factor = Ok r.
Proof.
  intros Hm Hnd Hd. unfold adaptive_moving_average.
  rewrite index_time_series.
  destruct (@adaptive_loop_run rows threshold min_window max_window
              decay_factor Hm Hnd Hd rows 0 initial_window (incl_refl rows))
    as (out & -> & _).
  eexists. reflexivity.
Qed.

(** [EMA] itself completes on every input on the rows of a frame whose
    timestamps are distinct and in increasing order. *)
Lemma EMA_ordered (origin : origin_df) (x : data) :
  on_frame origin x ->
  is_monotonic_increasing (TM origin) = true -> NoDup (TM origin) ->
  exists r, EMA origin x = Ok r.
Proof.
  intros Hx Hm Hnd. unfold EMA.
  destruct (align_on_frame origin x Hx) as (inqq & -> & Hlen). cbn [bind].
  rewrite combine_time_series.
  set (rows := combine (TM origin) inqq).
  assert (Hfst : map fst rows = TM origin).
  { apply map_fst_combine. unfold TM. now rewrite length_map, Hlen. }
  assert (Hrows : NoDup (map fst rows)) by (now rewrite Hfst).
  assert (Hmono : is_monotonic_increasing (map fst rows) = true)
    by (now rewrite Hfst).
  rewrite drop_duplicated_distinct
    by (rewrite index_time_series; now apply NoDup_map_Time).
  destruct (@adaptive_moving_average_ordered rows (fz 40) 168 24 168 2
              Hmono Hrows) as [a ->]; [discriminate|].
  destruct (@adaptive_moving_average_ordered rows (fz 40) 168 168 720 2
              Hmono Hrows) as [b ->]; [discriminate|].
  cbn [bind]. eexists. reflexivity.
Qed.

(** X18: On an input lying on the rows of the frame, the EMA branch of the
    pipeline completes only if no timestamp of the frame is repeated (with
    a repeated timestamp EMA drops a row and the index reset raises); and
    it does complete when the timestamps are distinct and in increasing
    order: every lookup and both adaptive averages succeed and the index
    reset fits.  (Distinct timestamps in no order are not enough: a window
    bound that is not a label then raises [KeyError].) *)
Theorem EMA_branch_completes_on_ordered_frame (origin : origin_df)
    (x : data) :
  on_frame origin x ->
  ((exists y, EMA_branch origin x = Ok y) -> NoDup (TM origin)) /\
  (is_monotonic_increasing (TM origin) = true -> NoDup (TM origin) ->
   exists y, EMA_branch origin x = Ok y).
Proof.
  intros Hx. split.
  - intros [y H]. unfold EMA_branch in H.
    apply bind_Ok in H as (r & Hr & H).
    destruct (EMA_shape origin x Hr) as (s & -> & _ & _ & Hlen).
    apply bind_Ok in H as (s' & Hs & _).
    apply set_index_Ok in Hs as [Hs _].
    rewrite length_RangeIndex in Hs. apply Hlen. now symmetry.
  - intros Hm Hnd. destruct (EMA_ordered origin x Hx Hm Hnd) as [r Hr].
    destruct (EMA_shape origin x Hr) as (s & -> & _ & _ & Hlen).
    unfold EMA_branch. rewrite Hr. cbn [bind]. unfold set_index.
    rewrite length_RangeIndex.
    apply Hlen in Hnd. rewrite Hnd, Nat.eqb_refl. cbn [bind].
    eexists. reflexivity.
Qed.

Lemma EMA_branch_completes_on_ordered_frame_witness :
  exists y,
    EMA_branch (hourly [fz 1; fz 2])
      (DSeries (combine (RangeIndex 2) [fz 1; fz 2])) = Ok y.
Proof.
  apply (proj2 (@EMA_branch_completes_on_ordered_frame
                  (hourly [fz 1; fz 2])
                  (DSeries (combine (RangeIndex 2) [fz 1; fz 2]))
                  eq_refl)).
  - reflexivity.
  - repeat constructor; simpl; intuition discriminate.
Defined.

(** Fifteen daily rows, all above the threshold, the last two in the wrong
    order: at the third row the width has come down to 24 hours, the upper
    bound of the window is noon of the next day, which is no label of the
    index, and the slice raises. *)
Lemma EMA_unordered_timestamps_raise :
  let days := [0; 1; 2; 3; 4; 5; 6; 7; 8; 9; 10; 11; 12; 14; 13]%Z in
  let origin := map (fun d => ((86400 * d)%Z, fz 50)) days in
  NoDup (TM origin) /\
  EMA origin (DSeries (combine (RangeIndex 15) (INQ origin)))
  = Raise KeyError.
Proof.
  cbv zeta. split.
  - apply NoDup_map_Time.
    repeat (constructor; [simpl; intuition discriminate|]). constructor.
  - vm_compute. reflexivity.
Qed.

Lemma window_update_bounds (threshold : fval) (min_window max_window
    decay_factor current_window : Z) (current_value : fval) :
  (0 <= min_window <= max_window)%Z -> (1 <= decay_factor)%Z ->
  (min_window <= current_window <= max_window)%Z ->
  (min_window
   <= window_update threshold min_window max_window decay_factor
        current_window current_value
   <= max_window)%Z.
Proof.
  intros Hb Hd Hw. unfold window_update.
  destruct (fgeb current_value threshold).
  - assert (current_window / decay_factor <= current_window)%Z.
    { apply Z.div_le_upper_bound; nia. }
    lia.
  - assert (current_window <= current_window * decay_factor)%Z by nia.
    lia.
Qed.

(** X19: The window width never leaves the interval from [min_window] to
    [max_window]: started inside it with a decay factor of 1 or more,
    [next_window] always returns a width inside it, and so is the width in
    force at every row. *)
Theorem adaptive_window_within_bounds (threshold : fval) (min_window
    max_window decay_factor initial_window : Z) :
  (0 <= min_window <= max_window)%Z -> (1 <= decay_factor)%Z ->
  (min_window <= initial_window <= max_window)%Z ->
  (forall current_window current_value,
     (min_window <= current_window <= max_window)%Z ->
     exists w,
       next_window threshold min_window max_window decay_factor
         current_window current_value = Ok w /\
       (min_window <= w <= max_window)%Z) /\
  (forall vals i,
     (min_window
      <= window_at threshold min_window max_window decay_factor
           initial_window vals i
      <= max_window)%Z).
Proof.
  intros Hb Hd Hi. split.
  - intros w v Hw. eexists. split.
    + apply next_window_update. lia.
    + now apply window_update_bounds.
  - intros vals i. unfold window_at.
    generalize (firstn (S i) vals) as l. intros l.
    revert initial_window Hi.
    induction l as [|v l IH]; intros w Hw; simpl; [exact Hw|].
    apply IH. now apply window_update_bounds.
Qed.

Lemma adaptive_window_within_bounds_witness :
  (168 <= window_at (fz 40) 168 720 2 168 [fz 1; fz 50; fz 2] 2 <= 720)%Z.
Proof.
  apply (@adaptive_window_within_bounds (fz 40) 168 720 2 168); lia.
Defined.
